(** * uiwrapper: the alert table engine, its locator registry and its element façade

    A shallow embedding of
      - [uiwrapper/actions/locator.py]                         (class Locator),
      - [uiwrapper/alerts/actions/alert_action_component.py]   (class AlertComponentAction),
      - [uiwrapper/alerts/components/alert_base.py]            (class AlertBaseComponent),
      - [uiwrapper/alerts/components/table.py]                 (class AlertTable).

    The browser (Selenium's WebDriver and its WebElements) is not code of the
    repository: it is an interface, the class [Driver] below, and the methods
    are programs of a state-and-exception monad over any implementation of it.
    A paginated fixture at the end of the definitions implements the interface
    with plain data, so that every method can be run on a concrete page.

    A Python [str] is the sequence of its code points; the model covers the
    code points below 256, one [ascii] each. *)

From Stdlib Require Import Ascii String.
From stdpp Require Import base option list strings gmap.

Set Default Proof Using "Type".

(* ===================================================================== *)
(** ** Python strings *)
(* ===================================================================== *)

Section PyStr.

(** The double quote, for selectors such as [[data-test="status"]]. *)
Definition dq : string := String (ascii_of_nat 34) EmptyString.

(** The line feed, [\n] in a Python literal. *)
Definition nl : string := String (ascii_of_nat 10) EmptyString.

(** [str.lower] on one code point below 256: A-Z, and the Latin-1 capitals
    U+00C0..U+00DE except the multiplication sign U+00D7. *)
Definition lower_char (c : ascii) : ascii :=
  let n := nat_of_ascii c in
  if ((65 <=? n) && (n <=? 90)) || ((192 <=? n) && (n <=? 222) && negb (n =? 215))
  then ascii_of_nat (n + 32) else c.

(** [s.lower()] *)
Fixpoint lower (s : string) : string :=
  match s with
  | EmptyString => EmptyString
  | String c r => String (lower_char c) (lower r)
  end.

(** [s.replace(a, b)] for one-character [a] and [b]. *)
Fixpoint replace_char (a b : ascii) (s : string) : string :=
  match s with
  | EmptyString => EmptyString
  | String c r => String (if Ascii.eqb c a then b else c) (replace_char a b r)
  end.

(** [str.isspace] on one code point below 256; [\s] of [re] on a [str]
    pattern is the same class. *)
Definition py_isspace (c : ascii) : bool :=
  let n := nat_of_ascii c in
  ((9 <=? n) && (n <=? 13)) || ((28 <=? n) && (n <=? 32)) || (n =? 133) || (n =? 160).

(** White space of JavaScript's [String.prototype.trim] below 256. *)
Definition js_isspace (c : ascii) : bool :=
  let n := nat_of_ascii c in
  ((9 <=? n) && (n <=? 13)) || (n =? 32) || (n =? 160).

Fixpoint lstrip (sp : ascii -> bool) (s : string) : string :=
  match s with
  | EmptyString => EmptyString
  | String c r => if sp c then lstrip sp r else s
  end.

(** Drops the trailing run of [sp] characters. *)
Fixpoint rstrip (sp : ascii -> bool) (s : string) : string :=
  match s with
  | EmptyString => EmptyString
  | String c r =>
      match rstrip sp r with
      | EmptyString => if sp c then EmptyString else String c EmptyString
      | r' => String c r'
      end
  end.

(** [s.strip()] *)
Definition strip (s : string) : string := rstrip py_isspace (lstrip py_isspace s).

(** JavaScript's [s.trim()] *)
Definition js_trim (s : string) : string := rstrip js_isspace (lstrip js_isspace s).

(** [re.sub(r"\s+", " ", s)]: every maximal run of white space becomes one
    space. [in_run] says that the previous character was white space. *)
Fixpoint collapse_ws (in_run : bool) (s : string) : string :=
  match s with
  | EmptyString => EmptyString
  | String c r =>
      if py_isspace c
      then (if in_run then collapse_ws true r else String " " (collapse_ws true r))
      else String c (collapse_ws false r)
  end.

(** [a in b] on strings: [a] occurs in [b] as a contiguous substring. *)
Fixpoint str_contains (a b : string) : bool :=
  String.prefix a b ||
  match b with
  | EmptyString => false
  | String _ r => str_contains a r
  end.

End PyStr.

(* ===================================================================== *)
(** ** Exceptions, formatted messages, outcomes *)
(* ===================================================================== *)

(** An argument of [str.format]; elements, exceptions and tracebacks are kept
    as they are rather than rendered. *)
Inductive fmtarg (Elem : Type) :=
| AStr (s : string)
| AOptStr (s : option string)
| AElem (e : Elem)
| AExn (name : string)
| ADict (d : list (string * (option string * string)))
| ATraceback.
Arguments AStr {Elem} s.
Arguments AOptStr {Elem} s.
Arguments AElem {Elem} e.
Arguments AExn {Elem} name.
Arguments ADict {Elem} d.
Arguments ATraceback {Elem}.

(** [template.format(args...)] *)
Record message (Elem : Type) := Fmt { template : string; fmt_args : list (fmtarg Elem) }.
Arguments Fmt {Elem} template fmt_args.
Arguments template {Elem} m.
Arguments fmt_args {Elem} m.

(** The exceptions the modelled code meets. All of them derive from
    [Exception], so [except Exception] catches each. *)
Inductive exn (Elem : Type) :=
| IndexError                                  (* list index out of range *)
| ValueError (msg : message Elem)
| UnpackError                                 (* ValueError/TypeError of a 2-unpacking *)
| TypeError
| AttributeError (attr : string)
| UnboundLocalError (var : string)
| TimeoutException (msg : message Elem)
| WebDriverException (kind : string).          (* any other error of the driver *)
Arguments IndexError {Elem}.
Arguments ValueError {Elem} msg.
Arguments UnpackError {Elem}.
Arguments TypeError {Elem}.
Arguments AttributeError {Elem} attr.
Arguments UnboundLocalError {Elem} var.
Arguments TimeoutException {Elem} msg.
Arguments WebDriverException {Elem} kind.

Definition exn_name {Elem} (e : exn Elem) : string :=
  match e with
  | IndexError => "IndexError"
  | ValueError _ => "ValueError"
  | UnpackError => "ValueError"
  | TypeError => "TypeError"
  | AttributeError _ => "AttributeError"
  | UnboundLocalError _ => "UnboundLocalError"
  | TimeoutException _ => "TimeoutException"
  | WebDriverException k => k
  end.

(** The result of one driver call. *)
Inductive res (Elem A : Type) :=
| Ok (a : A)
| Err (e : exn Elem).
Arguments Ok {Elem A} a.
Arguments Err {Elem A} e.

(* ===================================================================== *)
(** ** The DOM subtree a script sees *)
(* ===================================================================== *)

(** A DOM node: a text node, or an element with its tag (lower case), its
    attributes and its children in document order. *)
#[warnings="-register-all"]
Inductive node :=
| TextNode (data : string)
| ElemNode (tag : string) (attrs : list (string * string)) (children : list node).

(** [Node.textContent]: the text nodes below the node, in document order. *)
Fixpoint textContent (n : node) : string :=
  match n with
  | TextNode s => s
  | ElemNode _ _ cs =>
      (fix go (l : list node) : string :=
         match l with
         | [] => EmptyString
         | c :: r => textContent c +:+ go r
         end) cs
  end.

Fixpoint attr_lookup (k : string) (l : list (string * string)) : option string :=
  match l with
  | [] => None
  | (k', v) :: r => if String.eqb k' k then Some v else attr_lookup k r
  end.

(** The CSS selector [span[data-test="screen-reader-content"]] on one node. *)
Definition is_screen_reader_span (n : node) : bool :=
  match n with
  | TextNode _ => false
  | ElemNode tag attrs _ =>
      String.eqb tag "span" &&
      match attr_lookup "data-test" attrs with
      | Some v => String.eqb v "screen-reader-content"
      | None => false
      end
  end.

(** [label.querySelectorAll(sel).forEach(span => span.remove())]: every
    descendant matched by the selector leaves the tree, with all that is below
    it; the node the script was given is never itself a match. *)
Fixpoint remove_screen_reader (n : node) : node :=
  match n with
  | TextNode s => TextNode s
  | ElemNode tag attrs cs =>
      ElemNode tag attrs
        ((fix go (l : list node) : list node :=
            match l with
            | [] => []
            | c :: r =>
                if is_screen_reader_span c then go r
                else remove_screen_reader c :: go r
            end) cs)
  end.

(** No screen-reader span is left below the node. *)
Fixpoint no_screen_reader (n : node) : bool :=
  match n with
  | TextNode _ => true
  | ElemNode _ _ cs =>
      (fix go (l : list node) : bool :=
         match l with
         | [] => true
         | c :: r => negb (is_screen_reader_span c) && no_screen_reader c && go r
         end) cs
  end.

(* ===================================================================== *)
(** ** The browser interface *)
(* ===================================================================== *)

(** What the code asks of Selenium. Reads look at the page and leave it as it
    is; actions and waits may change it. [until_*] are
    [WebDriverWait(driver, timeout).until(EC.*((by, value)), msg)], which raise
    [TimeoutException(msg)] themselves, with their time limit in seconds;
    [sleep] takes milliseconds. *)
Class Driver (World Elem : Type) := {
  (* driver.find_elements(by, value) *)
  find_elements : string -> string -> World -> res Elem (list Elem);
  (* element.find_element(by, value) *)
  find_element : Elem -> string -> string -> World -> res Elem Elem;
  (* element.text *)
  text : Elem -> World -> res Elem string;
  (* element.get_attribute(name) *)
  get_attribute : Elem -> string -> World -> res Elem (option string);
  (* element.is_displayed(), element.is_enabled() *)
  is_displayed : Elem -> World -> res Elem bool;
  is_enabled : Elem -> World -> res Elem bool;
  (* the subtree below an element, as a script run on it sees it *)
  subtree : Elem -> World -> res Elem node;
  set_subtree : Elem -> node -> World -> World;
  (* element.click(), element.clear(), element.send_keys(text) *)
  click : Elem -> World -> res Elem unit * World;
  clear : Elem -> World -> res Elem unit * World;
  send_keys : Elem -> string -> World -> res Elem unit * World;
  (* the three expected conditions in use, with the time limit in seconds *)
  until_present : string -> string -> nat -> message Elem -> World -> res Elem Elem * World;
  until_visible : string -> string -> nat -> message Elem -> World -> res Elem Elem * World;
  until_invisible : string -> string -> nat -> message Elem -> World -> res Elem unit * World;
  (* time.sleep *)
  sleep : N -> World -> World
}.

(* ===================================================================== *)
(** ** Program state and the monad *)
(* ===================================================================== *)

Inductive level := INFO | WARNING | ERROR.

(** What a run leaves behind, oldest first. *)
Inductive event (Elem : Type) :=
| EvLog (lvl : level) (msg : message Elem)
| EvClick (e : Elem)
| EvClear (e : Elem)
| EvSendKeys (e : Elem) (keys : string)
| EvSleep (ms : N)
| EvWaitPresent (by_ value : string) (seconds : nat)
| EvWaitVisible (by_ value : string) (seconds : nat)
| EvWaitInvisible (by_ value : string) (seconds : nat)
| EvScript (e : Elem).
Arguments EvLog {Elem} lvl msg.
Arguments EvClick {Elem} e.
Arguments EvClear {Elem} e.
Arguments EvSendKeys {Elem} e keys.
Arguments EvSleep {Elem} ms.
Arguments EvWaitPresent {Elem} by_ value seconds.
Arguments EvWaitVisible {Elem} by_ value seconds.
Arguments EvWaitInvisible {Elem} by_ value seconds.
Arguments EvScript {Elem} e.

(** [self.driver] (the page), [self.locator.locators] (a dict that the
    methods update in place) and the events so far. *)
Record state (World Elem : Type) := State {
  world : World;
  locators : gmap string (list string);
  trace : list (event Elem)
}.
Arguments State {World Elem} world locators trace.
Arguments world {World Elem} s.
Arguments locators {World Elem} s.
Arguments trace {World Elem} s.

(** A call returns, raises, or is still running when the fuel of the model
    is spent. *)
Inductive outcome (World Elem A : Type) :=
| Ret (a : A) (s : state World Elem)
| Exc (e : exn Elem) (s : state World Elem)
| OutOfFuel.
Arguments Ret {World Elem A} a s.
Arguments Exc {World Elem A} e s.
Arguments OutOfFuel {World Elem A}.

Definition M (World Elem A : Type) : Type := state World Elem -> outcome World Elem A.

Section Monad.
Context {World Elem : Type}.
Local Abbreviation M := (M World Elem).

Definition ret {A} (a : A) : M A := fun s => Ret a s.

Definition bind {A B} (m : M A) (k : A -> M B) : M B :=
  fun s =>
    match m s with
    | Ret a s' => k a s'
    | Exc e s' => Exc e s'
    | OutOfFuel => OutOfFuel
    end.

Definition raise {A} (e : exn Elem) : M A := fun s => Exc e s.

Definition out_of_fuel {A} : M A := fun _ => OutOfFuel.

(** [try: body  except Exception as e: handler e] *)
Definition try_except {A} (body : M A) (handler : exn Elem -> M A) : M A :=
  fun s =>
    match body s with
    | Ret a s' => Ret a s'
    | Exc e s' => handler e s'
    | OutOfFuel => OutOfFuel
    end.

Definition emit (ev : event Elem) : M unit :=
  fun s => Ret tt (State (world s) (locators s) (trace s ++ [ev])).

(** A read of the page. *)
Definition observe {A} (f : World -> res Elem A) : M A :=
  fun s =>
    match f (world s) with
    | Ok a => Ret a s
    | Err e => Exc e s
    end.

(** An action on the page, noted in the trace when it is called. *)
Definition perform {A} (ev : event Elem) (f : World -> res Elem A * World) : M A :=
  fun s =>
    let '(r, w) := f (world s) in
    let s' := State w (locators s) (trace s ++ [ev]) in
    match r with
    | Ok a => Ret a s'
    | Err e => Exc e s'
    end.

(** [LOGGER.info], [LOGGER.warning], [LOGGER.error] *)
Definition log (lvl : level) (tpl : string) (args : list (fmtarg Elem)) : M unit :=
  emit (EvLog lvl (Fmt tpl args)).

(** [l[i]] *)
Definition index (l : list string) (i : nat) : M string :=
  match l !! i with
  | Some x => ret x
  | None => raise IndexError
  end.

(** [by, value = l], and a call [f] of two arguments with the starred [l]. *)
Definition unpack2 (l : list string) : M (string * string) :=
  match l with
  | [a; b] => ret (a, b)
  | _ => raise UnpackError
  end.

End Monad.

Declare Scope py_scope.
Delimit Scope py_scope with py.
Notation "x <- c ;; k" := (bind c (fun x => k))
  (at level 100, c at next level, k at level 200, right associativity) : py_scope.
Notation "c ;; k" := (bind c (fun _ => k))
  (at level 100, k at level 200, right associativity) : py_scope.
Open Scope py_scope.

(* ===================================================================== *)
(** ** uiwrapper/actions/locator.py: class Locator *)
(* ===================================================================== *)

(** [By.CSS_SELECTOR] *)
Definition CSS_SELECTOR : string := "css selector".

(** A dict of locators as the callers write it: [{key: [by or None, value]}],
    in the order of the literal. *)
Definition locator_dict := list (string * (option string * string)).

(** [[By.CSS_SELECTOR if val[0] is None else val[0], val[1]]] *)
Definition normalize_entry (val : option string * string) : list string :=
  [match val.1 with None => CSS_SELECTOR | Some by_ => by_ end; val.2].

(** The dict comprehension of [__init__] and [update_locaters]; a key written
    twice keeps its last value. *)
Definition comprehension (d : locator_dict) : gmap string (list string) :=
  foldl (fun m kv => <[kv.1 := normalize_entry kv.2]> m) ∅ d.

(** [dict.update]: the entries of [new] replace those of [old]. *)
Definition dict_update (old new : gmap string (list string)) : gmap string (list string) :=
  new ∪ old.

(** [Locator.__init__] *)
Definition Locator_init (existing_locators : locator_dict) : gmap string (list string) :=
  comprehension existing_locators.

Section Locator.
Context `{Driver World Elem}.
Local Abbreviation M := (M World Elem).

(** [Locator.get_locator]: the default of [dict.get] is the empty list, and
    the arguments of the log line index it before anything is returned. *)
Definition get_locator (name : string) : M (list string) :=
  fun s =>
    (let locator := default [] (locators s !! name) in
     l0 <- index locator 0;;
     l1 <- index locator 1;;
     log INFO "Getting locator={} with by={}, value={}" [AStr name; AStr l0; AStr l1];;
     ret locator) s.

(** [Locator.update_locaters] *)
Definition update_locaters (new_locators : locator_dict) : M unit :=
  log INFO "Updating element: {}" [ADict new_locators];;
  fun s => Ret tt (State (world s)
                         (dict_update (locators s) (comprehension new_locators))
                         (trace s)).

End Locator.

(* ===================================================================== *)
(** ** uiwrapper/alerts/actions/alert_action_component.py:
       class AlertComponentAction *)
(* ===================================================================== *)

Section AlertComponentAction.
Context `{Driver World Elem}.
Local Abbreviation M := (M World Elem).

(** [self.wait = WebDriverWait(driver, 15)] *)
Definition DEFAULT_WAIT : nat := 15.

(** [if timeout: wait = WebDriverWait(self.driver, timeout) else: wait = self.wait] *)
Definition wait_seconds (timeout : option nat) : nat :=
  match timeout with
  | Some (S n) => S n
  | _ => DEFAULT_WAIT
  end.

(** [AlertComponentAction.get_element] *)
Definition get_element (by_ value : string) : M Elem :=
  let msg := Fmt "Element with by={} and value={} not found." [AStr by_; AStr value] in
  perform (EvWaitPresent by_ value DEFAULT_WAIT) (until_present by_ value DEFAULT_WAIT msg).

(** [AlertComponentAction._find_element] *)
Definition _find_element (element : Elem) (locator : string) : M Elem :=
  loc <- get_locator locator;;
  bv <- unpack2 loc;;
  observe (find_element element bv.1 bv.2).

(** [AlertComponentAction._find_elements] *)
Definition _find_elements (by_ value : string) : M (list Elem) :=
  try_except
    (observe (find_elements by_ value))
    (fun _ =>
       log ERROR "Elements with by={} and value={} not found." [AStr by_; AStr value];;
       ret []).

(** [AlertComponentAction.enter_text]. When the first line of the [try] raises,
    [by] and [value] are not bound, and the handler's own log line raises
    [UnboundLocalError] at [by]. *)
Definition enter_text (locator text_ : string) : M unit :=
  fun s0 =>
    match (loc <- get_locator locator;; unpack2 loc) s0 with
    | OutOfFuel => OutOfFuel
    | Exc _ s => Exc (UnboundLocalError "by") s
    | Ret (by_, value) s =>
        try_except
          (log INFO "Entering value with locator: {}, by={} and value={}"
               [AStr locator; AStr by_; AStr value];;
           element <- get_element by_ value;;
           (if negb (String.eqb value "password")
            then perform (EvClear element) (clear element)
            else ret tt);;
           perform (EvSendKeys element text_) (send_keys element text_))
          (fun e =>
             log ERROR
               ("Error entering text with locator '{}', by={} and value={} error: {}"
                +:+ nl +:+ "Traceback: {}")
               [AStr locator; AStr by_; AStr value; AExn (exn_name e); ATraceback];;
             raise e) s
    end.

(** [AlertComponentAction.wait_for_element] *)
Definition wait_for_element (locator : string) (timeout : option nat) : M Elem :=
  log INFO "Waiting for element: {}" [AStr locator];;
  loc <- get_locator locator;;
  bv <- unpack2 loc;;
  let '(by_, value) := bv in
  let msg := Fmt "Element with locator={}, by={} and value={} is not visible"
                 [AStr locator; AStr by_; AStr value] in
  let seconds := wait_seconds timeout in
  perform (EvWaitVisible by_ value seconds) (until_visible by_ value seconds msg).

(** [AlertComponentAction.wait_for_element_invisible] *)
Definition wait_for_element_invisible (locator : string) (timeout : option nat) : M unit :=
  loc <- get_locator locator;;
  bv <- unpack2 loc;;
  let '(by_, value) := bv in
  let msg := Fmt "Element with locator={}, by={} and value={} did not become invisible."
                 [AStr locator; AStr by_; AStr value] in
  log INFO "Waiting for element to become invisible: locator={}, by={} and value={}"
      [AStr locator; AStr by_; AStr value];;
  let seconds := wait_seconds timeout in
  perform (EvWaitInvisible by_ value seconds) (until_invisible by_ value seconds msg).

(** The script of [get_text], run on [label]: the screen-reader spans below
    it are removed from the page and the trimmed text of what is left comes
    back. *)
Definition strip_script (label : Elem) : M string :=
  n <- observe (subtree label);;
  let n' := remove_screen_reader n in
  perform (EvScript label) (fun w => (Ok (js_trim (textContent n')), set_subtree label n' w)).

(** [AlertComponentAction.get_text] *)
Definition get_text (locator : string) : M string :=
  loc <- get_locator locator;;
  bv <- unpack2 loc;;
  text_element <- get_element bv.1 bv.2;;
  element_text <- strip_script text_element;;
  ret (if negb (String.eqb (lower element_text) EmptyString)
       then element_text
       else "element text not found of locator=" +:+ locator).

(** [AlertComponentAction.get_element_text]; [re.sub] on [None] is a
    [TypeError]. *)
Definition get_element_text (element : Elem) : M string :=
  inner_text <- observe (get_attribute element "innerText");;
  match inner_text with
  | None => raise TypeError
  | Some inner_text => ret (strip (collapse_ws false inner_text))
  end.

End AlertComponentAction.

(* ===================================================================== *)
(** ** uiwrapper/alerts/components/alert_base.py and table.py:
       class AlertTable(AlertBaseComponent) *)
(* ===================================================================== *)

(** The fields [__init__] sets once. *)
Record AlertTable := { name : string; value : string }.

Definition ROWS : string := " tr.list-item.savedsearches-gridrow".
Definition SWITCH_PAGE : string := " .pull-right li a".

(** [AlertTable.COLS.format(column)] with [COLS = " td.cell-{}"] *)
Definition COLS_format (column : string) : string := " td.cell-" +:+ column.

(** [' [data-test="status"]'] *)
Definition STATUS_SELECTOR : string := " [data-test=" +:+ dq +:+ "status" +:+ dq +:+ "]".

(** The locators [AlertBaseComponent.__init__] adds. *)
Definition base_locators : locator_dict :=
  [ ("label_component", (None, " .control-label"));
    ("help", (None, " .help-block")) ].

(** [new_locator] of [AlertTable.__init__] *)
Definition new_locator (value : string) : locator_dict :=
  [ ("input_number", (None, value +:+ " .shared-collectioncount"));
    ("status_column", (None, STATUS_SELECTOR));
    ("clear_filter", (None, " [data-test=" +:+ dq +:+ "clear" +:+ dq +:+ "]"));
    ("search_box",
     (None, " [data-name=" +:+ dq +:+ "nameFilter" +:+ dq +:+ "] input.search-query"));
    ("loader", (None, value +:+ " [data-test=" +:+ dq +:+ "wait-spinner" +:+ dq +:+ "]"));
    ("popup", (None, "div.deletePrompt"));
    ("clone_btn", (None, "a.clone"));
    ("edit_btn", (None, ".edit-alert"));
    ("delete_btn", (None, "a.delete"));
    ("status_button", (None, " [data-test=" +:+ dq +:+ "button" +:+ dq +:+ "][role="
                              +:+ dq +:+ "switch" +:+ dq +:+ "]"));
    ("switch_to_page", (None, value +:+ SWITCH_PAGE));
    ("main_table", (None, "table[data-test=" +:+ dq +:+ "main-table" +:+ dq +:+ "]"));
    ("table_head", (None, " [data-test=" +:+ dq +:+ "head" +:+ dq +:+ "]"));
    ("table_headers", (None, value +:+ " th"));
    ("table_container", (None, value +:+ " [data-test=" +:+ dq +:+ "table" +:+ dq +:+ "]"));
    ("expand", (None, "[data-test=" +:+ dq +:+ "expand" +:+ dq +:+ "]"));
    ("rows", (None, value +:+ ROWS)) ].

(** Every name an [AlertTable] object answers to: the class constants and
    methods of [AlertTable], the methods of [AlertBaseComponent] and
    [AlertComponentAction], and the fields their [__init__] set. *)
Definition AlertTable_members : list string :=
  [ "ROWS"; "COLS"; "COLS_NO"; "EDIT_BUTTON"; "ENABLE_DISABLE"; "CLONE_BUTTON";
    "MOVE_BUTTON"; "SEARCH_BUTTON"; "DELETE_POPUP"; "DELETE_BUTTON"; "DELETE_CANCEL";
    "DELETE_CLOSE"; "CLEAR_FILTER"; "ALERT_KEY"; "SWITCH_PAGE";
    "name"; "value"; "driver"; "wait"; "action"; "locator";
    "get_list_of_rows"; "get_total_rows_elements"; "get_row"; "get_rows_count";
    "get_expanded_row_value"; "delete_row"; "edit_row"; "clone_row"; "get_column_list";
    "get_column_value"; "_column_value"; "search"; "clear_search"; "next_page";
    "prev_page"; "switch_to"; "get_input_count"; "sort_table"; "get_headers";
    "update_status"; "_is_element_clickable"; "_wait_to_be_stale";
    "get_alert_help_text_list"; "get_alert_labels_list";
    "get_element"; "_find_element"; "_find_elements"; "click_element"; "enter_text";
    "wait_for_element"; "wait_for_element_invisible"; "wait_for_element_clickable";
    "_hover_element"; "get_text"; "get_element_text"; "get_updated_message" ].

Section AlertTable.
Context `{Driver World Elem}.
Local Abbreviation M := (M World Elem).

(** [AlertTable.__init__(driver, container)]: the object's fields and its
    first state. [list(container)[0]] fails on an empty dict. *)
Definition AlertTable_init (driver : World) (container : locator_dict)
  : outcome World Elem AlertTable :=
  match container with
  | [] => Exc IndexError (State driver ∅ [])
  | (name, _) :: _ =>
      match comprehension container !! name with
      | Some [_; value] =>
          (update_locaters base_locators;;
           update_locaters (new_locator value);;
           ret {| name := name; value := value |})
            (State driver (Locator_init container) [])
      | _ => Exc IndexError (State driver ∅ [])
      end
  end.

(** [time.sleep(seconds)], in milliseconds *)
Definition time_sleep (ms : N) : M unit :=
  perform (EvSleep ms) (fun w => (Ok tt, sleep ms w)).

(** [self.<attr>] for a name the code does not define on [AlertTable]: the
    lookup raises [AttributeError] before any call is made. No member that is
    found is called through this function. *)
Definition call_member (attr : string) : M unit :=
  if bool_decide (attr ∈ AlertTable_members) then ret tt
  else raise (AttributeError attr).

(** [AlertTable._is_element_clickable] *)
Definition _is_element_clickable (element : Elem) : M bool :=
  try_except
    (log INFO "Checking if the next page is clickable." [];;
     displayed <- observe (is_displayed element);;
     if displayed then observe (is_enabled element) else ret false)
    (fun e =>
       log ERROR ("Next page button is not clickable." +:+ nl +:+ " Error: {}")
           [AExn (exn_name e)];;
       ret false).

(** The [for page in elements: ... else: raise] of [next_page]; [last] is the
    value of [page] when the loop ends. *)
Fixpoint next_page_loop (elements : list Elem) (last : Elem) : M bool :=
  match elements with
  | [] => raise (ValueError (Fmt "page: {} is not found." [AElem last]))
  | page :: rest =>
      label <- get_element_text page;;
      if String.eqb (lower label) "next" then
        try_except
          (clickable <- _is_element_clickable page;;
           if clickable then
             perform (EvClick page) (click page);;
             ret true
           else ret false)
          (fun e =>
             log WARNING "Unexpected error occurred: {}" [AExn (exn_name e)];;
             ret false)
      else next_page_loop rest page
  end.

(** [AlertTable.next_page] *)
Definition next_page : M bool :=
  wait_for_element "table_container" None;;
  time_sleep 10000%N;;
  loc <- get_locator "switch_to_page";;
  bv <- unpack2 loc;;
  elements <- observe (find_elements bv.1 bv.2);;
  match elements with
  | [] => ret false
  | first :: _ => next_page_loop elements first
  end.

(** [AlertTable.get_list_of_rows]; one unit of fuel per page. *)
Fixpoint get_list_of_rows (fuel : nat) (rows : option (list Elem)) : M (list Elem) :=
  match fuel with
  | 0 => out_of_fuel
  | S fuel =>
      wait_for_element "table_container" None;;
      let rows := match rows with None => [] | Some rows => rows end in
      loc <- get_locator "rows";;
      bv <- unpack2 loc;;
      current_rows <- _find_elements bv.1 bv.2;;
      let rows := rows ++ current_rows in
      more <- next_page;;
      if more then get_list_of_rows fuel (Some rows) else ret rows
  end.

(** The generator object of [get_total_rows_elements]: not yet started,
    inside [yield from elements] with the rows still to come, or finished. *)
Inductive rows_generator :=
| GenStart
| GenYield (rest : list Elem)
| GenDone.

(** The body of [get_total_rows_elements] from its first line to its next
    [yield]; one unit of fuel per page. *)
Fixpoint rows_generator_body (fuel : nat) : M (option Elem * rows_generator) :=
  match fuel with
  | 0 => out_of_fuel
  | S fuel =>
      wait_for_element "table_container" None;;
      loc <- get_locator "rows";;
      bv <- unpack2 loc;;
      elements <- _find_elements bv.1 bv.2;;
      match elements with
      | row :: rest => ret (Some row, GenYield rest)
      | [] =>
          more <- next_page;;
          if more then rows_generator_body fuel else ret (None, GenDone)
      end
  end.

(** [next(generator)]: the next row and the generator after it, or [None]
    for [StopIteration]. *)
Definition rows_generator_next (fuel : nat) (g : rows_generator)
  : M (option Elem * rows_generator) :=
  match g with
  | GenStart => rows_generator_body fuel
  | GenYield (row :: rest) => ret (Some row, GenYield rest)
  | GenYield [] =>
      more <- next_page;;
      if more then rows_generator_body fuel else ret (None, GenDone)
  | GenDone => ret (None, GenDone)
  end.

(** [list(generator)], appended to [acc]: the generator collected to completion. *)
Fixpoint collect (fuel : nat) (g : rows_generator) (acc : list Elem) : M (list Elem) :=
  match fuel with
  | 0 => out_of_fuel
  | S fuel =>
      r <- rows_generator_next fuel g;;
      match r.1 with
      | None => ret acc
      | Some row => collect fuel r.2 (acc ++ [row])
      end
  end.

(** [AlertTable.get_total_rows_elements()] collected to completion *)
Definition get_total_rows_elements (fuel : nat) : M (list Elem) :=
  collect fuel GenStart [].

(** [AlertTable._column_value] *)
Definition _column_value (self : AlertTable) (row : Elem) (column : string) : M string :=
  log INFO "Getting column value for row={} and column={}" [AElem row; AStr column];;
  wait_for_element "table_container" None;;
  let column := replace_char " " "_" (lower column) in
  if String.eqb column "status" then
    cell <- _find_element row "status_column";;
    t <- observe (text cell);;
    ret (strip t)
  else
    update_locaters [("temp_col", (None, value self +:+ COLS_format column))];;
    cell <- _find_element row "temp_col";;
    get_element_text cell.

(** The [for row in elements: ... else: raise] of [get_row]. *)
Fixpoint get_row_loop (fuel : nat) (self : AlertTable) (elements : rows_generator)
    (value_ column : string) (is_search : bool) : M Elem :=
  match fuel with
  | 0 => out_of_fuel
  | S fuel =>
      r <- rows_generator_next fuel elements;;
      match r.1 with
      | None => raise (ValueError (Fmt "{} row not found in table" [AStr value_]))
      | Some row =>
          if is_search then
            log INFO "For Search" [];;
            column_text <- _column_value self row column;;
            if str_contains value_ column_text then ret row
            else get_row_loop fuel self r.2 value_ column is_search
          else
            column_text <- _column_value self row column;;
            if String.eqb column_text value_ then ret row
            else get_row_loop fuel self r.2 value_ column is_search
      end
  end.

(** [AlertTable.get_row(value, column, is_search)] *)
Definition get_row (fuel : nat) (self : AlertTable) (value_ column : string)
    (is_search : bool) : M Elem :=
  wait_for_element "table_container" None;;
  get_row_loop fuel self GenStart value_ column is_search.

(** The [for th in ...: ... else: raise] of [sort_table]. In the last branch
    [return True] is inside [if order == "desc"], so that any other order
    goes on with the next header. *)
Fixpoint sort_table_loop (ths : list Elem) (column order : string) : M bool :=
  match ths with
  | [] => raise (ValueError (Fmt "Failed to sort the {}" [AStr column]))
  | th :: rest =>
      t <- observe (text th);;
      log INFO "Th in sort: {}" [AStr (lower t)];;
      t1 <- observe (text th);;
      found <- (if negb (String.eqb t1 EmptyString)
                then t2 <- observe (text th);; ret (String.eqb (lower t2) (lower column))
                else ret false);;
      if found then
        log INFO "Sorting" [];;
        current_sort_order <- observe (get_attribute th "data-test-sort-dir");;
        let is_ v := bool_decide (current_sort_order = Some v) in
        if (String.eqb order "asc" && is_ "asc") || (String.eqb order "desc" && is_ "desc")
        then
          log INFO "Already sorted." [];;
          ret true
        else if (String.eqb order "asc" && is_ "desc") || (String.eqb order "desc" && is_ "asc")
        then
          perform (EvClick th) (click th);;
          time_sleep 100%N;;
          ret true
        else
          time_sleep 2000%N;;
          perform (EvClick th) (click th);;
          time_sleep 2000%N;;
          if String.eqb order "desc" then
            perform (EvClick th) (click th);;
            ret true
          else sort_table_loop rest column order
      else sort_table_loop rest column order
  end.

(** [AlertTable.sort_table(column, order)] *)
Definition sort_table (column order : string) : M bool :=
  log INFO "Sorting table with column: {} and order: {}" [AStr column; AStr order];;
  wait_for_element "table_head" None;;
  loc <- get_locator "table_headers";;
  bv <- unpack2 loc;;
  ths <- _find_elements bv.1 bv.2;;
  sort_table_loop ths column order.

(** [AlertTable.delete_row(input_name, action)] *)
Definition delete_row (fuel : nat) (self : AlertTable) (input_name : string)
    (action : option string) : M bool :=
  try_except
    (wait_for_element "table_container" None;;
     log INFO "Deleting input: {}" [AStr input_name];;
     del_row <- get_row fuel self input_name "name" false;;
     loc <- get_locator "delete_btn";;
     bv <- unpack2 loc;;
     del_btn <- observe (find_element del_row bv.1 bv.2);;
     perform (EvClick del_btn) (click del_btn);;
     wait_for_element "popup" None;;
     (if bool_decide (action = Some "delete") then call_member "delete_btn"
      else if bool_decide (action = Some "close") then call_member "close"
      else if bool_decide (action = Some "cancel") then call_member "cancel"
      else
        log WARNING "Opening and closing the pop to read the conformation message." [];;
        time_sleep 2000%N;;
        call_member "cancel");;
     wait_for_element_invisible "popup" None;;
     ret true)
    (fun e =>
       log ERROR ("Unable to perform action:{} error: {}" +:+ nl +:+ "Traceback: {}")
           [AOptStr action; AExn (exn_name e); ATraceback];;
       ret false).

End AlertTable.

(* ===================================================================== *)
(** ** A paginated fixture: the browser interface on plain data *)
(* ===================================================================== *)

(** What a click on an element of the fixture does. *)
Inductive click_effect :=
| ClickNothing
| ClickNextPage                      (* the table shows its next page, if any *)
| ClickReveal (selector : string)    (* what the selector names becomes visible *)
| ClickFails.                        (* the click is intercepted *)

(** An element of the fixture, with what the code can read from it and the
    elements [find_element] reaches from it, by selector. *)
#[warnings="-register-all"]
Inductive felem := FElem {
  fe_id : nat;
  fe_text : string;
  fe_inner : option string;
  fe_sort_dir : option string;
  fe_displayed : bool;
  fe_enabled : bool;
  fe_click : click_effect;
  fe_children : list (string * felem);
  fe_node : node
}.

(** One rendering of the page: the selectors whose target is visible, and the
    elements each selector matches. *)
Record fpage := FPage {
  fp_visible : list string;
  fp_elems : list (string * list felem)
}.

(** The page shown now, then the pages that [ClickNextPage] brings. *)
Definition fworld := list fpage.

Fixpoint assoc {A} (k : string) (l : list (string * A)) : option A :=
  match l with
  | [] => None
  | (k', v) :: r => if String.eqb k' k then Some v else assoc k r
  end.

Definition fmatches (sel : string) (w : fworld) : list felem :=
  match w with
  | [] => []
  | p :: _ => default [] (assoc sel (fp_elems p))
  end.

Definition fvisible (sel : string) (w : fworld) : bool :=
  match w with
  | [] => false
  | p :: _ => bool_decide (sel ∈ fp_visible p)
  end.

Definition fclick (e : felem) (w : fworld) : res felem unit * fworld :=
  match fe_click e with
  | ClickNothing => (Ok tt, w)
  | ClickNextPage =>
      (Ok tt, match w with
              | _ :: (_ :: _) as later => later
              | _ => w
              end)
  | ClickReveal sel =>
      (Ok tt, match w with
              | p :: later => FPage (sel :: fp_visible p) (fp_elems p) :: later
              | [] => []
              end)
  | ClickFails => (Err (WebDriverException "ElementClickInterceptedException"), w)
  end.

Definition fset_node (e : felem) (n : node) (x : felem) : felem :=
  if Nat.eqb (fe_id x) (fe_id e)
  then FElem (fe_id x) (fe_text x) (fe_inner x) (fe_sort_dir x) (fe_displayed x)
             (fe_enabled x) (fe_click x) (fe_children x) n
  else x.

Definition fset_subtree (e : felem) (n : node) (w : fworld) : fworld :=
  match w with
  | [] => []
  | p :: later =>
      FPage (fp_visible p)
            (map (fun kv => (kv.1, map (fset_node e n) kv.2)) (fp_elems p)) :: later
  end.

#[global] Instance fixture_driver : Driver fworld felem := {
  find_elements _ sel w := Ok (fmatches sel w);
  find_element e _ sel _ :=
    match assoc sel (fe_children e) with
    | Some c => Ok c
    | None => Err (WebDriverException "NoSuchElementException")
    end;
  text e _ := Ok (fe_text e);
  get_attribute e attr _ :=
    Ok (if String.eqb attr "innerText" then fe_inner e
        else if String.eqb attr "data-test-sort-dir" then fe_sort_dir e
        else None);
  is_displayed e _ := Ok (fe_displayed e);
  is_enabled e _ := Ok (fe_enabled e);
  subtree e _ := Ok (fe_node e);
  set_subtree := fset_subtree;
  click := fclick;
  clear _ w := (Ok tt, w);
  send_keys _ _ w := (Ok tt, w);
  until_present _ sel _ msg w :=
    (match fmatches sel w with
     | e :: _ => Ok e
     | [] => Err (TimeoutException msg)
     end, w);
  until_visible _ sel _ msg w :=
    (match fmatches sel w with
     | e :: _ => if fvisible sel w then Ok e else Err (TimeoutException msg)
     | [] => Err (TimeoutException msg)
     end, w);
  until_invisible _ sel _ msg w :=
    (if fvisible sel w then Err (TimeoutException msg) else Ok tt, w);
  sleep _ w := w
}.

(** A plain element: displayed, enabled, inert. *)
Definition plain (id : nat) (txt : string) : felem :=
  FElem id txt (Some txt) None true true ClickNothing [] (TextNode txt).

(** A row of the table [root]: its cell in [column] and its status cell both
    hold [inner], and it has a delete control that opens the confirmation
    popup. *)
Definition frow (root column : string) (id : nat) (inner : string) : felem :=
  FElem id inner (Some inner) None true true ClickNothing
        [ (root +:+ COLS_format column, plain (id + 1) inner);
          ("a.delete",
           FElem (id + 2) "Delete" (Some "Delete") None true true
                 (ClickReveal "div.deletePrompt") [] (TextNode "Delete"));
          (STATUS_SELECTOR, plain (id + 3) inner) ]
        (TextNode inner).

(** The pagination controls of one page: a page number, and [Next], which is
    enabled when another page follows. *)
Definition fpager (has_next : bool) : list felem :=
  [ plain 1 "1";
    FElem 2 "Next" (Some "Next") None true has_next
          (if has_next then ClickNextPage else ClickNothing) [] (TextNode "Next") ].

(** The selector of the table container, [root + ' [data-test="table"]']. *)
Definition container_selector (root : string) : string :=
  root +:+ " [data-test=" +:+ dq +:+ "table" +:+ dq +:+ "]".

(** One page of the table [root], showing [rows] (the inner text of the cell
    of each, in column [column]); the rows get the ids [10 * (i + 1)] from
    [base] on. *)
Fixpoint frows (root column : string) (base : nat) (rows : list string) : list felem :=
  match rows with
  | [] => []
  | r :: rest => frow root column (10 * S base) r :: frows root column (S base) rest
  end.

Definition ftable_page (root column : string) (base : nat) (rows : list string)
    (has_next : bool) : fpage :=
  FPage [container_selector root]
        [ (container_selector root, [plain 0 EmptyString]);
          (root +:+ ROWS, frows root column base rows);
          (root +:+ SWITCH_PAGE, fpager has_next);
          ("div.deletePrompt", [plain 3 "Are you sure?"]) ].

(** The pages of a table, first page first; only the last has no [Next] to
    click. A table without rows still shows one (empty) page. *)
Fixpoint ftable (root column : string) (base : nat) (pages : list (list string)) : fworld :=
  match pages with
  | [] => [ftable_page root column base [] false]
  | rows :: later =>
      match later with
      | [] => [ftable_page root column base rows false]
      | _ :: _ =>
          ftable_page root column base rows true
            :: ftable root column (base + length rows) later
      end
  end.

(** The table object on [container = {"table": [None, root]}] and its first
    state, as [AlertTable(driver, container)] leaves them. *)
Definition ftable_self (root : string) : AlertTable := {| name := "table"; value := root |}.

Definition ftable_locators (root : string) : gmap string (list string) :=
  dict_update (dict_update (Locator_init [("table", (None, root))])
                           (comprehension base_locators))
              (comprehension (new_locator root)).

Definition fstate (root : string) (w : fworld) : state fworld felem :=
  State w (ftable_locators root) [].

(** The selector of the table head, [' [data-test="head"]']. *)
Definition head_selector : string := " [data-test=" +:+ dq +:+ "head" +:+ dq +:+ "]".

(** A header cell with its text and its [data-test-sort-dir]. *)
Definition fheader (id : nat) (txt : string) (dir : option string) : felem :=
  FElem id txt (Some txt) dir true true ClickNothing [] (TextNode txt).

(** A page that shows the head of the table [root] with the header cells [ths]. *)
Definition fhead_page (root : string) (ths : list felem) : fpage :=
  FPage [head_selector]
        [ (head_selector, [plain 0 EmptyString]); (root +:+ " th", ths) ].

(** A page that shows the table [root] with the pagination controls [pager]. *)
Definition fpager_page (root : string) (pager : list felem) : fpage :=
  FPage [container_selector root]
        [ (container_selector root, [plain 0 EmptyString]);
          (root +:+ SWITCH_PAGE, pager) ].

(** A page with one element under the selector [sel], whose subtree is [n]. *)
Definition flabel_page (sel : string) (n : node) : fpage :=
  FPage [sel] [ (sel, [FElem 7 EmptyString None None true true ClickNothing [] n]) ].

(** The locators of the login page, [{"splunk_username": [By.ID, "username"],
    "splunk_password": [By.ID, "password"], ...}], and a page with both fields. *)
Definition login_locators : locator_dict :=
  [ ("splunk_username", (Some "id", "username"));
    ("splunk_password", (Some "id", "password"));
    ("home", (Some CSS_SELECTOR, "a[data-action=" +:+ dq +:+ "home" +:+ dq +:+ "]")) ].

Definition flogin_page : fpage :=
  FPage ["username"; "password"]
        [ ("username", [plain 5 EmptyString]); ("password", [plain 6 EmptyString]) ].

Definition flogin_state : state fworld felem :=
  State [flogin_page] (Locator_init login_locators) [].

(** A label whose visible text is followed by a screen-reader span, and a
    label that holds nothing but such a span. *)
Definition screen_reader_span (txt : string) : node :=
  ElemNode "span" [("data-test", "screen-reader-content")] [TextNode txt].


Definition label_without_text : node :=
  ElemNode "label" [] [TextNode " "; screen_reader_span "required"].

Definition flabel_state (n : node) : state fworld felem :=
  State [flabel_page " .control-label" n] (ftable_locators "div.t") [].

(* ===================================================================== *)
(** ** Vocabulary of the statements *)
(* ===================================================================== *)

(** [column.lower().replace(" ", "_")], the first step of [_column_value]. *)
Definition normalize_column (column : string) : string :=
  replace_char " " "_" (lower column).

(** The selector with which [_column_value] looks the cell up in the row:
    that of the locator [status_column] for the column [status], that of the
    locator [temp_col] it has just written for any other. *)
Definition column_selector (root column : string) : string :=
  let column := replace_char " " "_" (lower column) in
  if String.eqb column "status" then STATUS_SELECTOR
  else root +:+ COLS_format column.

(** The text [_column_value] reads in the column [col] (a normalized name)
    from a cell whose [text] and [innerText] are [inner]: the stripped text in
    the status column, the [innerText] with its white space normalized in any
    other. *)
Definition column_text (col inner : string) : string :=
  if String.eqb col "status" then strip inner else strip (collapse_ws false inner).

(** The test of [get_row] on the text of a row's column. *)
Definition row_matches (is_search : bool) (value_ column_text : string) : Prop :=
  if is_search then exists before after, column_text = before +:+ value_ +:+ after
  else column_text = value_.

Section Vocabulary.
Context {World Elem : Type}.

(** The state after more events. *)
Definition with_events (s : state World Elem) (evs : list (event Elem)) : state World Elem :=
  State (world s) (locators s) (trace s ++ evs).

(** The elements clicked, in order. *)
Definition clicks (tr : list (event Elem)) : list Elem :=
  omap (fun ev => match ev with EvClick e => Some e | _ => None end) tr.

(** The call never hands a value back: it raises, or runs out of fuel. *)
Definition never_returns {A} (m : M World Elem A) : Prop :=
  forall s a s', m s <> Ret a s'.

(** The log line of the handler of [delete_row]. *)
Definition ev_unable (action : option string) (cause : string) : event Elem :=
  EvLog ERROR (Fmt ("Unable to perform action:{} error: {}" +:+ nl +:+ "Traceback: {}")
                   [AOptStr action; AExn cause; ATraceback]).

(** The log line of [get_locator]. *)
Definition ev_getting (name by_ value : string) : event Elem :=
  EvLog INFO (Fmt "Getting locator={} with by={}, value={}" [AStr name; AStr by_; AStr value]).

(** The log line of [wait_for_element]. *)
Definition ev_waiting (locator : string) : event Elem :=
  EvLog INFO (Fmt "Waiting for element: {}" [AStr locator]).

(** The message [wait_for_element] gives its wait. *)
Definition msg_not_visible (locator by_ value : string) : message Elem :=
  Fmt "Element with locator={}, by={} and value={} is not visible"
      [AStr locator; AStr by_; AStr value].

(** The message [get_element] gives its wait. *)
Definition msg_not_found (by_ value : string) : message Elem :=
  Fmt "Element with by={} and value={} not found." [AStr by_; AStr value].

End Vocabulary.

Section PageVocabulary.
Context `{Driver World Elem}.

(** What [get_element_text] reads from an element on the page [w]. *)
Definition label_of (e : Elem) (w : World) : res Elem string :=
  match get_attribute e "innerText" w with
  | Ok (Some inner) => Ok (strip (collapse_ws false inner))
  | Ok None => Err TypeError
  | Err x => Err x
  end.

(** The control is labelled [next], whatever the case of the letters. *)
Definition is_next (w : World) (e : Elem) : Prop :=
  exists label, label_of e w = Ok label /\ lower label = "next".

(** The control has a label, and it is not [next]. *)
Definition not_next (w : World) (e : Elem) : Prop :=
  exists label, label_of e w = Ok label /\ lower label <> "next".

(** Displayed and enabled, what [_is_element_clickable] asks for. *)
Definition clickable (w : World) (e : Elem) : Prop :=
  is_displayed e w = Ok true /\ is_enabled e w = Ok true.

(** The header cell has a text, and it is the column asked for. *)
Definition header_matches (w : World) (column : string) (th : Elem) : Prop :=
  exists t, text th w = Ok t /\ t <> EmptyString /\ lower t = lower column.

(** The header cell has no text, or the text of another column. *)
Definition header_differs (w : World) (column : string) (th : Elem) : Prop :=
  exists t, text th w = Ok t /\ (t = EmptyString \/ lower t <> lower column).

(** The first lines of [get_list_of_rows] and of [get_total_rows_elements]:
    wait for the table, then list the rows of the page shown. *)
Definition fetch_rows : M World Elem (list Elem) :=
  wait_for_element "table_container" None;;
  loc <- get_locator "rows";;
  bv <- unpack2 loc;;
  _find_elements bv.1 bv.2.

(** The walk both enumerations make: list the rows of the page, look for the
    next page, and go on there if there is one. [traverse s rows s'] says that
    the walk from [s] ends in [s'] and has met [rows]. *)
Inductive traverse : state World Elem -> list Elem -> state World Elem -> Prop :=
| traverse_last s cur s1 s2 :
    fetch_rows s = Ret cur s1 -> next_page s1 = Ret false s2 ->
    traverse s cur s2
| traverse_more s cur s1 s2 tail s3 :
    fetch_rows s = Ret cur s1 -> next_page s1 = Ret true s2 ->
    traverse s2 tail s3 ->
    traverse s (cur ++ tail) s3.


End PageVocabulary.

(** Another page follows the first of [pages]. *)
Definition has_more (pages : list (list string)) : bool :=
  match pages with
  | _ :: _ :: _ => true
  | _ => false
  end.

(** The entries of the registry the walk over the table relies on. *)
Definition table_registry (root : string) (locs : gmap string (list string)) : Prop :=
  locs !! "table_container" = Some [CSS_SELECTOR; container_selector root] /\
  locs !! "rows" = Some [CSS_SELECTOR; root +:+ ROWS] /\
  locs !! "switch_to_page" = Some [CSS_SELECTOR; root +:+ SWITCH_PAGE] /\
  locs !! "status_column" = Some [CSS_SELECTOR; STATUS_SELECTOR].

(** The fixture shows the first of [pages], whose rows are numbered from
    [base] on, and the registry is that of the table. *)
Definition at_page (root col : string) (base : nat) (pages : list (list string))
    (s : state fworld felem) : Prop :=
  world s = ftable root col base pages /\ table_registry root (locators s).

(** The generator [g], run from [s], has the rows [items] still to yield,
    numbered from [b] on, and at most [k] pages to turn: it has not started
    on a table whose pages hold [items], or it is inside a page that has
    [rem] left, with the pages [later] behind it. *)
Definition stream_inv (root col : string) (k : nat) (g : rows_generator)
    (s : state fworld felem) (b : nat) (items : list string) : Prop :=
  table_registry root (locators s) /\
  ((exists pages,
      g = GenStart /\ world s = ftable root col b pages /\
      items = concat pages /\ length pages <= k) \/
   (exists rem later base cur,
      g = GenYield (frows root col b rem) /\
      world s = ftable root col base (cur :: later) /\
      base + length cur = b + length rem /\
      items = rem ++ concat later /\ length later <= k)).

(* ===================================================================== *)
(** ** The other methods of the classes *)
(* ===================================================================== *)

(** [s.replace(a, "")] for a one-character [a]: every [a] leaves the string. *)
Fixpoint remove_char (a : ascii) (s : string) : string :=
  match s with
  | EmptyString => EmptyString
  | String c r => if Ascii.eqb c a then remove_char a r else String c (remove_char a r)
  end.

(** The double quote as one character. *)
Definition dq_char : ascii := ascii_of_nat 34.

(** [AlertComponentAction.get_updated_message]; it reads nothing of [self]. *)
Definition get_updated_message (text_ : string) : string :=
  lower (remove_char dq_char (remove_char " " (strip text_))).

(** Two more expected conditions of Selenium, beside those of [Driver]:
    [WebDriverWait(driver, seconds).until(EC.element_to_be_clickable((by, value)), msg)]
    and [WebDriverWait(driver, seconds).until(EC.staleness_of(element))], which
    is given no message. [until] hands back what the condition returned once
    that is true in Python's sense, so the first gives an element. *)
Class WaitDriver (World Elem : Type) := {
  until_clickable : string -> string -> nat -> message Elem -> World -> res Elem Elem * World;
  until_stale : Elem -> nat -> World -> res Elem unit * World
}.

Section MoreOfLocator.
Context `{Driver World Elem}.
Local Abbreviation M := (M World Elem).

(** [Locator.get_all_locators]: the dict itself, not a copy. *)
Definition get_all_locators : M (gmap string (list string)) :=
  log INFO "Retrieved all locators." [];;
  fun s => Ret (locators s) s.

End MoreOfLocator.

Section MoreOfAlertComponentAction.
Context `{Driver World Elem} `{WaitDriver World Elem}.
Local Abbreviation M := (M World Elem).

(** One of the two waits of [WaitDriver]; the trace has no event for them. *)
Definition await {A} (f : World -> res Elem A * World) : M A :=
  fun s =>
    let '(r, w) := f (world s) in
    let s' := State w (locators s) (trace s) in
    match r with
    | Ok a => Ret a s'
    | Err e => Exc e s'
    end.

(** [AlertComponentAction.wait_for_element_clickable] *)
Definition wait_for_element_clickable (locator : string) : M Elem :=
  loc <- get_locator locator;;
  bv <- unpack2 loc;;
  let '(by_, value) := bv in
  let msg := Fmt "Element with locator '{}', by={} and value={} is not clickable."
                 [AStr locator; AStr by_; AStr value] in
  log INFO "Waiting for element to be clickable: locator={}, by={} and value={}"
      [AStr locator; AStr by_; AStr value];;
  await (until_clickable by_ value DEFAULT_WAIT msg).

(** [AlertComponentAction.click_element]. A [WebElement] is true in Python's
    sense, so the [else] of [if element:] is never taken; the handler logs and
    raises again what it caught. *)
Definition click_element (locator : string) : M unit :=
  try_except
    (element <- wait_for_element_clickable locator;;
     perform (EvClick element) (click element))
    (fun e =>
       log ERROR
         ("Error clicking element with locator '{}', error: {}" +:+ nl +:+ "Traceback: {}")
         [AStr locator; AExn (exn_name e); ATraceback];;
       raise e).

End MoreOfAlertComponentAction.

Section AlertBaseComponent.
Context `{Driver World Elem}.
Local Abbreviation M := (M World Elem).

(** [for e in elements: values.append(e.text)] *)
Fixpoint texts_of (elements : list Elem) (values : list string) : M (list string) :=
  match elements with
  | [] => ret values
  | e :: rest =>
      t <- observe (text e);;
      texts_of rest (values ++ [t])
  end.

(** [AlertBaseComponent.get_alert_help_text_list]; the list in the last log
    line is given item by item. *)
Definition get_alert_help_text_list : M (list string) :=
  log INFO "Getting help text." [];;
  loc <- get_locator "help";;
  bv <- unpack2 loc;;
  elements <- _find_elements bv.1 bv.2;;
  values <- texts_of elements [];;
  log INFO "Help texts: {}" (map AStr values);;
  ret values.

(** [AlertBaseComponent.get_alert_labels_list] *)
Definition get_alert_labels_list : M (list string) :=
  log INFO "Getting label text." [];;
  wait_for_element "label_component" None;;
  loc <- get_locator "label_component";;
  bv <- unpack2 loc;;
  elements <- _find_elements bv.1 bv.2;;
  values <- texts_of elements [];;
  log INFO "Labels: {}" (map AStr values);;
  ret values.

End AlertBaseComponent.

(** [dict(pairs)]: a key given twice keeps its last value. *)
Definition dict_of_pairs (pairs : list (string * string)) : gmap string string :=
  foldl (fun m kv => <[kv.1 := kv.2]> m) ∅ pairs.

Section MoreOfAlertTable.
Context `{Driver World Elem} `{WaitDriver World Elem}.
Local Abbreviation M := (M World Elem).

(** [AlertTable.get_rows_count] *)
Definition get_rows_count (fuel : nat) : M nat :=
  rows <- get_list_of_rows fuel None;;
  ret (length rows).

(** [[element.text.strip() for element in elements]] *)
Fixpoint stripped_texts_of (elements : list Elem) : M (list string) :=
  match elements with
  | [] => ret []
  | e :: rest =>
      t <- observe (text e);;
      ts <- stripped_texts_of rest;;
      ret (strip t :: ts)
  end.

(** [AlertTable.get_expanded_row_value]; [zip] stops at the shorter list. *)
Definition get_expanded_row_value (fuel : nat) (self : AlertTable) (input_name : string)
  : M (gmap string string) :=
  log INFO "Expanding row: {}" [AStr input_name];;
  expand_row <- get_row fuel self input_name "name" false;;
  loc <- get_locator "expand";;
  bv <- unpack2 loc;;
  expand_btn <- observe (find_element expand_row bv.1 bv.2);;
  perform (EvClick expand_btn) (click expand_btn);;
  wait_for_element "expanded_row" None;;
  loc <- get_locator "expanded_row_term";;
  bv <- unpack2 loc;;
  elements <- _find_elements bv.1 bv.2;;
  terms <- stripped_texts_of elements;;
  loc <- get_locator "expanded_row_desc";;
  bv <- unpack2 loc;;
  elements <- _find_elements bv.1 bv.2;;
  description <- stripped_texts_of elements;;
  ret (dict_of_pairs (zip terms description)).

(** [AlertTable.edit_row] *)
Definition edit_row (fuel : nat) (self : AlertTable) (input_name : string) : M unit :=
  wait_for_element "table_container" None;;
  log INFO "Editing input: {}" [AStr input_name];;
  edit_row <- get_row fuel self input_name "name" false;;
  loc <- get_locator "edit_btn";;
  bv <- unpack2 loc;;
  edit_btn <- observe (find_element edit_row bv.1 bv.2);;
  perform (EvClick edit_btn) (click edit_btn);;
  wait_for_element "open_modal" None;;
  ret tt.

(** [AlertTable.clone_row] *)
Definition clone_row (fuel : nat) (self : AlertTable) (input_name : string) : M unit :=
  wait_for_element "table_container" None;;
  log INFO "Cloning input: {}" [AStr input_name];;
  clone_row <- get_row fuel self input_name "name" false;;
  loc <- get_locator "clone_btn";;
  bv <- unpack2 loc;;
  clone_btn <- observe (find_element clone_row bv.1 bv.2);;
  perform (EvClick clone_btn) (click clone_btn);;
  wait_for_element "open_modal" None;;
  ret tt.

(** The [for row in self.get_total_rows_elements(): cols.append(...)] of
    [get_column_list]. *)
Fixpoint get_column_list_loop (fuel : nat) (self : AlertTable) (elements : rows_generator)
    (column : string) (cols : list string) : M (list string) :=
  match fuel with
  | 0 => out_of_fuel
  | S fuel =>
      r <- rows_generator_next fuel elements;;
      match r.1 with
      | None => ret cols
      | Some row =>
          v <- _column_value self row column;;
          get_column_list_loop fuel self r.2 column (cols ++ [v])
      end
  end.

(** [AlertTable.get_column_list] *)
Definition get_column_list (fuel : nat) (self : AlertTable) (column : string)
  : M (list string) :=
  get_column_list_loop fuel self GenStart column [].

(** [AlertTable.get_column_value] *)
Definition get_column_value (fuel : nat) (self : AlertTable) (row column : string)
  : M string :=
  r <- get_row fuel self row "name" false;;
  _column_value self r column.

(** [AlertTable._wait_to_be_stale]: [True], or [None] after a timeout; only
    [TimeoutException] is caught. *)
Definition _wait_to_be_stale (element : Elem) : M (option bool) :=
  fun s =>
    match await (until_stale element DEFAULT_WAIT) s with
    | Ret _ s' => Ret (Some true) s'
    | Exc (TimeoutException _) s' =>
        (log WARNING "Timeout exception." [];;
         ret None) s'
    | Exc e s' => Exc e s'
    | OutOfFuel => OutOfFuel
    end.

(** [AlertTable.search]; [rows[0]] of an empty list is an [IndexError]. *)
Definition search (fuel : nat) (search_ : string) : M (list Elem) :=
  wait_for_element "table_container" None;;
  log INFO "Searching with search string: {}" [AStr search_];;
  enter_text "search_box" search_;;
  loc <- get_locator "rows";;
  bv <- unpack2 loc;;
  elements <- _find_elements bv.1 bv.2;;
  first <- (match elements with
            | [] => raise IndexError
            | e :: _ => ret e
            end);;
  _wait_to_be_stale first;;
  rows <- get_list_of_rows fuel None;;
  ret rows.

(** [AlertTable.clear_search] *)
Definition clear_search : M unit :=
  wait_for_element "table_container" None;;
  enter_text "search_box" "test text";;
  wait_for_element_clickable "clear_filter";;
  click_element "clear_filter".

(** The [for page in elements: ... else: raise] of [prev_page] and of
    [switch_to], which differ in the label they look for: [prev], and
    [value.lower()]. [last] is the value of [page] when the loop ends. *)
Fixpoint page_loop (target : string) (elements : list Elem) (last : Elem) : M bool :=
  match elements with
  | [] => raise (ValueError (Fmt "page: {} is not found." [AElem last]))
  | page :: rest =>
      label <- get_element_text page;;
      if String.eqb (lower label) target then
        try_except
          (clickable <- _is_element_clickable page;;
           if clickable then
             perform (EvClick page) (click page);;
             ret true
           else ret false)
          (fun e =>
             log WARNING "Unexpected error occurred: {}" [AExn (exn_name e)];;
             ret false)
      else page_loop target rest page
  end.

(** [AlertTable.prev_page] *)
Definition prev_page : M bool :=
  wait_for_element "table_container" None;;
  loc <- get_locator "switch_to_page";;
  bv <- unpack2 loc;;
  elements <- _find_elements bv.1 bv.2;;
  match elements with
  | [] => ret false
  | first :: _ => page_loop "prev" elements first
  end.

(** [AlertTable.switch_to] *)
Definition switch_to (value_ : string) : M bool :=
  wait_for_element "table_container" None;;
  time_sleep 5000%N;;
  loc <- get_locator "switch_to_page";;
  bv <- unpack2 loc;;
  elements <- _find_elements bv.1 bv.2;;
  match elements with
  | [] => ret false
  | first :: _ => page_loop (lower value_) elements first
  end.

(** [AlertTable.get_input_count] *)
Definition get_input_count : M string :=
  loc <- get_locator "input_number";;
  bv <- unpack2 loc;;
  ele <- get_element bv.1 bv.2;;
  count <- get_element_text ele;;
  log INFO "Total Configure count: {}" [AStr count];;
  ret count.

(** The [for th in ...] of [get_headers]; [th.text] is read three times. *)
Fixpoint get_headers_loop (ths : list Elem) (headers : list string) : M (list string) :=
  match ths with
  | [] => ret headers
  | th :: rest =>
      t <- observe (text th);;
      log INFO "get headers: {}" [AStr t];;
      t1 <- observe (text th);;
      if negb (String.eqb t1 EmptyString) then
        t2 <- observe (text th);;
        get_headers_loop rest (headers ++ [strip t2])
      else get_headers_loop rest headers
  end.

(** [AlertTable.get_headers]; the list in the last log line is given item by
    item. *)
Definition get_headers : M (list string) :=
  wait_for_element "table_head" None;;
  loc <- get_locator "table_headers";;
  bv <- unpack2 loc;;
  ths <- _find_elements bv.1 bv.2;;
  headers <- get_headers_loop ths [];;
  log INFO "Available headers: {}" (map AStr headers);;
  ret headers.

(** [AlertTable.update_status(input_name, enable)] *)
Definition update_status (fuel : nat) (self : AlertTable) (input_name : string)
    (enable : bool) : M unit :=
  status_row <- get_row fuel self input_name "name" false;;
  cell <- _find_element status_row "status_column";;
  t <- observe (text cell);;
  let status_label := lower (strip t) in
  log INFO "Status label: {}" [AStr status_label];;
  if (negb (String.eqb status_label "enabled") && enable)
     || (String.eqb status_label "enabled" && negb enable)
  then
    status_button <- _find_element status_row "status_button";;
    perform (EvClick status_button) (click status_button);;
    ret tt
  else ret tt.

End MoreOfAlertTable.

(* ===================================================================== *)
(** ** The fixture, for the other methods *)
(* ===================================================================== *)

(** On the fixture an element is clickable when its selector is visible and
    it is enabled; no element is ever rendered again, so a wait for staleness
    ends in [TimeoutException]. *)
#[global] Instance fixture_wait_driver : WaitDriver fworld felem := {
  until_clickable _ sel _ msg w :=
    (match fmatches sel w with
     | e :: _ =>
         if fvisible sel w && fe_enabled e then Ok e else Err (TimeoutException msg)
     | [] => Err (TimeoutException msg)
     end, w);
  until_stale _ _ w := (Err (TimeoutException (Fmt EmptyString [])), w)
}.

(** The selectors of the status switch, the search box and the clear button,
    as [new_locator] has them. *)
Definition STATUS_BUTTON_SELECTOR : string :=
  " [data-test=" +:+ dq +:+ "button" +:+ dq +:+ "][role=" +:+ dq +:+ "switch" +:+ dq +:+ "]".

Definition SEARCH_BOX_SELECTOR : string :=
  " [data-name=" +:+ dq +:+ "nameFilter" +:+ dq +:+ "] input.search-query".

Definition CLEAR_SELECTOR : string := " [data-test=" +:+ dq +:+ "clear" +:+ dq +:+ "]".

(** A control with its text and what a click on it does. *)
Definition fcontrol (id : nat) (txt : string) (effect : click_effect) : felem :=
  FElem id txt (Some txt) None true true effect [] (TextNode txt).

(** A row of the table [root] with its controls: the cell of the column
    [name], the status cell, the status switch, and the edit and clone
    controls, which open a modal. *)
Definition fcontrol_row (root : string) (id : nat) (name_ status : string) : felem :=
  FElem id name_ (Some name_) None true true ClickNothing
        [ (root +:+ COLS_format "name", plain (id + 1) name_);
          (STATUS_SELECTOR, plain (id + 2) status);
          (STATUS_BUTTON_SELECTOR, fcontrol (id + 3) EmptyString ClickNothing);
          (".edit-alert", fcontrol (id + 4) "Edit" (ClickReveal "div.modal"));
          ("a.clone", fcontrol (id + 5) "Clone" (ClickReveal "div.modal")) ]
        (TextNode name_).

(** A page that shows the table [root] with the rows [rows], its search box,
    its clear button and a pager without a next page. *)
Definition fcontrol_page (root : string) (rows : list felem) : fpage :=
  FPage [container_selector root; CLEAR_SELECTOR]
        [ (container_selector root, [plain 0 EmptyString]);
          (SEARCH_BOX_SELECTOR, [plain 4 EmptyString]);
          (CLEAR_SELECTOR, [fcontrol 5 "Clear" ClickNothing]);
          (root +:+ ROWS, rows);
          (root +:+ SWITCH_PAGE, fpager false) ].

(** A browser in which the table is visible and no list of elements can be
    had: [find_elements] raises for every selector. Its page is [tt], and so
    is its one element. *)
#[global] Instance unlisted_driver : Driver unit unit := {
  find_elements _ _ _ := Err (WebDriverException "InvalidSelectorException");
  find_element _ _ _ _ := Err (WebDriverException "NoSuchElementException");
  text _ _ := Ok EmptyString;
  get_attribute _ _ _ := Ok None;
  is_displayed _ _ := Ok true;
  is_enabled _ _ := Ok true;
  subtree _ _ := Ok (TextNode EmptyString);
  set_subtree _ _ w := w;
  click _ w := (Ok tt, w);
  clear _ w := (Ok tt, w);
  send_keys _ _ w := (Ok tt, w);
  until_present _ _ _ _ w := (Ok tt, w);
  until_visible _ _ _ _ w := (Ok tt, w);
  until_invisible _ _ _ _ w := (Ok tt, w);
  sleep _ w := w
}.

(** The state of a table [root] on that browser. *)
Definition unlisted_state (root : string) : state unit unit :=
  State tt (ftable_locators root) [].

(* ===================================================================== *)
(** ** More vocabulary of the statements *)
(* ===================================================================== *)

(** The value a dict written as a list keeps for the key [k]: that of its last
    entry with that key. *)
Fixpoint assoc_last {A} (k : string) (l : list (string * A)) : option A :=
  match l with
  | [] => None
  | (k', v) :: r =>
      match assoc_last k r with
      | Some x => Some x
      | None => if String.eqb k' k then Some v else None
      end
  end.

(** Every entry of the registry is a two-item list [[by, value]]. *)
Definition registry_ok (locs : gmap string (list string)) : Prop :=
  forall k l, locs !! k = Some l -> exists by_ v, l = [by_; v].

(** The names [AlertBaseComponent.__init__] and [AlertTable.__init__]
    register. *)
Definition table_names : list string :=
  map fst base_locators ++ map fst (new_locator EmptyString).

(** [a in s] for a one-character [a]. *)
Fixpoint has_char (a : ascii) (s : string) : bool :=
  match s with
  | EmptyString => false
  | String c r => Ascii.eqb c a || has_char a r
  end.

(** Every white-space character of the string is a space, and no space
    follows another; [prev] says that the previous character was a space. *)
Fixpoint collapsed (prev : bool) (s : string) : bool :=
  match s with
  | EmptyString => true
  | String c r =>
      if py_isspace c then Ascii.eqb c " " && negb prev && collapsed true r
      else collapsed false r
  end.

(** No white space at the head. *)
Definition head_ok (s : string) : Prop :=
  match s with
  | EmptyString => True
  | String c _ => py_isspace c = false
  end.

Section FacadeVocabulary.
Context {World Elem : Type}.

(** The message [wait_for_element_clickable] gives its wait. *)
Definition msg_not_clickable (locator by_ value_ : string) : message Elem :=
  Fmt "Element with locator '{}', by={} and value={} is not clickable."
      [AStr locator; AStr by_; AStr value_].

(** The log line of [wait_for_element_clickable]. *)
Definition ev_waiting_clickable (locator by_ value_ : string) : event Elem :=
  EvLog INFO (Fmt "Waiting for element to be clickable: locator={}, by={} and value={}"
                  [AStr locator; AStr by_; AStr value_]).

(** The log line of the handler of [click_element]. *)
Definition ev_click_error (locator cause : string) : event Elem :=
  EvLog ERROR (Fmt ("Error clicking element with locator '{}', error: {}"
                    +:+ nl +:+ "Traceback: {}")
                   [AStr locator; AExn cause; ATraceback]).

End FacadeVocabulary.

Section PagerVocabulary.
Context `{Driver World Elem}.

(** The control is labelled [target], whatever the case of its letters. *)
Definition labelled (w : World) (target : string) (e : Elem) : Prop :=
  exists label, label_of e w = Ok label /\ lower label = target.

(** The control has a label, and it is not [target]. *)
Definition not_labelled (w : World) (target : string) (e : Elem) : Prop :=
  exists label, label_of e w = Ok label /\ lower label <> target.

(** What [prev_page] and [switch_to] do with the controls they have listed. *)
Definition turn_to (target : string) (elements : list Elem) : M World Elem bool :=
  match elements with
  | [] => ret false
  | first :: _ => page_loop target elements first
  end.

(** The log line of [_find_elements] when the driver raises. *)
Definition ev_not_found (by_ value_ : string) : event Elem :=
  EvLog ERROR (Fmt "Elements with by={} and value={} not found." [AStr by_; AStr value_]).

End PagerVocabulary.

Section FrameVocabulary.
Context {World Elem : Type}.

(** From [s] to [s'] no entry of the registry has changed, but for [temp_col]. *)
Definition registry_frame (s s' : state World Elem) : Prop :=
  forall k, k <> "temp_col" -> locators s' !! k = locators s !! k.

(** However the call ends, it has written no entry but [temp_col]. *)
Definition keeps_registry {A} (m : M World Elem A) : Prop :=
  forall s,
    match m s with
    | Ret _ s' => registry_frame s s'
    | Exc _ s' => registry_frame s s'
    | OutOfFuel => True
    end.

(** From a state in which the registry has no entry [k], the call never
    hands a value back. *)
Definition needs_locator (k : string) {A} (m : M World Elem A) : Prop :=
  forall s, locators s !! k = None -> forall a s', m s <> Ret a s'.

End FrameVocabulary.

Section ReturnVocabulary.
Context {World Elem : Type}.

(** Whatever the call hands back satisfies [Q]. *)
Definition returns_only {A} (m : M World Elem A) (Q : A -> Prop) : Prop :=
  forall s a s', m s = Ret a s' -> Q a.

End ReturnVocabulary.

(* ===================================================================== *)
(** ** uiwrapper/alerts/components/checkbox.py, search_box.py, select.py:
       three components on the same façade *)
(* ===================================================================== *)

(** Each component is an [AlertBaseComponent] of its own, with a registry of
    its own: the state of its methods holds that registry. The object's one
    field, [self.name], is an argument of the methods below. *)

Section AlertCheckbox.
Context `{Driver World Elem} `{WaitDriver World Elem}.
Local Abbreviation M := (M World Elem).

(** [AlertCheckbox.__init__(driver, name, value, by)]: [self.name] and the
    first state. *)
Definition AlertCheckbox_init (driver : World) (name value_ : string) (by_ : option string)
  : outcome World Elem string :=
  (update_locaters base_locators;;
   log INFO "Adding Checkbox: {}" [AStr name];;
   update_locaters
     [ (name, (by_, value_));
       ("checkbox_btn", (None, value_ +:+ " .checkbox a.btn"));
       ("icon_checked", (None, value_ +:+ ".checkbox a.btn .icon-check")) ];;
   ret name)
    (State driver (Locator_init [(name, (by_, value_))]) []).

(** [AlertCheckbox.is_checked] *)
Definition is_checked (name : string) : M bool :=
  log INFO "Checking if checkbox is checked." [];;
  loc <- get_locator name;;
  bv <- unpack2 loc;;
  element <- get_element bv.1 bv.2;;
  a <- observe (get_attribute element "aria-checked");;
  ret (bool_decide (a = Some "true")).

(** [AlertCheckbox.check] *)
Definition check (name : string) : M bool :=
  try_except
    (wait_for_element "checkbox_btn" None;;
     checked <- is_checked name;;
     if negb checked then
       log INFO "Checkbox is not checked, clicking to check." [];;
       click_element "checkbox_btn";;
       ret true
     else
       log INFO "Checkbox is already checked." [];;
       ret false)
    (fun e =>
       log ERROR "Failed to check checkbox with error: {}" [AExn (exn_name e)];;
       raise e).

(** [AlertCheckbox.uncheck] *)
Definition uncheck (name : string) : M bool :=
  log INFO "Unchecking the checkbox." [];;
  try_except
    (checked <- is_checked name;;
     if checked then
       log INFO "Checkbox is checked, clicking to uncheck." [];;
       click_element "checkbox_btn";;
       ret true
     else
       log INFO "Checkbox is already unchecked." [];;
       ret false)
    (fun e =>
       log ERROR "Failed to uncheck checkbox with error: {}" [AExn (exn_name e)];;
       raise e).

End AlertCheckbox.

Section SearchQueryBox.
Context `{Driver World Elem}.
Local Abbreviation M := (M World Elem).

(** [SearchQueryBox.__init__(driver, name, value, by)] *)
Definition SearchQueryBox_init (driver : World) (name value_ : string) (by_ : option string)
  : outcome World Elem string :=
  (log INFO "Adding SearchQueryBox: {}" [AStr name];;
   update_locaters base_locators;;
   update_locaters
     [ ("text_container", (by_, value_ +:+ " .ace_editor"));
       (name, (by_, value_ +:+ " .ace_content")) ];;
   ret name)
    (State driver (Locator_init [(name, (by_, value_))]) []).

(** [self.get_element_text] called with the starred list [args]:
    [get_element_text] takes one argument beside [self], so any other number
    of them is a [TypeError] at the call; and one argument from the registry
    is a [str], which has no [get_attribute]. *)
Definition get_element_text_starred (args : list string) : M string :=
  match args with
  | [_] => raise (AttributeError "get_attribute")
  | _ => raise TypeError
  end.

(** [SearchQueryBox.get_value] *)
Definition SearchQueryBox_get_value (name : string) : M string :=
  wait_for_element name None;;
  loc <- get_locator name;;
  get_element_text_starred loc.

End SearchQueryBox.

(** [[label="Select..."]] *)
Definition SELECT_LABEL : string := "[label=" +:+ dq +:+ "Select..." +:+ dq +:+ "]".

Section AlertSelect.
Context `{Driver World Elem} `{WaitDriver World Elem}.
Local Abbreviation M := (M World Elem).

(** [AlertSelect.__init__(driver, name, value, by)] *)
Definition AlertSelect_init (driver : World) (name value_ : string) (by_ : option string)
  : outcome World Elem string :=
  (log INFO "Adding AlertSelect.... {}" [AStr name];;
   update_locaters base_locators;;
   update_locaters
     [ (name, (None, value_ +:+ " [data-test=" +:+ dq +:+ "select" +:+ dq +:+ "]"));
       ("menu", (None, "[data-test=" +:+ dq +:+ "menu" +:+ dq +:+ "]"));
       ("values", (None, "[data-test=" +:+ dq +:+ "option" +:+ dq +:+ "]")) ];;
   ret name)
    (State driver (Locator_init [(name, (by_, value_))]) []).

(** The [for option in ...: ... else: raise] of [AlertSelect.select];
    [option.text] is read twice. *)
Fixpoint select_loop (options : list Elem) (value_ : string) : M bool :=
  match options with
  | [] => raise (ValueError (Fmt "Given value={} is not found." [AStr value_]))
  | option :: rest =>
      t <- observe (text option);;
      log INFO "option text: {}" [AStr t];;
      t1 <- observe (text option);;
      if String.eqb (lower (strip t1)) (lower value_) then
        perform (EvClick option) (click option);;
        ret true
      else select_loop rest value_
  end.

(** [AlertSelect.select(value)]. The bare [except:] binds [value] again, to
    the selector it clicks; [value] is what the loop then looks for. The wait
    of the handler is given no message. *)
Definition AlertSelect_select (name value_ : string) : M bool :=
  log INFO "Selecting: {}" [AStr value_];;
  wait_for_element name None;;
  value_ <- try_except
              (click_element name;;
               ret value_)
              (fun _ =>
                 loc <- get_locator name;;
                 bv <- unpack2 loc;;
                 let value_ := bv.2 +:+ SELECT_LABEL in
                 element <- await (until_clickable bv.1 value_ DEFAULT_WAIT
                                                   (Fmt EmptyString []));;
                 perform (EvClick element) (click element);;
                 ret value_);;
  wait_for_element "menu" None;;
  loc <- get_locator "values";;
  bv <- unpack2 loc;;
  options <- _find_elements bv.1 bv.2;;
  select_loop options value_.

End AlertSelect.

(** A checkbox as a browser shows it: the page is whether the box is
    checked, every element is found, [aria-checked] says what the page is,
    and a click turns it over. *)
#[global] Instance checkbox_driver : Driver bool unit := {
  find_elements _ _ _ := Ok [tt];
  find_element _ _ _ _ := Ok tt;
  text _ _ := Ok EmptyString;
  get_attribute _ attr w :=
    Ok (if String.eqb attr "aria-checked" then Some (if w then "true" else "false")
        else None);
  is_displayed _ _ := Ok true;
  is_enabled _ _ := Ok true;
  subtree _ _ := Ok (TextNode EmptyString);
  set_subtree _ _ w := w;
  click _ w := (Ok tt, negb w);
  clear _ w := (Ok tt, w);
  send_keys _ _ w := (Ok tt, w);
  until_present _ _ _ _ w := (Ok tt, w);
  until_visible _ _ _ _ w := (Ok tt, w);
  until_invisible _ _ _ _ w := (Ok tt, w);
  sleep _ w := w
}.

#[global] Instance checkbox_wait_driver : WaitDriver bool unit := {
  until_clickable _ _ _ _ w := (Ok tt, w);
  until_stale _ _ w := (Ok tt, w)
}.

(** A select whose control is there but disabled, so that only the selector
    with [[label="Select..."]] can be clicked, and whose menu shows the
    options [options]. *)
Definition fselect_page (sel : string) (options : list felem) : fpage :=
  FPage [sel; sel +:+ SELECT_LABEL; "[data-test=" +:+ dq +:+ "menu" +:+ dq +:+ "]"]
        [ (sel, [FElem 1 EmptyString None None true false ClickNothing [] (TextNode EmptyString)]);
          (sel +:+ SELECT_LABEL, [fcontrol 2 "Select..." ClickNothing]);
          ("[data-test=" +:+ dq +:+ "menu" +:+ dq +:+ "]", [plain 3 EmptyString]);
          ("[data-test=" +:+ dq +:+ "option" +:+ dq +:+ "]", options) ].

(** A select whose control can be clicked and whose menu shows the options
    [options]. *)
Definition fselect_open_page (sel : string) (options : list felem) : fpage :=
  FPage [sel; "[data-test=" +:+ dq +:+ "menu" +:+ dq +:+ "]"]
        [ (sel, [fcontrol 1 "Select..." ClickNothing]);
          ("[data-test=" +:+ dq +:+ "menu" +:+ dq +:+ "]", [plain 3 EmptyString]);
          ("[data-test=" +:+ dq +:+ "option" +:+ dq +:+ "]", options) ].

(* ===================================================================== *)
(** ** uiwrapper/alerts/components/dropdown.py *)
(* ===================================================================== *)

Section AlertDropDown.
Context `{Driver World Elem} `{WaitDriver World Elem}.
Local Abbreviation M := (M World Elem).

(** [AlertDropDown.__init__(driver, name, value, by)]; the object keeps no
    field of its own. *)
Definition AlertDropDown_init (driver : World) (name value_ : string) (by_ : option string)
  : outcome World Elem unit :=
  (log INFO "Adding Dropdown: {}" [AStr name];;
   update_locaters base_locators;;
   update_locaters
     [ ("add_action", (None, value_ +:+ " .dropdown-toggle.btn"));
       ("action_name", (None, " .unselected-action span:first-of-type"));
       ("alert_menu", (None, ".dropdown-menu.open"));
       ("add_actions_container", (None, ".link-label")) ];;
   ret tt)
    (State driver (Locator_init [(name, (by_, value_))]) []).

(** [for action in actions: val.append(self.get_element_text(action))] *)
Fixpoint labels_of (actions : list Elem) (val : list string) : M (list string) :=
  match actions with
  | [] => ret val
  | action :: rest =>
      t <- get_element_text action;;
      labels_of rest (val ++ [t])
  end.

(** [AlertDropDown.get_dropdown_values] *)
Definition get_dropdown_values : M (list string) :=
  click_element "add_action";;
  wait_for_element "alert_menu" None;;
  loc <- get_locator "action_name";;
  bv <- unpack2 loc;;
  actions <- _find_elements bv.1 bv.2;;
  labels_of actions [].

(** The [for action in ...: ... else: raise] of [AlertDropDown.select] *)
Fixpoint dropdown_select_loop (actions : list Elem) (action_name : string) : M bool :=
  match actions with
  | [] => raise (ValueError (Fmt "Given Alert Action '{}' is not found." [AStr action_name]))
  | action :: rest =>
      t <- get_element_text action;;
      if String.eqb action_name t then
        perform (EvClick action) (click action);;
        ret true
      else dropdown_select_loop rest action_name
  end.

(** [AlertDropDown.select(action_name)] *)
Definition AlertDropDown_select (action_name : string) : M bool :=
  click_element "add_action";;
  wait_for_element "alert_menu" None;;
  loc <- get_locator "action_name";;
  bv <- unpack2 loc;;
  actions <- _find_elements bv.1 bv.2;;
  dropdown_select_loop actions action_name.

(** [AlertDropDown.get_add_actions_list] *)
Definition get_add_actions_list : M (list string) :=
  click_element "add_action";;
  loc <- get_locator "add_actions_container";;
  bv <- unpack2 loc;;
  actions <- _find_elements bv.1 bv.2;;
  labels_of actions [].

End AlertDropDown.

(** A dropdown [root] whose control can be clicked and whose open menu shows
    the actions [actions]. *)
Definition fdropdown_page (root : string) (actions : list felem) : fpage :=
  FPage [root +:+ " .dropdown-toggle.btn"; ".dropdown-menu.open"]
        [ (root +:+ " .dropdown-toggle.btn", [fcontrol 1 "Add Actions" ClickNothing]);
          (".dropdown-menu.open", [plain 2 EmptyString]);
          (" .unselected-action span:first-of-type", actions);
          (".link-label", actions) ].

(* ===================================================================== *)
(** ** A paginated table of any rows *)
(* ===================================================================== *)

(** One page of the table [root] that shows the row elements [rows],
    whatever they hold, and the pagination controls. *)
Definition fgrid_page (root : string) (rows : list felem) (has_next : bool) : fpage :=
  FPage [container_selector root]
        [ (container_selector root, [plain 0 EmptyString]);
          (root +:+ ROWS, rows);
          (root +:+ SWITCH_PAGE, fpager has_next) ].

(** The pages of such a table, first page first; only the last has no [Next]
    to click. A table without rows still shows one (empty) page. *)
Fixpoint fgrid (root : string) (pages : list (list felem)) : fworld :=
  match pages with
  | [] => [fgrid_page root [] false]
  | rows :: later =>
      match later with
      | [] => [fgrid_page root rows false]
      | _ :: _ => fgrid_page root rows true :: fgrid root later
      end
  end.

(** Another page follows the first of [pages]. *)
Definition more_pages (pages : list (list felem)) : bool :=
  match pages with
  | _ :: _ :: _ => true
  | _ => false
  end.

(** A row with a text of its own, a cell for each column of [cells] (the
    column and the [innerText] of its cell) and a status cell. *)
Definition fcells_row (root : string) (id : nat) (txt : string)
    (cells : list (string * string)) (status : string) : felem :=
  FElem id txt (Some txt) None true true ClickNothing
        (map (fun c => (root +:+ COLS_format c.1, plain (S id) c.2)) cells
           ++ [(STATUS_SELECTOR, plain (id + 2) status)])
        (TextNode txt).

Section ColumnVocabulary.
Context `{Driver World Elem}.

(** On the page [w] the row [row] reads [t] in the column [column]: the
    selector of the column finds a cell in the row, and [t] is the stripped
    text of that cell for the column [status], its [innerText] with the white
    space normalized for any other. *)
Definition column_reads (root column : string) (row : Elem) (w : World) (t : string) : Prop :=
  exists cell,
    find_element row CSS_SELECTOR (column_selector root column) w = Ok cell /\
    if String.eqb (normalize_column column) "status"
    then exists raw, text cell w = Ok raw /\ t = strip raw
    else label_of cell w = Ok t.

End ColumnVocabulary.

(** The fixture shows the first of [pages], and the registry is that of the
    table. *)
Definition at_grid (root : string) (pages : list (list felem)) (s : state fworld felem)
  : Prop :=
  world s = fgrid root pages /\ table_registry root (locators s).

(** The generator [g], run from [s], has the rows [items] still to yield and
    at most [k] pages to turn: it has not started on a table whose pages hold
    [items], or it is inside a page that has [rem] left, with the pages
    [later] behind it. *)
Definition grid_inv (root : string) (k : nat) (g : rows_generator)
    (s : state fworld felem) (items : list felem) : Prop :=
  table_registry root (locators s) /\
  ((exists pages,
      g = GenStart /\ world s = fgrid root pages /\
      items = concat pages /\ length pages <= k) \/
   (exists rem later cur,
      g = GenYield rem /\
      world s = fgrid root (cur :: later) /\
      items = rem ++ concat later /\ length later <= k)).

(* ===================================================================== *)
(** ** Strings *)
(* ===================================================================== *)


Lemma append_nil (s : string) : EmptyString +:+ s = s.
Proof. reflexivity. Qed.

Lemma append_cons (c : ascii) (a b : string) : String c a +:+ b = String c (a +:+ b).
Proof. reflexivity. Qed.

Lemma prefix_spec (a b : string) :
  String.prefix a b = true <-> exists q, b = a +:+ q.
Proof.
  revert b. induction a as [|c a IH]; intros b.
  - split; [intros _; by exists b |]. by destruct b.
  - destruct b as [|d b]; simpl.
    + split; [done | intros [q Hq]; discriminate].
    + destruct (Ascii.ascii_dec c d) as [->|Hne].
      * rewrite IH. split; intros [q Hq]; exists q; rewrite append_cons in *; congruence.
      * split; [done | intros [q Hq]; rewrite append_cons in Hq; congruence].
Qed.

(** [str_contains] is Python's [in]: a contiguous occurrence. *)
Lemma str_contains_spec (a b : string) :
  str_contains a b = true <-> exists p q, b = p +:+ a +:+ q.
Proof.
  induction b as [|d b IH].
  - change (str_contains a EmptyString) with (String.prefix a EmptyString || false).
    rewrite orb_false_r, prefix_spec. split.
    + intros [q Hq]. by exists EmptyString, q.
    + intros [p [q Hq]]. destruct p; [by exists q | discriminate].
  - change (str_contains a (String d b))
      with (String.prefix a (String d b) || str_contains a b).
    rewrite orb_true_iff, prefix_spec, IH. split.
    + intros [[q Hq] | [p [q Hq]]].
      * by exists EmptyString, q.
      * exists (String d p), q. rewrite append_cons. by rewrite Hq.
    + intros [p [q Hq]]. destruct p as [|c p].
      * left. by exists q.
      * right. exists p, q. rewrite append_cons in Hq. congruence.
Qed.

(* ===================================================================== *)
(** ** Running the methods: one equation per call *)
(* ===================================================================== *)

(** Case analysis on the calls of a run, outermost first. *)
Ltac run_cases :=
  repeat match goal with
         | |- context [match ?x with Ret _ _ => _ | Exc _ _ => _ | OutOfFuel => _ end] =>
             destruct x as [? ?|? ?|]
         end.

Section Run.
Context `{Driver World Elem}.
Local Abbreviation M := (M World Elem).
Local Abbreviation state := (state World Elem).

Lemma bind_run {A B} (m : M A) (k : A -> M B) (s : state) :
  (x <- m;; k x) s =
  match m s with
  | Ret a s' => k a s'
  | Exc e s' => Exc e s'
  | OutOfFuel => OutOfFuel
  end.
Proof. reflexivity. Qed.

Lemma bind_assoc {A B C} (m : M A) (k : A -> M B) (h : B -> M C) (s : state) :
  (y <- (x <- m;; k x);; h y) s = (x <- m;; y <- k x;; h y) s.
Proof. unfold bind. by destruct (m s). Qed.

Lemma with_events_app (s : state) (a b : list (event Elem)) :
  with_events (with_events s a) b = with_events s (a ++ b).
Proof. unfold with_events. simpl. by rewrite <- app_assoc. Qed.

Lemma with_events_nil (s : state) : with_events s [] = s.
Proof. destruct s. unfold with_events. simpl. by rewrite app_nil_r. Qed.

Lemma log_run (lvl : level) (tpl : string) (args : list (fmtarg Elem)) (s : state) :
  log lvl tpl args s = Ret tt (with_events s [EvLog lvl (Fmt tpl args)]).
Proof. reflexivity. Qed.

(** A known name resolves to its two-item list, after one log line. *)
Lemma get_locator_known (n by_ v : string) (s : state) :
  locators s !! n = Some [by_; v] ->
  get_locator n s = Ret [by_; v] (with_events s [ev_getting n by_ v]).
Proof. intros Hl. unfold get_locator. rewrite Hl. reflexivity. Qed.

Lemma wait_for_element_run (n by_ v : string) (timeout : option nat) (s : state)
    (r : res Elem Elem) (w' : World) :
  locators s !! n = Some [by_; v] ->
  until_visible by_ v (wait_seconds timeout) (msg_not_visible n by_ v) (world s) = (r, w') ->
  wait_for_element n timeout s =
  let s' := State w' (locators s)
                  (trace s ++ [ev_waiting n; ev_getting n by_ v;
                               EvWaitVisible by_ v (wait_seconds timeout)]) in
  match r with
  | Ok e => Ret e s'
  | Err e => Exc e s'
  end.
Proof.
  intros Hl Hw. unfold wait_for_element.
  rewrite bind_run, log_run, bind_run, (get_locator_known n by_ v) by done.
  rewrite bind_run. simpl. unfold perform. simpl. unfold msg_not_visible in Hw.
  rewrite Hw. rewrite <- !app_assoc. simpl. by destruct r.
Qed.

End Run.

(* ===================================================================== *)
(** ** The locator registry *)
(* ===================================================================== *)

Section LocatorFacts.
Context `{Driver World Elem}.

(** C7, on the code: for a name that is not in the registry, [get_locator]
    does not hand the empty list to its caller. The arguments of its own log
    line index the empty list, and [get_locator] itself raises [IndexError],
    with the state as it was. *)
Theorem get_locator_unknown_raises (n : string) (s : state World Elem) :
  locators s !! n = None ->
  get_locator n s = Exc IndexError s.
Proof. intros Hl. unfold get_locator. rewrite Hl. reflexivity. Qed.

(** So a caller never gets to index the list: [wait_for_element] on a name
    that is not in the registry raises inside [get_locator], after its own
    first log line and before any wait. *)
Lemma wait_for_element_unknown (n : string) (timeout : option nat) (s : state World Elem) :
  locators s !! n = None ->
  wait_for_element n timeout s = Exc IndexError (with_events s [ev_waiting n]).
Proof.
  intros Hl. unfold wait_for_element, get_locator.
  rewrite bind_run, log_run, bind_run. cbn [with_events locators]. rewrite Hl.
  reflexivity.
Qed.

End LocatorFacts.

Lemma get_locator_unknown_raises_witness :
  get_locator "missing" (fstate "div.t" (ftable "div.t" "name" 0 [["a"]]))
  = Exc IndexError (fstate "div.t" (ftable "div.t" "name" 0 [["a"]])).
Proof. apply get_locator_unknown_raises. reflexivity. Defined.

(* ===================================================================== *)
(** ** The element façade: [enter_text] and [get_text] *)
(* ===================================================================== *)

Lemma is_screen_reader_span_remove (n : node) :
  is_screen_reader_span (remove_screen_reader n) = is_screen_reader_span n.
Proof. by destruct n. Qed.

(** The script leaves no screen-reader span below the element. *)
Lemma remove_screen_reader_clean : forall n, no_screen_reader (remove_screen_reader n) = true.
Proof.
  fix IH 1. intros [s|tag attrs cs]; [reflexivity|].
  cbn [remove_screen_reader no_screen_reader].
  revert cs. fix IHl 1. intros [|c r]; [reflexivity|].
  destruct (is_screen_reader_span c) eqn:E.
  - apply IHl.
  - rewrite is_screen_reader_span_remove, E, IH. apply IHl.
Qed.

Section FacadeFacts.
Context `{Driver World Elem}.
Local Abbreviation state := (state World Elem).

Lemma get_element_run (by_ v : string) (s : state) (r : res Elem Elem) (w' : World) :
  until_present by_ v DEFAULT_WAIT (msg_not_found by_ v) (world s) = (r, w') ->
  get_element by_ v s =
  let s' := State w' (locators s) (trace s ++ [EvWaitPresent by_ v DEFAULT_WAIT]) in
  match r with
  | Ok e => Ret e s'
  | Err e => Exc e s'
  end.
Proof.
  intros Hw. unfold get_element, perform. unfold msg_not_found in Hw.
  rewrite Hw. by destruct r.
Qed.

(** C9, amended: when the locator resolves to [[by, value]] and the element
    is found, [enter_text] clears the element and then types into it if
    [value] is not the string [password], whatever the type of the field; if
    [value] is the string [password] it types without clearing. In both cases
    nothing else is done to the element. *)
Theorem enter_text_clears_unless_password (locator text_ by_ value_ : string)
    (s : state) (element : Elem) (w1 : World) :
  locators s !! locator = Some [by_; value_] ->
  until_present by_ value_ DEFAULT_WAIT (msg_not_found by_ value_) (world s)
    = (Ok element, w1) ->
  let found :=
    [ ev_getting locator by_ value_;
      EvLog INFO (Fmt "Entering value with locator: {}, by={} and value={}"
                      [AStr locator; AStr by_; AStr value_]);
      EvWaitPresent by_ value_ DEFAULT_WAIT ] in
  (value_ <> "password" ->
   forall w2 w3,
     clear element w1 = (Ok tt, w2) ->
     send_keys element text_ w2 = (Ok tt, w3) ->
     enter_text locator text_ s =
     Ret tt (State w3 (locators s)
                   (trace s ++ found ++ [EvClear element; EvSendKeys element text_])))
  /\
  (value_ = "password" ->
   forall w3,
     send_keys element text_ w1 = (Ok tt, w3) ->
     enter_text locator text_ s =
     Ret tt (State w3 (locators s) (trace s ++ found ++ [EvSendKeys element text_]))).
Proof.
  intros Hl Hw found. unfold enter_text.
  rewrite bind_run, (get_locator_known locator by_ value_) by done.
  cbn [unpack2 ret]. unfold try_except.
  rewrite bind_run, log_run, bind_run.
  rewrite (get_element_run by_ value_ _ (Ok element) w1) by done.
  cbn zeta. split.
  - intros Hne w2 w3 Hc Hk.
    assert (String.eqb value_ "password" = false) as -> by by apply String.eqb_neq.
    cbn [negb]. rewrite bind_run. unfold perform at 1. cbn [world locators trace].
    rewrite Hc. unfold perform. cbn [world locators trace]. rewrite Hk.
    unfold found. cbn [with_events world locators trace].
    by rewrite <- !app_assoc.
  - intros -> w3 Hk. rewrite String.eqb_refl. cbn [negb]. rewrite bind_run. cbn [ret].
    unfold perform. cbn [world locators trace]. rewrite Hk.
    unfold found. cbn [with_events world locators trace].
    by rewrite <- !app_assoc.
Qed.


End FacadeFacts.

(** C9, as stated, fails on the code: the test of [enter_text] is on the
    selector as a string. A field of type password that the locator reaches
    with the selector [input[type="password"]] is cleared before the text is
    typed, as any other field is. *)
Lemma enter_text_password_field_counterexample :
  let sel := "input[type=" +:+ dq +:+ "password" +:+ dq +:+ "]" in
  let field := plain 6 EmptyString in
  let s := State [FPage [sel] [(sel, [field])]]
                 (Locator_init [("password_box", (None, sel))]) [] in
  enter_text "password_box" "secret" s
  = Ret tt (State (world s) (locators s)
              [ ev_getting "password_box" CSS_SELECTOR sel;
                EvLog INFO (Fmt "Entering value with locator: {}, by={} and value={}"
                                [AStr "password_box"; AStr CSS_SELECTOR; AStr sel]);
                EvWaitPresent CSS_SELECTOR sel DEFAULT_WAIT;
                EvClear field;
                EvSendKeys field "secret" ]).
Proof. reflexivity. Qed.

Lemma enter_text_clears_unless_password_witness :
  enter_text "splunk_username" "admin" flogin_state
  = Ret tt (State [flogin_page] (Locator_init login_locators)
              [ ev_getting "splunk_username" "id" "username";
                EvLog INFO (Fmt "Entering value with locator: {}, by={} and value={}"
                                [AStr "splunk_username"; AStr "id"; AStr "username"]);
                EvWaitPresent "id" "username" DEFAULT_WAIT;
                EvClear (plain 5 EmptyString);
                EvSendKeys (plain 5 EmptyString) "admin" ])
  /\
  enter_text "splunk_password" "secret" flogin_state
  = Ret tt (State [flogin_page] (Locator_init login_locators)
              [ ev_getting "splunk_password" "id" "password";
                EvLog INFO (Fmt "Entering value with locator: {}, by={} and value={}"
                                [AStr "splunk_password"; AStr "id"; AStr "password"]);
                EvWaitPresent "id" "password" DEFAULT_WAIT;
                EvSendKeys (plain 6 EmptyString) "secret" ]).
Proof.
  split.
  - refine (proj1 (enter_text_clears_unless_password
                     "splunk_username" "admin" "id" "username" flogin_state
                     (plain 5 EmptyString) [flogin_page] _ _) _ _ _ _ _);
      first [discriminate | reflexivity].
  - refine (proj2 (enter_text_clears_unless_password
                     "splunk_password" "secret" "id" "password" flogin_state
                     (plain 6 EmptyString) [flogin_page] _ _) _ _ _);
      reflexivity.
Defined.


(* ===================================================================== *)
(** ** Column names *)
(* ===================================================================== *)

(** C3, as stated, fails on the code: a space in the column name becomes an
    underscore, so [sta tus] is the column [sta_tus] and gets the generic
    cell selector, not the selector of the status column. *)
Lemma column_selector_space_counterexample :
  ~ (column_selector "div.t" "Status" = column_selector "div.t" "status" /\
     column_selector "div.t" "sta tus" = column_selector "div.t" "status").
Proof. intros [_ Hs]. vm_compute in Hs. discriminate Hs. Qed.

(** C3, amended: for every table root, [Status] and [status] both get the
    selector of the status column; [sta tus] is normalized to [sta_tus] and
    gets the cell selector of that column under the root. *)
Theorem column_selector_status (root : string) :
  column_selector root "Status" = column_selector root "status" /\
  column_selector root "status" = STATUS_SELECTOR /\
  normalize_column "sta tus" = "sta_tus" /\
  column_selector root "sta tus" = root +:+ " td.cell-sta_tus".
Proof. repeat split; reflexivity. Qed.

(* ===================================================================== *)
(** ** Pagination: [next_page] *)
(* ===================================================================== *)

Section NextPage.
Context `{Driver World Elem}.
Local Abbreviation state := (state World Elem).

Lemma clicks_app (a b : list (event Elem)) : clicks (a ++ b) = clicks a ++ clicks b.
Proof. unfold clicks. apply omap_app. Qed.

Lemma get_element_text_run (e : Elem) (s : state) :
  get_element_text e s =
  match label_of e (world s) with
  | Ok t => Ret t s
  | Err x => Exc x s
  end.
Proof.
  unfold get_element_text, label_of, bind, observe.
  destruct (get_attribute e "innerText" (world s)) as [[inner|]|x]; reflexivity.
Qed.

(** [_is_element_clickable] never raises, and does not touch the page. *)
Lemma _is_element_clickable_run (e : Elem) (s : state) :
  exists evs b,
    _is_element_clickable e s = Ret b (with_events s evs) /\
    clicks evs = [] /\
    (b = true <-> clickable (world s) e).
Proof.
  unfold _is_element_clickable, try_except, clickable.
  rewrite bind_run, log_run. rewrite bind_run. unfold observe at 1.
  cbn [with_events world].
  destruct (is_displayed e (world s)) as [[|]|x] eqn:Hd.
  - unfold observe. cbn [with_events world].
    destruct (is_enabled e (world s)) as [b|x] eqn:He.
    + eexists _, b. split; [reflexivity|]. split; [reflexivity|].
      split; [intros ->; done | intros [_ [=]]; done].
    + rewrite bind_run, log_run. cbn [ret]. rewrite with_events_app.
      eexists _, false. split; [reflexivity|]. split; [reflexivity|].
      split; [done | intros [_ [=]]].
  - eexists _, false. split; [reflexivity|]. split; [reflexivity|].
    split; [done | intros [[=] _]].
  - rewrite bind_run, log_run. cbn [ret]. rewrite with_events_app.
    eexists _, false. split; [reflexivity|]. split; [reflexivity|].
    split; [done | intros [[=] _]].
Qed.

Lemma last_cons_default {A} (x : A) (l : list A) (d d' : A) :
  List.last (x :: l) d = List.last (x :: l) d'.
Proof. revert x. induction l as [|y l IH]; intros x; [reflexivity|]. apply (IH y). Qed.

(** The loop passes over the controls that are not labelled [next]. *)
Lemma next_page_loop_skip (pre rest : list Elem) (last : Elem) (s : state) :
  Forall (not_next (world s)) pre ->
  next_page_loop (pre ++ rest) last s = next_page_loop rest (List.last pre last) s.
Proof.
  revert last. induction pre as [|p pre IH]; intros last Hpre; [reflexivity|].
  inversion Hpre as [|? ? [label [Hl Hn]] Hpre']; subst.
  cbn [app next_page_loop]. rewrite bind_run, get_element_text_run, Hl.
  assert (String.eqb (lower label) "next" = false) as -> by by apply String.eqb_neq.
  rewrite IH by done. destruct pre as [|e pre]; [reflexivity|].
  f_equal. change (List.last (p :: e :: pre) last) with (List.last (e :: pre) last).
  apply last_cons_default.
Qed.

(** At the first control labelled [next] the loop ends: [True] after a click
    that went through, [False] in every other case. *)
Lemma next_page_loop_at_next (page : Elem) (post : list Elem) (last : Elem) (s : state) :
  is_next (world s) page ->
  (forall w', clickable (world s) page -> click page (world s) = (Ok tt, w') ->
     exists evs, next_page_loop (page :: post) last s
                 = Ret true (State w' (locators s) (trace s ++ evs)) /\
                 clicks evs = [page]) /\
  (forall x w', clickable (world s) page -> click page (world s) = (Err x, w') ->
     exists evs, next_page_loop (page :: post) last s
                 = Ret false (State w' (locators s) (trace s ++ evs)) /\
                 clicks evs = [page]) /\
  (~ clickable (world s) page ->
     exists evs, next_page_loop (page :: post) last s = Ret false (with_events s evs) /\
                 clicks evs = []).
Proof.
  intros [label [Hl Hn]].
  cbn [next_page_loop]. rewrite bind_run, get_element_text_run, Hl, Hn.
  cbn [String.eqb Ascii.eqb Bool.eqb]. unfold try_except. rewrite bind_run.
  destruct (_is_element_clickable_run page s) as (evs & b & -> & Hevs & Hb).
  repeat split.
  - intros w' Hc Hk. apply Hb in Hc as ->. rewrite bind_run.
    unfold perform. cbn [with_events world locators trace]. rewrite Hk. cbn [ret].
    eexists. rewrite <- app_assoc. split; [reflexivity|].
    by rewrite clicks_app, Hevs.
  - intros x w' Hc Hk. apply Hb in Hc as ->. rewrite bind_run.
    unfold perform. cbn [with_events world locators trace]. rewrite Hk.
    rewrite bind_run, log_run. cbn [ret]. unfold with_events.
    cbn [world locators trace].
    eexists. rewrite <- !app_assoc. split; [reflexivity|].
    by rewrite clicks_app, Hevs.
  - intros Hc. destruct b; [destruct Hc; by apply Hb|].
    cbn [ret]. eexists. split; [reflexivity | done].
Qed.

(** When no control is labelled [next], the loop runs to its [else]. *)
Lemma next_page_loop_no_next (elements : list Elem) (last : Elem) (s : state) :
  Forall (not_next (world s)) elements ->
  next_page_loop elements last s
  = Exc (ValueError (Fmt "page: {} is not found." [AElem (List.last elements last)])) s.
Proof.
  intros Hall. rewrite <- (app_nil_r elements) at 1.
  by rewrite next_page_loop_skip.
Qed.

(** The loop answers [True] only at a first control labelled [next] that is
    displayed and enabled, after a click that went through. *)
Lemma next_page_loop_true (elements : list Elem) (last : Elem) (s s' : state) :
  next_page_loop elements last s = Ret true s' ->
  exists pre page post,
    elements = pre ++ page :: post /\ Forall (not_next (world s)) pre /\
    is_next (world s) page /\ clickable (world s) page /\
    click page (world s) = (Ok tt, world s').
Proof.
  revert last. induction elements as [|e l IH]; intros last Htrue; [discriminate|].
  pose proof Htrue as Hrun. cbn [next_page_loop] in Hrun.
  rewrite bind_run, get_element_text_run in Hrun.
  destruct (label_of e (world s)) as [label|x] eqn:Hl; [|discriminate].
  destruct (String.eqb_spec (lower label) "next") as [Hn|Hn].
  - assert (Hnext : is_next (world s) e) by by exists label.
    destruct (next_page_loop_at_next e l last s Hnext) as (Ht & Hx & Hno).
    exists [], e, l. split; [done|]. split; [constructor|]. split; [done|].
    destruct (is_displayed e (world s)) as [[|]|x] eqn:Hd;
      [destruct (is_enabled e (world s)) as [[|]|x] eqn:He| |].
    + destruct (click e (world s)) as [[[]|x] w'] eqn:Hk.
      * destruct (Ht w' (conj Hd He) eq_refl) as (evs & Hr & _).
        rewrite Hr in Htrue. injection Htrue as <-. done.
      * destruct (Hx x w' (conj Hd He) eq_refl) as (evs & Hr & _).
        rewrite Hr in Htrue. discriminate.
    + assert (Hnc : ~ clickable (world s) e) by (intros [Hd' He']; congruence).
      destruct (Hno Hnc) as (evs & Hr & _). rewrite Hr in Htrue. discriminate.
    + assert (Hnc : ~ clickable (world s) e) by (intros [Hd' He']; congruence).
      destruct (Hno Hnc) as (evs & Hr & _). rewrite Hr in Htrue. discriminate.
    + assert (Hnc : ~ clickable (world s) e) by (intros [Hd' He']; congruence).
      destruct (Hno Hnc) as (evs & Hr & _). rewrite Hr in Htrue. discriminate.
    + assert (Hnc : ~ clickable (world s) e) by (intros [Hd' He']; congruence).
      destruct (Hno Hnc) as (evs & Hr & _). rewrite Hr in Htrue. discriminate.
  - destruct (IH e Hrun) as (pre & page & post & -> & Hpre & Hrest).
    exists (e :: pre), page, post. split; [done|]. split; [|done].
    constructor; [by exists label | done].
Qed.

(** [next_page] up to its loop, when the table is visible and the controls
    can be listed. *)
Lemma next_page_run (s : state) (by_ v by2 v2 : string) (c : Elem) (w1 : World)
    (elements : list Elem) :
  locators s !! "table_container" = Some [by_; v] ->
  locators s !! "switch_to_page" = Some [by2; v2] ->
  until_visible by_ v DEFAULT_WAIT (msg_not_visible "table_container" by_ v) (world s)
    = (Ok c, w1) ->
  find_elements by2 v2 (sleep 10000 w1) = Ok elements ->
  exists evs,
    clicks evs = [] /\
    next_page s =
    let s1 := State (sleep 10000 w1) (locators s) (trace s ++ evs) in
    match elements with
    | [] => Ret false s1
    | first :: _ => next_page_loop elements first s1
    end.
Proof.
  intros Hc Hp Hw Hf. unfold next_page.
  rewrite bind_run, (wait_for_element_run "table_container" by_ v None s (Ok c) w1) by done.
  cbn beta iota zeta. rewrite bind_run. unfold time_sleep, perform at 1.
  cbn [world locators trace]. rewrite bind_run.
  rewrite (get_locator_known "switch_to_page" by2 v2) by done.
  cbn [unpack2 ret]. rewrite bind_run. cbn [ret fst snd]. rewrite bind_run.
  unfold observe, with_events. cbn [world locators trace]. rewrite Hf.
  rewrite <- !app_assoc. eexists. split; [|destruct elements; reflexivity]. reflexivity.
Qed.

(** C2, amended: with the table visible and its pagination controls listed,
    [next_page] returns [False] without raising when there is no control at
    all, and when the first control labelled [next] is not displayed and
    enabled or its click raises; it returns [True] exactly when that control is
    displayed and enabled and its click goes through; and when there are
    controls but none is labelled [next], it raises [ValueError], as its
    docstring says. *)
Theorem next_page_outcome (s : state) (by_ v by2 v2 : string) (c : Elem) (w1 : World)
    (elements : list Elem) :
  locators s !! "table_container" = Some [by_; v] ->
  locators s !! "switch_to_page" = Some [by2; v2] ->
  until_visible by_ v DEFAULT_WAIT (msg_not_visible "table_container" by_ v) (world s)
    = (Ok c, w1) ->
  find_elements by2 v2 (sleep 10000 w1) = Ok elements ->
  let w := sleep 10000 w1 in
  (* no control at all *)
  (elements = [] ->
   exists evs, next_page s = Ret false (State w (locators s) (trace s ++ evs)) /\
               clicks evs = []) /\
  (* the first control labelled next *)
  (forall pre page post,
     elements = pre ++ page :: post -> Forall (not_next w) pre -> is_next w page ->
     (forall w', clickable w page -> click page w = (Ok tt, w') ->
        exists evs, next_page s = Ret true (State w' (locators s) (trace s ++ evs)) /\
                    clicks evs = [page]) /\
     (forall x w', clickable w page -> click page w = (Err x, w') ->
        exists evs, next_page s = Ret false (State w' (locators s) (trace s ++ evs)) /\
                    clicks evs = [page]) /\
     (~ clickable w page ->
        exists evs, next_page s = Ret false (State w (locators s) (trace s ++ evs)) /\
                    clicks evs = [])) /\
  (* controls, none of them labelled next *)
  (forall first rest,
     elements = first :: rest -> Forall (not_next w) elements ->
     exists evs, next_page s
                 = Exc (ValueError (Fmt "page: {} is not found."
                                        [AElem (List.last elements first)]))
                       (State w (locators s) (trace s ++ evs)) /\
                 clicks evs = []) /\
  (* True only after a click on the first control that is labelled next *)
  (forall s',
     next_page s = Ret true s' ->
     exists pre page post,
       elements = pre ++ page :: post /\ Forall (not_next w) pre /\
       is_next w page /\ clickable w page /\ click page w = (Ok tt, world s')).
Proof.
  intros Hc Hp Hw Hf w.
  destruct (next_page_run s by_ v by2 v2 c w1 elements Hc Hp Hw Hf) as (evs0 & Hevs0 & Hrun).
  cbn zeta in Hrun. fold w in Hrun.
  set (s1 := State w (locators s) (trace s ++ evs0)) in *.
  assert (Hloop : forall pre page post,
             elements = pre ++ page :: post -> Forall (not_next w) pre ->
             next_page s = next_page_loop (page :: post) (List.last pre page) s1).
  { intros pre page post -> Hpre. rewrite Hrun.
    destruct pre as [|p pre]; [reflexivity|]. cbn [app].
    change (p :: pre ++ page :: post) with ((p :: pre) ++ page :: post).
    rewrite next_page_loop_skip by done.
    by rewrite (last_cons_default p pre p page). }
  repeat split.
  - intros ->. exists evs0. by rewrite Hrun.
  - intros w' Hck Hk. rewrite (Hloop pre page post) by done.
    destruct (next_page_loop_at_next page post (List.last pre page) s1) as (Ht & _ & _);
      [done|].
    destruct (Ht w' Hck Hk) as (evs & -> & Hevs). exists (evs0 ++ evs).
    cbn [s1 world locators trace]. rewrite <- app_assoc. split; [done|].
    by rewrite clicks_app, Hevs0, Hevs.
  - intros x w' Hck Hk. rewrite (Hloop pre page post) by done.
    destruct (next_page_loop_at_next page post (List.last pre page) s1) as (_ & Hx & _);
      [done|].
    destruct (Hx x w' Hck Hk) as (evs & -> & Hevs). exists (evs0 ++ evs).
    cbn [s1 world locators trace]. rewrite <- app_assoc. split; [done|].
    by rewrite clicks_app, Hevs0, Hevs.
  - intros Hnc. rewrite (Hloop pre page post) by done.
    destruct (next_page_loop_at_next page post (List.last pre page) s1) as (_ & _ & Hn);
      [done|].
    destruct (Hn Hnc) as (evs & -> & Hevs). exists (evs0 ++ evs).
    unfold with_events. cbn [s1 world locators trace]. rewrite <- app_assoc.
    split; [done|]. by rewrite clicks_app, Hevs0, Hevs.
  - intros first rest Hel Hall. rewrite Hrun, Hel. rewrite <- Hel.
    rewrite next_page_loop_no_next by done. exists evs0. done.
  - intros s' Htrue. rewrite Hrun in Htrue.
    destruct elements as [|first rest]; [discriminate|].
    apply (next_page_loop_true _ _ s1 s') in Htrue. exact Htrue.
Qed.

End NextPage.

Lemma next_page_outcome_witness :
  let next := FElem 2 "Next" (Some "Next") None true true ClickNextPage [] (TextNode "Next") in
  exists evs,
    next_page (fstate "div.t" (ftable "div.t" "name" 0 [["a"]; ["b"]]))
    = Ret true (State (ftable "div.t" "name" 1 [["b"]]) (ftable_locators "div.t") ([] ++ evs))
    /\ clicks evs = [next].
Proof.
  intros next.
  edestruct (next_page_outcome
               (fstate "div.t" (ftable "div.t" "name" 0 [["a"]; ["b"]]))
               CSS_SELECTOR (container_selector "div.t")
               CSS_SELECTOR ("div.t" +:+ SWITCH_PAGE)
               (plain 0 EmptyString)
               (ftable "div.t" "name" 0 [["a"]; ["b"]])
               (fpager true)) as (_ & T & _); [reflexivity..|].
  edestruct (T [plain 1 "1"] next []) as (T1 & _).
  - reflexivity.
  - constructor; [|constructor]. exists "1". split; [reflexivity | discriminate].
  - exists "Next". split; reflexivity.
  - apply (T1 (ftable "div.t" "name" 1 [["b"]])); [split; reflexivity | reflexivity].
Defined.

(** C2, as stated, fails on the code: on a page whose pagination controls
    are the page numbers 1 and 2, no control labelled [next] is clickable, and
    [next_page] does not return [False]: it raises [ValueError]. *)
Lemma next_page_no_next_counterexample :
  let s := fstate "div.t" [fpager_page "div.t" [plain 1 "1"; plain 2 "2"]] in
  (forall e, e ∈ fmatches ("div.t" +:+ SWITCH_PAGE) (world s) -> ~ is_next (world s) e) /\
  ~ (exists s', next_page s = Ret false s') /\
  (exists s', next_page s
              = Exc (ValueError (Fmt "page: {} is not found." [AElem (plain 2 "2")])) s').
Proof.
  intros s. split; [|split].
  - intros e He [label [Hl Hn]].
    apply elem_of_cons in He as [->|He]; [|apply elem_of_cons in He as [->|He]].
    + vm_compute in Hl. injection Hl as <-. discriminate Hn.
    + vm_compute in Hl. injection Hl as <-. discriminate Hn.
    + inversion He.
  - intros [s' Hs']. vm_compute in Hs'. discriminate Hs'.
  - destruct (next_page s) as [b s'|e s'|] eqn:Hrun;
      vm_compute in Hrun; try discriminate Hrun.
    injection Hrun as <- <-. eexists. reflexivity.
Qed.

(* ===================================================================== *)
(** ** Sorting: [sort_table] *)
(* ===================================================================== *)

Section SortTable.
Context `{Driver World Elem}.
Local Abbreviation state := (state World Elem).

(** The loop passes over a header of another column after one log line. *)
Lemma sort_table_loop_skip (th : Elem) (rest : list Elem) (column order : string)
    (s : state) :
  header_differs (world s) column th ->
  exists evs,
    clicks evs = [] /\
    sort_table_loop (th :: rest) column order s
    = sort_table_loop rest column order (with_events s evs).
Proof.
  intros [t [Ht Hd]]. cbn [sort_table_loop].
  rewrite bind_run. unfold observe at 1. rewrite Ht.
  rewrite bind_run, log_run, bind_run. unfold observe at 1.
  cbn [with_events world]. rewrite Ht. rewrite bind_run.
  exists [EvLog INFO (Fmt "Th in sort: {}" [AStr (lower t)])]. split; [reflexivity|].
  destruct (String.eqb t EmptyString) eqn:Hte; cbn [negb ret]; [reflexivity|].
  destruct Hd as [Hd|Hd]; [apply String.eqb_neq in Hte; done|].
  rewrite bind_run. unfold observe at 1. cbn [with_events world]. rewrite Ht.
  cbn [ret]. apply String.eqb_neq in Hd. rewrite Hd. reflexivity.
Qed.

(** With no header of the column, the loop runs to its [else] and raises,
    without a click. *)
Lemma sort_table_loop_none (ths : list Elem) (column order : string) (s : state) :
  Forall (header_differs (world s) column) ths ->
  exists evs,
    clicks evs = [] /\
    sort_table_loop ths column order s
    = Exc (ValueError (Fmt "Failed to sort the {}" [AStr column])) (with_events s evs).
Proof.
  revert s. induction ths as [|th ths IH]; intros s Hall.
  - exists []. by rewrite with_events_nil.
  - inversion Hall as [|? ? Hth Hths]; subst.
    destruct (sort_table_loop_skip th ths column order s Hth) as (evs1 & Hc1 & ->).
    destruct (IH (with_events s evs1) Hths) as (evs2 & Hc2 & ->).
    exists (evs1 ++ evs2). rewrite with_events_app. split; [|done].
    by rewrite clicks_app, Hc1, Hc2.
Qed.

(** At a header of the column whose sort direction is neither [asc] nor
    [desc]: one click between two pauses; then a second click and [True] for
    the order [desc], and for any other order the loop goes on with the
    headers that follow. *)
Lemma sort_table_loop_unsorted (th : Elem) (rest : list Elem) (column order : string)
    (s : state) (cur : option string) (w1 : World) :
  header_matches (world s) column th ->
  get_attribute th "data-test-sort-dir" (world s) = Ok cur ->
  cur <> Some "asc" -> cur <> Some "desc" ->
  click th (sleep 2000 (world s)) = (Ok tt, w1) ->
  (order = "desc" ->
   forall w2, click th (sleep 2000 w1) = (Ok tt, w2) ->
   exists evs,
     clicks evs = [th; th] /\
     sort_table_loop (th :: rest) column order s
     = Ret true (State w2 (locators s) (trace s ++ evs)))
  /\
  (order <> "desc" ->
   exists evs,
     clicks evs = [th] /\
     sort_table_loop (th :: rest) column order s
     = sort_table_loop rest column order
         (State (sleep 2000 w1) (locators s) (trace s ++ evs))).
Proof.
  intros (t & Ht & Hne & Hlow) Hcur Hna Hnd Hk1.
  assert (Hhead : sort_table_loop (th :: rest) column order s =
    (if String.eqb order "desc" then perform (EvClick th) (click th);; ret true
     else sort_table_loop rest column order)
      (State (sleep 2000 w1) (locators s)
             (trace s ++ [EvLog INFO (Fmt "Th in sort: {}" [AStr (lower t)]);
                          EvLog INFO (Fmt "Sorting" []);
                          EvSleep 2000; EvClick th; EvSleep 2000]))).
  { cbn [sort_table_loop].
    rewrite bind_run. unfold observe at 1. rewrite Ht.
    rewrite bind_run, log_run, bind_run. unfold observe at 1.
    cbn [with_events world]. rewrite Ht. rewrite bind_run.
    apply String.eqb_neq in Hne. rewrite Hne. cbn [negb].
    rewrite bind_run. unfold observe at 1. cbn [with_events world]. rewrite Ht.
    cbn [ret]. rewrite Hlow, String.eqb_refl.
    rewrite bind_run, log_run, bind_run. unfold observe at 1.
    cbn [with_events world]. rewrite Hcur.
    rewrite !(bool_decide_eq_false_2 (cur = Some _)) by done.
    rewrite !andb_false_r. cbn [orb]. unfold with_events.
    cbn [world locators trace].
    unfold time_sleep at 1. rewrite bind_run. unfold perform at 1.
    cbn [world locators trace].
    rewrite bind_run. unfold perform at 1. cbn [world locators trace]. rewrite Hk1.
    rewrite bind_run. unfold time_sleep, perform at 1. cbn [world locators trace].
    rewrite <- !app_assoc. reflexivity. }
  rewrite Hhead. clear Hhead.
  split.
  - intros -> w2 Hk2. cbn [String.eqb Ascii.eqb Bool.eqb].
    rewrite bind_run. unfold perform. cbn [world locators trace]. rewrite Hk2.
    cbn [ret]. rewrite <- !app_assoc. cbn [app].
    eexists. split; [|reflexivity]. reflexivity.
  - intros Hno. apply String.eqb_neq in Hno. rewrite Hno.
    eexists. split; [|reflexivity]. reflexivity.
Qed.

End SortTable.

(** C1, on the code: the header [Name] has no sort direction yet, and
    [sort_table("name", "asc")] clicks it once, then leaves the loop without a
    [return] and raises [ValueError] instead of returning [True]. *)
Theorem sort_table_asc_from_unsorted_raises :
  let th := fheader 1 "Name" None in
  match sort_table "name" "asc" (fstate "div.t" [fhead_page "div.t" [th]]) with
  | Exc e s' =>
      e = ValueError (Fmt "Failed to sort the {}" [AStr "name"]) /\
      clicks (trace s') = [th]
  | _ => False
  end.
Proof. vm_compute. split; reflexivity. Qed.

(** The same header with the order [desc]: two clicks, and [True]. *)
Lemma sort_table_desc_from_unsorted_returns :
  let th := fheader 1 "Name" None in
  match sort_table "name" "desc" (fstate "div.t" [fhead_page "div.t" [th]]) with
  | Ret b s' => b = true /\ clicks (trace s') = [th; th]
  | _ => False
  end.
Proof. vm_compute. split; reflexivity. Qed.

(* ===================================================================== *)
(** ** Deleting a row: [delete_row] *)
(* ===================================================================== *)

Section DeleteRow.
Context `{Driver World Elem}.
Local Abbreviation M := (M World Elem).

Lemma never_returns_raise {A} (e : exn Elem) : never_returns (raise e : M A).
Proof. intros s a s'. discriminate. Qed.

Lemma never_returns_bind_l {A B} (m : M A) (k : A -> M B) :
  never_returns m -> never_returns (x <- m;; k x).
Proof.
  intros Hm s b s'. rewrite bind_run. specialize (Hm s).
  destruct (m s) as [a s1|e s1|]; [by destruct (Hm a s1) | done | done].
Qed.

Lemma never_returns_bind_r {A B} (m : M A) (k : A -> M B) :
  (forall a, never_returns (k a)) -> never_returns (x <- m;; k x).
Proof.
  intros Hk s b s'. rewrite bind_run.
  destruct (m s) as [a s1|e s1|]; [apply Hk | done | done].
Qed.

(** [AlertTable] has no member [delete_btn], [close] or [cancel]. *)
Lemma call_member_missing :
  call_member "delete_btn" = (raise (AttributeError "delete_btn") : M unit) /\
  call_member "close" = (raise (AttributeError "close") : M unit) /\
  call_member "cancel" = (raise (AttributeError "cancel") : M unit).
Proof. repeat split; reflexivity. Qed.

(** [delete_row] never returns [True] and never raises: whatever the row, the
    action and the page, it logs an error and returns [False] (or is still
    looking for the row when the fuel ends). *)
Lemma delete_row_always_false (fuel : nat) (self : AlertTable) (input_name : string)
    (action : option string) (s : state World Elem) :
  delete_row fuel self input_name action s = OutOfFuel \/
  exists s1 cause,
    delete_row fuel self input_name action s
    = Ret false (with_events s1 [ev_unable action cause]).
Proof.
  destruct call_member_missing as (Hd & Hc & Hx).
  unfold delete_row, try_except.
  match goal with |- context [match ?body s with _ => _ end] => set (b := body) end.
  assert (Hnever : never_returns b).
  { unfold b. do 8 (apply never_returns_bind_r; intros ?).
    apply never_returns_bind_l.
    rewrite Hd, Hc, Hx.
    repeat case_bool_decide; try apply never_returns_raise.
    do 2 (apply never_returns_bind_r; intros ?). apply never_returns_raise. }
  destruct (b s) as [a s1|e s1|] eqn:Hb.
  - destruct (Hnever s a s1 Hb).
  - right. exists s1, (exn_name e). reflexivity.
  - by left.
Qed.

End DeleteRow.

(** C8, on the code: the table shows the row [x] with its delete control, and
    the confirmation popup opens on the click. [delete_row("x", "delete")]
    clicks the control, waits for the popup, and then fails on
    [self.delete_btn], which [AlertTable] does not have: it logs the
    [AttributeError] and returns [False], with the popup still open. *)
Theorem delete_row_confirm_returns_false :
  let control :=
    FElem 12 "Delete" (Some "Delete") None true true (ClickReveal "div.deletePrompt") []
          (TextNode "Delete") in
  match delete_row 3 (ftable_self "div.t") "x" (Some "delete")
                   (fstate "div.t" (ftable "div.t" "name" 0 [["x"]])) with
  | Ret b s' =>
      b = false /\
      clicks (trace s') = [control] /\
      List.last (trace s') (EvSleep 0) = ev_unable (Some "delete") "AttributeError" /\
      fvisible "div.deletePrompt" (world s') = true
  | _ => False
  end.
Proof. vm_compute. repeat split; reflexivity. Qed.

(* ===================================================================== *)
(** ** Row enumeration: the list and the generator *)
(* ===================================================================== *)

Section Enumeration.
Context `{Driver World Elem}.
Local Abbreviation M := (M World Elem).
Local Abbreviation state := (state World Elem).

Lemma get_list_of_rows_unfold (n : nat) (rows : option (list Elem)) (s : state) :
  get_list_of_rows (S n) rows s =
  (current_rows <- fetch_rows;;
   more <- next_page;;
   if more then get_list_of_rows n (Some (default [] rows ++ current_rows))
   else ret (default [] rows ++ current_rows)) s.
Proof.
  cbn [get_list_of_rows]. unfold fetch_rows, bind.
  destruct rows; run_cases; reflexivity.
Qed.

Lemma rows_generator_body_unfold (n : nat) (s : state) :
  rows_generator_body (S n) s =
  (elements <- fetch_rows;;
   match elements with
   | row :: rest => ret (Some row, GenYield rest)
   | [] => more <- next_page;;
           if more then rows_generator_body n else ret (None, GenDone)
   end) s.
Proof. cbn [rows_generator_body]. unfold fetch_rows, bind. run_cases; reflexivity. Qed.

(** The rows of the page already listed come out one by one, without a look
    at the page. *)
Lemma collect_yield (l : list Elem) (m : nat) (acc : list Elem) (s : state) :
  collect m (GenYield l) acc s = collect (m - length l) (GenYield []) (acc ++ l) s.
Proof.
  revert m acc. induction l as [|x l IH]; intros m acc.
  - by rewrite Nat.sub_0_r, app_nil_r.
  - destruct m as [|m]; [reflexivity|]. cbn [collect rows_generator_next length Nat.sub].
    rewrite bind_run. cbn [ret fst snd]. rewrite IH. by rewrite <- app_assoc.
Qed.

(** When they are all out, the generator turns the page and starts again. *)
Lemma collect_exhausted (m : nat) (acc : list Elem) (s : state) :
  collect (S m) (GenYield []) acc s =
  (more <- next_page;; if more then collect (S m) GenStart acc else ret acc) s.
Proof.
  cbn [collect rows_generator_next]. rewrite bind_assoc. unfold bind.
  destruct (next_page s) as [[|] s1|e s1|]; reflexivity.
Qed.

(** More fuel does not change what a run with enough fuel gave. *)
Lemma rows_generator_body_mono (n n' : nat) (s : state) :
  n <= n' -> rows_generator_body n s <> OutOfFuel ->
  rows_generator_body n' s = rows_generator_body n s.
Proof.
  revert n' s. induction n as [|n IH]; intros n' s Hle Hne; [done|].
  destruct n' as [|n']; [lia|].
  rewrite !rows_generator_body_unfold in *. unfold bind in *.
  destruct (fetch_rows s) as [[|row rest] s1|e s1|]; try reflexivity.
  destruct (next_page s1) as [[|] s2|e s2|]; try reflexivity.
  apply IH; [lia | done].
Qed.

Lemma rows_generator_next_mono (n n' : nat) (g : rows_generator) (s : state) :
  n <= n' -> rows_generator_next n g s <> OutOfFuel ->
  rows_generator_next n' g s = rows_generator_next n g s.
Proof.
  intros Hle Hne. destruct g as [|[|row rest]|]; cbn [rows_generator_next] in *;
    try reflexivity.
  - by apply rows_generator_body_mono.
  - unfold bind in *. destruct (next_page s) as [[|] s1|e s1|]; try reflexivity.
    by apply rows_generator_body_mono.
Qed.

Lemma collect_mono (n n' : nat) (g : rows_generator) (acc : list Elem) (s : state) :
  n <= n' -> collect n g acc s <> OutOfFuel ->
  collect n' g acc s = collect n g acc s.
Proof.
  revert n' g acc s. induction n as [|n IH]; intros n' g acc s Hle Hne; [done|].
  destruct n' as [|n']; [lia|].
  cbn [collect] in *. rewrite !bind_run in *.
  destruct (rows_generator_next n g s) as [[[row|] g'] s1|e s1|] eqn:Hn; [| | |done].
  - rewrite (rows_generator_next_mono n n'), Hn by (rewrite ?Hn; done || lia).
    cbn [fst snd] in *. apply IH; [lia | done].
  - by rewrite (rows_generator_next_mono n n'), Hn by (rewrite ?Hn; done || lia).
  - by rewrite (rows_generator_next_mono n n'), Hn by (rewrite ?Hn; done || lia).
Qed.


Lemma collect_start_unfold (m : nat) (acc : list Elem) (s : state) :
  collect (S m) GenStart acc s =
  match rows_generator_body m s with
  | Ret r s1 =>
      match r.1 with
      | Some row => collect m r.2 (acc ++ [row]) s1
      | None => Ret acc s1
      end
  | Exc e s1 => Exc e s1
  | OutOfFuel => OutOfFuel
  end.
Proof.
  change (collect (S m) GenStart acc s)
    with ((r <- rows_generator_body m;;
           match r.1 with
           | Some row => collect m r.2 (acc ++ [row])
           | None => ret acc
           end) s).
  unfold bind. destruct (rows_generator_body m s) as [[[row|] g] s1|e s1|]; reflexivity.
Qed.

(** One page of the generator, when another page follows. *)
Lemma collect_start_more (k : nat) (acc cur : list Elem) (s s1 s2 : state)
    (r : outcome World Elem (list Elem)) :
  fetch_rows s = Ret cur s1 -> next_page s1 = Ret true s2 ->
  collect k GenStart (acc ++ cur) s2 = r -> r <> OutOfFuel ->
  exists m, collect m GenStart acc s = r.
Proof.
  intros Hf Hn Hk Hr. destruct k as [|k]; [by subst|].
  destruct cur as [|x rest].
  - exists (S (S k)). rewrite app_nil_r in Hk.
    rewrite collect_start_unfold in *.
    rewrite rows_generator_body_unfold, bind_run, Hf, bind_run, Hn.
    destruct (rows_generator_body k s2) as [[[row|] g] s0|e s0|]; cbn [fst snd] in *;
      try done.
    rewrite (collect_mono k (S k)); [done | lia | by rewrite Hk].
  - exists (S (S (length rest + k))).
    rewrite collect_start_unfold, rows_generator_body_unfold, bind_run, Hf.
    cbn [ret fst snd]. rewrite collect_yield.
    replace (S (length rest + k) - length rest) with (S k) by lia.
    rewrite collect_exhausted, bind_run, Hn. by rewrite <- app_assoc.
Qed.

(** One page of the generator, the last one. *)
Lemma collect_start_last (acc cur : list Elem) (s s1 s2 : state) :
  fetch_rows s = Ret cur s1 -> next_page s1 = Ret false s2 ->
  exists m, collect m GenStart acc s = Ret (acc ++ cur) s2.
Proof.
  intros Hf Hn. destruct cur as [|x rest].
  - exists 2.
    rewrite collect_start_unfold, rows_generator_body_unfold, bind_run, Hf, bind_run, Hn.
    by rewrite app_nil_r.
  - exists (S (S (length rest))).
    rewrite collect_start_unfold, rows_generator_body_unfold, bind_run, Hf.
    cbn [ret fst snd]. rewrite collect_yield.
    replace (S (length rest) - length rest) with 1 by lia.
    rewrite collect_exhausted, bind_run, Hn. by rewrite <- app_assoc.
Qed.

(** What the list returns, the generator yields. *)
Lemma eager_to_lazy (n : nat) (acc rows : list Elem) (s s' : state) :
  get_list_of_rows n (Some acc) s = Ret rows s' ->
  exists tail, rows = acc ++ tail /\
               forall acc0, exists m, collect m GenStart acc0 s = Ret (acc0 ++ tail) s'.
Proof.
  revert acc s. induction n as [|n IH]; intros acc s Hn; [discriminate|].
  rewrite get_list_of_rows_unfold, bind_run in Hn.
  destruct (fetch_rows s) as [cur s1|e s1|] eqn:Hf; [|discriminate..].
  rewrite bind_run in Hn.
  destruct (next_page s1) as [[|] s2|e s2|] eqn:Hp; [| |discriminate..].
  - destruct (IH _ _ Hn) as (tail & -> & Hm). exists (cur ++ tail).
    cbn [default]. split; [by rewrite app_assoc|]. intros acc0.
    destruct (Hm (acc0 ++ cur)) as [k Hk].
    destruct (collect_start_more k acc0 cur s s1 s2 _ Hf Hp Hk) as [m Hcm]; [done|].
    exists m. by rewrite Hcm, app_assoc.
  - injection Hn as <- <-. exists cur. split; [done|]. intros acc0.
    by apply (collect_start_last acc0 cur s s1 s2).
Qed.



(** A walk is what the list returns. *)
Lemma traverse_eager (s s' : state) (tail : list Elem) :
  traverse s tail s' ->
  exists n, forall acc, get_list_of_rows n (Some acc) s = Ret (acc ++ tail) s'.
Proof.
  induction 1 as [s cur s1 s2 Hf Hp|s cur s1 s2 tail s3 Hf Hp _ [n IH]].
  - exists 1. intros acc.
    by rewrite get_list_of_rows_unfold, bind_run, Hf, bind_run, Hp.
  - exists (S n). intros acc.
    rewrite get_list_of_rows_unfold, bind_run, Hf, bind_run, Hp. cbn [default].
    by rewrite IH, app_assoc.
Qed.



End Enumeration.

(* ===================================================================== *)
(** ** Column values: [_column_value] *)
(* ===================================================================== *)

Section ColumnValue.
Context `{Driver World Elem}.
Local Abbreviation state := (state World Elem).

(** With the table visible, [_column_value] looks the cell up in the row
    with the selector [column_selector] gives, and reads it: the stripped text
    for the status column, the [innerText] with its white space normalized for
    any other. Of the registry it changes the entry [temp_col] at most. *)
Lemma _column_value_run (self : AlertTable) (row : Elem) (column by_ v : string)
    (s : state) (c : Elem) (w1 : World) :
  locators s !! "table_container" = Some [by_; v] ->
  locators s !! "status_column" = Some [CSS_SELECTOR; STATUS_SELECTOR] ->
  until_visible by_ v DEFAULT_WAIT (msg_not_visible "table_container" by_ v) (world s)
    = (Ok c, w1) ->
  exists evs locs',
    (forall k, k <> "temp_col" -> locs' !! k = locators s !! k) /\
    clicks evs = [] /\
    _column_value self row column s =
    (cell <- observe (find_element row CSS_SELECTOR (column_selector (value self) column));;
     if String.eqb (normalize_column column) "status"
     then t <- observe (text cell);; ret (strip t)
     else get_element_text cell) (State w1 locs' (trace s ++ evs)).
Proof.
  intros Hc Hs Hw. unfold _column_value, column_selector, normalize_column.
  rewrite bind_run, log_run, bind_run.
  rewrite (wait_for_element_run "table_container" by_ v None _ (Ok c) w1) by done.
  cbn beta iota zeta. cbn [with_events world locators trace].
  destruct (String.eqb (replace_char " " "_" (lower column)) "status") eqn:Hcol.
  - unfold _find_element. rewrite !bind_assoc, bind_run.
    rewrite (get_locator_known "status_column" CSS_SELECTOR STATUS_SELECTOR) by done.
    unfold bind, ret, with_events. cbn [unpack2 fst snd world locators trace].
    rewrite <- !app_assoc. eexists _, (locators s). split; [done|]. split; [|reflexivity].
    reflexivity.
  - rewrite bind_run. unfold update_locaters at 1. rewrite bind_run, log_run.
    cbn [with_events world locators trace].
    unfold _find_element. rewrite !bind_assoc, bind_run.
    rewrite (get_locator_known "temp_col" CSS_SELECTOR
               (value self +:+ COLS_format (replace_char " " "_" (lower column)))).
    2:{ cbn [locators]. unfold dict_update.
        apply lookup_union_Some_l. apply lookup_insert_eq. }
    unfold bind, ret, with_events. cbn [unpack2 fst snd world locators trace].
    rewrite <- !app_assoc. eexists _, _. split; [|split; [|reflexivity]].
    + intros k Hk. unfold dict_update. rewrite lookup_union_r; [done|].
      cbn. by rewrite lookup_insert_ne.
    + reflexivity.
Qed.

End ColumnValue.

(* ===================================================================== *)
(** ** The methods on the paginated fixture *)
(* ===================================================================== *)

Section Fixture.
Local Abbreviation state := (state fworld felem).
Variables root col : string.

Lemma eqb_append_l (p a b : string) : String.eqb (p +:+ a) (p +:+ b) = String.eqb a b.
Proof.
  induction p as [|c p IH]; [reflexivity|].
  rewrite !append_cons. cbn [String.eqb]. by rewrite Ascii.eqb_refl.
Qed.

(** No cell selector is the selector of the status column. *)
Lemma cell_selector_not_status (column : string) :
  String.eqb (root +:+ COLS_format column) STATUS_SELECTOR = false.
Proof.
  apply String.eqb_neq. intros Heq.
  assert (Hin : str_contains " td.cell-" STATUS_SELECTOR = true).
  { apply str_contains_spec. exists root, column. by rewrite <- Heq. }
  discriminate Hin.
Qed.

(** [fstate] is the state the constructor leaves, but for its two log lines. *)
Lemma AlertTable_init_fixture (w : fworld) :
  exists evs,
    AlertTable_init w [("table", (None, root))]
    = Ret (ftable_self root) (with_events (fstate root w) evs).
Proof. eexists. reflexivity. Qed.

Lemma table_registry_init : table_registry root (ftable_locators root).
Proof. repeat split; reflexivity. Qed.

Lemma frows_app (base : nat) (a b : list string) :
  frows root col base (a ++ b) = frows root col base a ++ frows root col (base + length a) b.
Proof.
  revert base. induction a as [|x a IH]; intros base; cbn [frows app length].
  - by rewrite Nat.add_0_r.
  - rewrite IH. do 3 f_equal. lia.
Qed.


(** The fixture always shows a page of the table. *)
Lemma ftable_head (base : nat) (pages : list (list string)) :
  ftable root col base pages =
  ftable_page root col base (hd [] pages) (has_more pages)
    :: (if has_more pages then ftable root col (base + length (hd [] pages)) (tl pages)
        else []).
Proof. destruct pages as [|cur [|nxt later]]; reflexivity. Qed.

Lemma fmatches_container (base : nat) (rows : list string) (hn : bool) (later : fworld) :
  fmatches (container_selector root) (ftable_page root col base rows hn :: later)
  = [plain 0 EmptyString].
Proof. unfold fmatches, ftable_page. cbn [fp_elems assoc]. by rewrite String.eqb_refl. Qed.

Lemma fvisible_container (base : nat) (rows : list string) (hn : bool) (later : fworld) :
  fvisible (container_selector root) (ftable_page root col base rows hn :: later) = true.
Proof. unfold fvisible, ftable_page. cbn [fp_visible]. apply bool_decide_eq_true_2. set_solver. Qed.

Lemma fmatches_rows (base : nat) (rows : list string) (hn : bool) (later : fworld) :
  fmatches (root +:+ ROWS) (ftable_page root col base rows hn :: later)
  = frows root col base rows.
Proof.
  unfold fmatches, ftable_page, container_selector. cbn [fp_elems assoc].
  rewrite eqb_append_l. cbn [String.eqb Ascii.eqb Bool.eqb ROWS String.append dq].
  by rewrite String.eqb_refl.
Qed.

Lemma fmatches_pager (base : nat) (rows : list string) (hn : bool) (later : fworld) :
  fmatches (root +:+ SWITCH_PAGE) (ftable_page root col base rows hn :: later)
  = fpager hn.
Proof.
  unfold fmatches, ftable_page, container_selector. cbn [fp_elems assoc].
  rewrite !eqb_append_l.
  change (String.eqb _ SWITCH_PAGE) with false at 1.
  change (String.eqb ROWS SWITCH_PAGE) with false.
  by rewrite String.eqb_refl.
Qed.

Lemma at_page_events (base : nat) (pages : list (list string)) (s : state)
    (evs : list (event felem)) :
  at_page root col base pages s -> at_page root col base pages (with_events s evs).
Proof. by intros [Hw Hr]. Qed.

Lemma wait_container_fixture (base : nat) (pages : list (list string)) (s : state) :
  at_page root col base pages s ->
  exists evs, wait_for_element "table_container" None s
              = Ret (plain 0 EmptyString) (with_events s evs).
Proof.
  intros [Hw (Hc & _ & _ & _)].
  rewrite (wait_for_element_run "table_container" CSS_SELECTOR (container_selector root)
             None s (Ok (plain 0 EmptyString)) (world s)); [by eexists | done |].
  rewrite Hw, ftable_head. cbn [until_visible fixture_driver].
  by rewrite fmatches_container, fvisible_container.
Qed.

Lemma fetch_rows_fixture (base : nat) (pages : list (list string)) (s : state) :
  at_page root col base pages s ->
  exists evs, fetch_rows s = Ret (frows root col base (hd [] pages)) (with_events s evs).
Proof.
  intros Hat. destruct (wait_container_fixture base pages s Hat) as [evs Hwait].
  destruct Hat as [Hw (_ & Hr & _ & _)].
  unfold fetch_rows. rewrite bind_run, Hwait, bind_run.
  rewrite (get_locator_known "rows" CSS_SELECTOR (root +:+ ROWS)) by done.
  cbn [unpack2 ret]. rewrite bind_run. cbn [ret fst snd].
  unfold _find_elements, try_except, observe. cbn [with_events world].
  rewrite Hw, ftable_head. cbn [find_elements fixture_driver].
  rewrite fmatches_rows, !with_events_app. by eexists.
Qed.

Lemma next_page_fixture (base : nat) (pages : list (list string)) (s : state) :
  at_page root col base pages s ->
  exists s1,
    next_page s = Ret (has_more pages) s1 /\
    if has_more pages
    then at_page root col (base + length (hd [] pages)) (tl pages) s1
    else at_page root col base pages s1.
Proof.
  intros [Hw (Hc & Hr & Hp & Hs)].
  destruct (next_page_run s CSS_SELECTOR (container_selector root)
              CSS_SELECTOR (root +:+ SWITCH_PAGE) (plain 0 EmptyString) (world s)
              (fpager (has_more pages))) as (evs0 & _ & Hrun); [done | done | | |].
  { rewrite Hw, ftable_head. cbn [until_visible fixture_driver].
    by rewrite fmatches_container, fvisible_container. }
  { cbn [sleep find_elements fixture_driver]. rewrite Hw, ftable_head.
    by rewrite fmatches_pager. }
  cbn [sleep fixture_driver] in Hrun. cbn zeta in Hrun.
  set (s1 := State (world s) (locators s) (trace s ++ evs0)) in *.
  set (nx := FElem 2 "Next" (Some "Next") None true (has_more pages)
                   (if has_more pages then ClickNextPage else ClickNothing) []
                   (TextNode "Next")).
  assert (Hloop : next_page s = next_page_loop [nx] (plain 1 "1") s1).
  { rewrite Hrun. unfold fpager. fold nx.
    change [plain 1 "1"; nx] with ([plain 1 "1"] ++ [nx]).
    rewrite next_page_loop_skip; [reflexivity|].
    constructor; [|constructor]. exists "1". split; [reflexivity | discriminate]. }
  assert (Hnext : is_next (world s1) nx) by (exists "Next"; split; reflexivity).
  destruct (next_page_loop_at_next nx [] (plain 1 "1") s1 Hnext) as (Ht & _ & Hno).
  rewrite Hloop. destruct (has_more pages) eqn:Hm.
  - destruct (Ht (ftable root col (base + length (hd [] pages)) (tl pages)))
      as (evs & -> & _).
    + split; reflexivity.
    + cbn [click fixture_driver s1 world]. rewrite Hw, ftable_head, Hm.
      unfold fclick, nx. cbn [fe_click].
      destruct pages as [|cur [|nxt later]]; [discriminate..|]. cbn [hd tl].
      by rewrite (ftable_head _ (nxt :: later)).
    + eexists. split; [reflexivity|]. split; [reflexivity | done].
  - destruct Hno as (evs & -> & _).
    + intros [_ He]. discriminate He.
    + eexists. split; [reflexivity|]. split; [exact Hw | done].
Qed.

Lemma at_page_same (base : nat) (pages : list (list string)) (s s1 : state) :
  at_page root col base pages s ->
  world s1 = world s -> table_registry root (locators s1) ->
  at_page root col base pages s1.
Proof. intros [Hw _] Hw1 Hr1. split; [congruence | done]. Qed.

(** A row of the fixture has its text in the column [col], and that is all
    [_column_value] changes: the registry entry [temp_col]. *)
Lemma _column_value_fixture (column : string) (base : nat) (pages : list (list string))
    (s : state) (id : nat) (inner : string) :
  normalize_column column = col ->
  at_page root col base pages s ->
  exists s1,
    _column_value (ftable_self root) (frow root col id inner) column s
    = Ret (column_text col inner) s1 /\
    world s1 = world s /\ table_registry root (locators s1).
Proof.
  intros Hcol [Hw (Hc & Hr & Hp & Hs)].
  destruct (_column_value_run (ftable_self root) (frow root col id inner) column
              CSS_SELECTOR (container_selector root) s (plain 0 EmptyString) (world s))
    as (evs & locs' & Hlocs & _ & ->); [done | done | |].
  { rewrite Hw, ftable_head. cbn [until_visible fixture_driver].
    by rewrite fmatches_container, fvisible_container. }
  assert (Hreg : table_registry root locs').
  { unfold table_registry. rewrite !Hlocs by discriminate. done. }
  unfold column_selector, column_text. fold (normalize_column column). rewrite Hcol.
  rewrite bind_run. unfold observe at 1. cbn [find_element fixture_driver].
  unfold frow at 1. cbn [fe_children assoc value ftable_self].
  destruct (String.eqb col "status") eqn:Hstatus.
  - rewrite cell_selector_not_status. cbn [String.eqb Ascii.eqb Bool.eqb].
    rewrite String.eqb_refl. eexists. split; [reflexivity|]. by split.
  - rewrite String.eqb_refl, get_element_text_run.
    eexists. split; [reflexivity|]. by split.
Qed.

Lemma stream_inv_mono (k k' : nat) (g : rows_generator) (s : state) (b : nat)
    (items : list string) :
  k <= k' -> stream_inv root col k g s b items -> stream_inv root col k' g s b items.
Proof.
  intros Hle [Hr [(pages & ? & ? & ? & ?)|(rem & later & base & cur & ? & ? & ? & ? & ?)]];
    (split; [done|]).
  - left. exists pages. repeat split; try done. lia.
  - right. exists rem, later, base, cur. repeat split; try done. lia.
Qed.

Lemma stream_inv_at_page (k : nat) (g : rows_generator) (s : state) (b : nat)
    (items : list string) :
  stream_inv root col k g s b items -> exists base pages, at_page root col base pages s.
Proof.
  intros [Hr [(pages & ? & ? & ? & ?)|(rem & later & base & cur & ? & ? & ? & ? & ?)]].
  - by exists b, pages.
  - by exists base, (cur :: later).
Qed.

Lemma stream_inv_same (k : nat) (g : rows_generator) (s s1 : state) (b : nat)
    (items : list string) :
  stream_inv root col k g s b items ->
  world s1 = world s -> table_registry root (locators s1) ->
  stream_inv root col k g s1 b items.
Proof.
  intros [_ Hg] Hw Hr. split; [done|]. by rewrite Hw.
Qed.

(** The body of the generator on the fixture: it turns the empty pages and
    stops at the first row, or at the end of the table. *)
Lemma rows_generator_body_fixture (pages : list (list string)) :
  forall (k fuel b : nat) (s : state),
    at_page root col b pages s -> length pages <= k -> k < fuel ->
    match concat pages with
    | x :: xs =>
        exists g' s',
          rows_generator_body fuel s = Ret (Some (frow root col (10 * S b) x), g') s' /\
          stream_inv root col k g' s' (S b) xs
    | [] =>
        exists s', rows_generator_body fuel s = Ret (None, GenDone) s' /\
                   table_registry root (locators s')
    end.
Proof.
  induction pages as [|cur later IH]; intros k fuel b s Hat Hk Hfuel.
  - destruct fuel as [|fuel]; [lia|]. cbn [concat].
    rewrite rows_generator_body_unfold, bind_run.
    destruct (fetch_rows_fixture b [] s Hat) as [evs ->]. cbn [hd frows].
    rewrite bind_run.
    destruct (next_page_fixture b [] (with_events s evs)) as (s1 & -> & Hat1);
      [by apply at_page_events|].
    cbn [has_more] in *. eexists. split; [reflexivity|]. apply Hat1.
  - destruct fuel as [|fuel]; [lia|].
    rewrite rows_generator_body_unfold, bind_run.
    destruct (fetch_rows_fixture b (cur :: later) s Hat) as [evs ->]. cbn [hd].
    destruct cur as [|x rem].
    + cbn [concat app frows]. rewrite bind_run.
      destruct (next_page_fixture b ([] :: later) (with_events s evs)) as (s1 & -> & Hat1);
        [by apply at_page_events|].
      destruct later as [|nxt later'].
      * cbn [has_more concat] in *. eexists. split; [reflexivity|]. apply Hat1.
      * cbn [has_more hd tl length] in Hat1. rewrite Nat.add_0_r in Hat1.
        cbn [has_more]. cbn [length] in Hk.
        specialize (IH (k - 1) fuel b s1 Hat1 ltac:(cbn [length]; lia) ltac:(lia)).
        destruct (concat (nxt :: later')) as [|x xs].
        -- exact IH.
        -- destruct IH as (g' & s' & -> & Hinv). exists g', s'. split; [done|].
           apply (stream_inv_mono (k - 1)); [lia | done].
    + cbn [concat frows ret]. eexists _, _. split; [reflexivity|].
      destruct Hat as [Hw Hr]. split; [done|]. right.
      exists rem, later, b, (x :: rem). cbn [length] in *.
      split; [done|]. split; [exact Hw|]. split; [lia|]. split; [done | lia].
Qed.

(** One [next] on the fixture when a row is still to come. *)
Lemma rows_generator_next_fixture (k fuel b : nat) (g : rows_generator) (s : state)
    (x : string) (xs : list string) :
  stream_inv root col k g s b (x :: xs) -> k < fuel ->
  exists g' s',
    rows_generator_next fuel g s = Ret (Some (frow root col (10 * S b) x), g') s' /\
    stream_inv root col k g' s' (S b) xs.
Proof.
  intros [Hr [(pages & -> & Hw & Hitems & Hk)
             |(rem & later & base & cur & -> & Hw & Hb & Hitems & Hk)]] Hfuel.
  - cbn [rows_generator_next].
    pose proof (rows_generator_body_fixture pages k fuel b s (conj Hw Hr) Hk Hfuel) as Hbody.
    by rewrite <- Hitems in Hbody.
  - destruct rem as [|y rem].
    + cbn [frows rows_generator_next app] in *. rewrite bind_run.
      destruct (next_page_fixture base (cur :: later) s (conj Hw Hr)) as (s1 & -> & Hat1).
      destruct later as [|nxt later']; [discriminate|].
      cbn [has_more hd tl] in *. cbn [length] in Hb.
      replace (base + length cur) with b in Hat1 by lia.
      pose proof (rows_generator_body_fixture (nxt :: later') k fuel b s1 Hat1 Hk Hfuel)
        as Hbody.
      by rewrite <- Hitems in Hbody.
    + cbn [frows rows_generator_next app ret] in *. injection Hitems as <- ->.
      eexists _, _. split; [reflexivity|]. split; [done|]. right.
      exists rem, later, base, cur. cbn [length] in Hb.
      split; [done|]. split; [exact Hw|]. split; [lia|]. split; [done | lia].
Qed.

(** One [next] on the fixture when no row is left. *)
Lemma rows_generator_next_fixture_end (k fuel b : nat) (g : rows_generator) (s : state) :
  stream_inv root col k g s b [] -> k < fuel ->
  exists s', rows_generator_next fuel g s = Ret (None, GenDone) s'.
Proof.
  intros [Hr [(pages & -> & Hw & Hitems & Hk)
             |(rem & later & base & cur & -> & Hw & Hb & Hitems & Hk)]] Hfuel.
  - cbn [rows_generator_next].
    pose proof (rows_generator_body_fixture pages k fuel b s (conj Hw Hr) Hk Hfuel) as Hbody.
    rewrite <- Hitems in Hbody. destruct Hbody as (s' & -> & _). by eexists.
  - symmetry in Hitems. apply app_eq_nil in Hitems as [-> Hlater].
    cbn [frows rows_generator_next]. rewrite bind_run.
    destruct (next_page_fixture base (cur :: later) s (conj Hw Hr)) as (s1 & -> & Hat1).
    destruct later as [|nxt later']; [by eexists|].
    cbn [has_more hd tl] in *.
    pose proof (rows_generator_body_fixture (nxt :: later') k fuel _ s1 Hat1 Hk Hfuel)
      as Hbody.
    rewrite Hlater in Hbody. destruct Hbody as (s' & -> & _). by eexists.
Qed.

Lemma row_matches_test (is_search : bool) (value_ t : string) :
  (if is_search then str_contains value_ t else String.eqb t value_) = true
  <-> row_matches is_search value_ t.
Proof.
  unfold row_matches. destruct is_search.
  - apply str_contains_spec.
  - apply String.eqb_eq.
Qed.

(** One turn of the loop of [get_row] on a row of the fixture. *)
Lemma get_row_loop_step (k fuel b : nat) (g : rows_generator) (s : state)
    (value_ column : string) (is_search : bool) (x : string) (xs : list string) :
  normalize_column column = col ->
  stream_inv root col k g s b (x :: xs) -> k < fuel ->
  exists g' s',
    stream_inv root col k g' s' (S b) xs /\
    get_row_loop (S fuel) (ftable_self root) g value_ column is_search s =
    if (if is_search then str_contains value_ (column_text col x)
        else String.eqb (column_text col x) value_)
    then Ret (frow root col (10 * S b) x) s'
    else get_row_loop fuel (ftable_self root) g' value_ column is_search s'.
Proof.
  intros Hcol Hinv Hfuel.
  destruct (rows_generator_next_fixture k fuel b g s x xs Hinv Hfuel)
    as (g' & s1 & Hnext & Hinv1).
  destruct (stream_inv_at_page _ _ _ _ _ Hinv1) as (base & pages & Hat1).
  cbn [get_row_loop]. rewrite bind_run, Hnext. cbn [fst snd].
  destruct is_search.
  - rewrite bind_run, log_run, bind_run.
    destruct (_column_value_fixture column base pages
                (with_events s1 [EvLog INFO (Fmt "For Search" [])])
                (10 * S b) x Hcol) as (s2 & -> & Hw2 & Hr2);
      [by apply at_page_events|].
    exists g', s2. split; [by apply (stream_inv_same k g' s1)|].
    by destruct (str_contains value_ (column_text col x)).
  - rewrite bind_run.
    destruct (_column_value_fixture column base pages s1 (10 * S b) x Hcol Hat1)
      as (s2 & -> & Hw2 & Hr2).
    exists g', s2. split; [by apply (stream_inv_same k g' s1)|].
    by destruct (String.eqb (column_text col x) value_).
Qed.


(** The loop of [get_row] on the fixture raises when no row passes. *)
Lemma get_row_loop_fixture_none (value_ column : string) (is_search : bool)
    (items : list string) :
  normalize_column column = col ->
  Forall (fun x => ~ row_matches is_search value_ (column_text col x)) items ->
  forall (k fuel b : nat) (g : rows_generator) (s : state),
    stream_inv root col k g s b items ->
    length items + k + 1 < fuel ->
    exists s', get_row_loop fuel (ftable_self root) g value_ column is_search s
               = Exc (ValueError (Fmt "{} row not found in table" [AStr value_])) s'.
Proof.
  intros Hcol Hitems.
  induction Hitems as [|x items Hx Hitems IH]; intros k fuel b g s Hinv Hfuel;
    (destruct fuel as [|fuel]; [lia|]); cbn [app length] in *.
  - destruct (rows_generator_next_fixture_end k fuel b g s Hinv ltac:(lia)) as (s' & Hend).
    cbn [get_row_loop]. rewrite bind_run, Hend. by exists s'.
  - destruct (get_row_loop_step k fuel b g s value_ column is_search x items
                Hcol Hinv ltac:(lia)) as (g' & s' & Hinv' & ->).
    destruct (if is_search then str_contains value_ (column_text col x)
              else String.eqb (column_text col x) value_) eqn:Htest.
    + by apply row_matches_test in Htest.
    + apply (IH k fuel (S b) g' s' Hinv'). lia.
Qed.

(** [get_row] on the table as the constructor leaves it. *)
Lemma get_row_start (fuel : nat) (value_ column : string) (is_search : bool)
    (pages : list (list string)) :
  exists s1,
    stream_inv root col (length pages) GenStart s1 0 (concat pages) /\
    get_row fuel (ftable_self root) value_ column is_search
            (fstate root (ftable root col 0 pages))
    = get_row_loop fuel (ftable_self root) GenStart value_ column is_search s1.
Proof.
  assert (Hat : at_page root col 0 pages (fstate root (ftable root col 0 pages))).
  { split; [reflexivity | apply table_registry_init]. }
  destruct (wait_container_fixture 0 pages _ Hat) as [evs Hwait].
  eexists. split; [|unfold get_row; by rewrite bind_run, Hwait].
  split; [apply table_registry_init|]. left. by exists pages.
Qed.

(** The walk over the whole fixture meets every row, page after page. *)
Lemma traverse_fixture (pages : list (list string)) :
  forall (b : nat) (s : state),
    at_page root col b pages s ->
    exists s', traverse s (frows root col b (concat pages)) s' /\
               table_registry root (locators s').
Proof.
  induction pages as [|cur later IH]; intros b s Hat.
  - destruct (fetch_rows_fixture b [] s Hat) as [evs Hf].
    destruct (next_page_fixture b [] (with_events s evs)) as (s1 & Hn & Hat1);
      [by apply at_page_events|].
    exists s1. split; [|apply Hat1]. by apply (traverse_last s [] (with_events s evs) s1).
  - destruct (fetch_rows_fixture b (cur :: later) s Hat) as [evs Hf].
    destruct (next_page_fixture b (cur :: later) (with_events s evs)) as (s1 & Hn & Hat1);
      [by apply at_page_events|].
    cbn [hd concat] in *. rewrite frows_app.
    destruct later as [|nxt later'].
    + cbn [has_more concat frows] in *. rewrite app_nil_r.
      exists s1. split; [|apply Hat1].
      by apply (traverse_last s _ (with_events s evs) s1).
    + cbn [has_more tl] in *.
      destruct (IH _ s1 Hat1) as (s' & Ht & Hr'). exists s'. split; [|done].
      by apply (traverse_more s _ (with_events s evs) s1 _ s').
Qed.

End Fixture.

(* ===================================================================== *)
(** ** The methods on a paginated table of any rows *)
(* ===================================================================== *)

Section ColumnReads.
Context `{Driver World Elem}.
Local Abbreviation state := (state World Elem).

(** With the table visible, [_column_value] returns what the row reads in
    the column. *)
Lemma _column_value_reads (self : AlertTable) (row : Elem) (column by_ v t : string)
    (s : state) (c : Elem) (w1 : World) :
  locators s !! "table_container" = Some [by_; v] ->
  locators s !! "status_column" = Some [CSS_SELECTOR; STATUS_SELECTOR] ->
  until_visible by_ v DEFAULT_WAIT (msg_not_visible "table_container" by_ v) (world s)
    = (Ok c, w1) ->
  column_reads (value self) column row w1 t ->
  exists evs locs',
    (forall k, k <> "temp_col" -> locs' !! k = locators s !! k) /\
    _column_value self row column s = Ret t (State w1 locs' (trace s ++ evs)).
Proof.
  intros Hc Hs Hw (cell & Hcell & Hread).
  destruct (_column_value_run self row column by_ v s c w1 Hc Hs Hw)
    as (evs & locs' & Hlocs & _ & ->).
  exists evs, locs'. split; [done|].
  rewrite bind_run. unfold observe at 1. cbn [world]. rewrite Hcell.
  destruct (String.eqb (normalize_column column) "status").
  - destruct Hread as (raw & Hraw & ->).
    rewrite bind_run. unfold observe. cbn [world]. by rewrite Hraw.
  - rewrite get_element_text_run. cbn [world]. by rewrite Hread.
Qed.

End ColumnReads.

Section GridFixture.
Local Abbreviation state := (state fworld felem).
Variable root : string.

(** What an element of the fixture reads does not depend on the page shown. *)
Lemma column_reads_fixture (column : string) (row : felem) (w w' : fworld) (t : string) :
  column_reads root column row w t -> column_reads root column row w' t.
Proof. intros Hr. exact Hr. Qed.

(** The fixture always shows a page of the table. *)
Lemma fgrid_head (pages : list (list felem)) :
  fgrid root pages =
  fgrid_page root (hd [] pages) (more_pages pages)
    :: (if more_pages pages then fgrid root (tl pages) else []).
Proof. destruct pages as [|cur [|nxt later]]; reflexivity. Qed.

Lemma fmatches_container_grid (rows : list felem) (hn : bool) (later : fworld) :
  fmatches (container_selector root) (fgrid_page root rows hn :: later)
  = [plain 0 EmptyString].
Proof. unfold fmatches, fgrid_page. cbn [fp_elems assoc]. by rewrite String.eqb_refl. Qed.

Lemma fvisible_container_grid (rows : list felem) (hn : bool) (later : fworld) :
  fvisible (container_selector root) (fgrid_page root rows hn :: later) = true.
Proof. unfold fvisible, fgrid_page. cbn [fp_visible]. apply bool_decide_eq_true_2. set_solver. Qed.

Lemma fmatches_rows_grid (rows : list felem) (hn : bool) (later : fworld) :
  fmatches (root +:+ ROWS) (fgrid_page root rows hn :: later) = rows.
Proof.
  unfold fmatches, fgrid_page, container_selector. cbn [fp_elems assoc].
  rewrite eqb_append_l. cbn [String.eqb Ascii.eqb Bool.eqb ROWS String.append dq].
  by rewrite String.eqb_refl.
Qed.

Lemma fmatches_pager_grid (rows : list felem) (hn : bool) (later : fworld) :
  fmatches (root +:+ SWITCH_PAGE) (fgrid_page root rows hn :: later) = fpager hn.
Proof.
  unfold fmatches, fgrid_page, container_selector. cbn [fp_elems assoc].
  rewrite !eqb_append_l.
  change (String.eqb _ SWITCH_PAGE) with false at 1.
  change (String.eqb ROWS SWITCH_PAGE) with false.
  by rewrite String.eqb_refl.
Qed.

Lemma at_grid_events (pages : list (list felem)) (s : state) (evs : list (event felem)) :
  at_grid root pages s -> at_grid root pages (with_events s evs).
Proof. by intros [Hw Hr]. Qed.

Lemma until_visible_grid (pages : list (list felem)) (s : state) :
  at_grid root pages s ->
  until_visible CSS_SELECTOR (container_selector root) DEFAULT_WAIT
                (msg_not_visible "table_container" CSS_SELECTOR (container_selector root))
                (world s)
  = (Ok (plain 0 EmptyString), world s).
Proof.
  intros [Hw _]. rewrite Hw, fgrid_head. cbn [until_visible fixture_driver].
  by rewrite fmatches_container_grid, fvisible_container_grid.
Qed.

Lemma wait_container_grid (pages : list (list felem)) (s : state) :
  at_grid root pages s ->
  exists evs, wait_for_element "table_container" None s
              = Ret (plain 0 EmptyString) (with_events s evs).
Proof.
  intros Hat. pose proof (until_visible_grid pages s Hat) as Hv.
  destruct Hat as [Hw (Hc & _ & _ & _)].
  rewrite (wait_for_element_run "table_container" CSS_SELECTOR (container_selector root)
             None s (Ok (plain 0 EmptyString)) (world s)); [by eexists | done | done].
Qed.

Lemma fetch_rows_grid (pages : list (list felem)) (s : state) :
  at_grid root pages s ->
  exists evs, fetch_rows s = Ret (hd [] pages) (with_events s evs).
Proof.
  intros Hat. destruct (wait_container_grid pages s Hat) as [evs Hwait].
  destruct Hat as [Hw (_ & Hr & _ & _)].
  unfold fetch_rows. rewrite bind_run, Hwait, bind_run.
  rewrite (get_locator_known "rows" CSS_SELECTOR (root +:+ ROWS)) by done.
  cbn [unpack2 ret]. rewrite bind_run. cbn [ret fst snd].
  unfold _find_elements, try_except, observe. cbn [with_events world].
  rewrite Hw, fgrid_head. cbn [find_elements fixture_driver].
  rewrite fmatches_rows_grid, !with_events_app. by eexists.
Qed.

Lemma next_page_grid (pages : list (list felem)) (s : state) :
  at_grid root pages s ->
  exists s1,
    next_page s = Ret (more_pages pages) s1 /\
    at_grid root (if more_pages pages then tl pages else pages) s1.
Proof.
  intros Hat. pose proof (until_visible_grid pages s Hat) as Hv.
  destruct Hat as [Hw (Hc & Hr & Hp & Hs)].
  destruct (next_page_run s CSS_SELECTOR (container_selector root)
              CSS_SELECTOR (root +:+ SWITCH_PAGE) (plain 0 EmptyString) (world s)
              (fpager (more_pages pages))) as (evs0 & _ & Hrun); [done | done | done | |].
  { cbn [sleep find_elements fixture_driver]. rewrite Hw, fgrid_head.
    by rewrite fmatches_pager_grid. }
  cbn [sleep fixture_driver] in Hrun. cbn zeta in Hrun.
  set (s1 := State (world s) (locators s) (trace s ++ evs0)) in *.
  set (nx := FElem 2 "Next" (Some "Next") None true (more_pages pages)
                   (if more_pages pages then ClickNextPage else ClickNothing) []
                   (TextNode "Next")).
  assert (Hloop : next_page s = next_page_loop [nx] (plain 1 "1") s1).
  { rewrite Hrun. unfold fpager. fold nx.
    change [plain 1 "1"; nx] with ([plain 1 "1"] ++ [nx]).
    rewrite next_page_loop_skip; [reflexivity|].
    constructor; [|constructor]. exists "1". split; [reflexivity | discriminate]. }
  assert (Hnext : is_next (world s1) nx) by (exists "Next"; split; reflexivity).
  destruct (next_page_loop_at_next nx [] (plain 1 "1") s1 Hnext) as (Ht & _ & Hno).
  rewrite Hloop. destruct (more_pages pages) eqn:Hm.
  - destruct (Ht (fgrid root (tl pages))) as (evs & -> & _).
    + split; reflexivity.
    + cbn [click fixture_driver s1 world]. rewrite Hw, fgrid_head, Hm.
      unfold fclick, nx. cbn [fe_click].
      destruct pages as [|cur [|nxt later]]; [discriminate..|]. cbn [hd tl].
      by rewrite (fgrid_head (nxt :: later)).
    + eexists. split; [reflexivity|]. split; [reflexivity | done].
  - destruct Hno as (evs & -> & _).
    + intros [_ He]. discriminate He.
    + eexists. split; [reflexivity|]. split; [exact Hw | done].
Qed.

(** On the fixture [_column_value] returns what the row reads in the column,
    and changes the registry entry [temp_col] at most. *)
Lemma _column_value_grid (column : string) (pages : list (list felem)) (s : state)
    (row : felem) (w : fworld) (t : string) :
  at_grid root pages s ->
  column_reads root column row w t ->
  exists s1,
    _column_value (ftable_self root) row column s = Ret t s1 /\
    world s1 = world s /\ table_registry root (locators s1).
Proof.
  intros Hat Hread. pose proof (until_visible_grid pages s Hat) as Hv.
  destruct Hat as [Hw (Hc & Hr & Hp & Hs)].
  destruct (_column_value_reads (ftable_self root) row column CSS_SELECTOR
              (container_selector root) t s (plain 0 EmptyString) (world s))
    as (evs & locs' & Hlocs & ->); [done | done | done | |].
  { by apply (column_reads_fixture column row w). }
  eexists. split; [reflexivity|]. split; [reflexivity|].
  unfold table_registry. cbn [locators]. rewrite !Hlocs by discriminate. done.
Qed.

Lemma grid_inv_mono (k k' : nat) (g : rows_generator) (s : state) (items : list felem) :
  k <= k' -> grid_inv root k g s items -> grid_inv root k' g s items.
Proof.
  intros Hle [Hr [(pages & ? & ? & ? & ?)|(rem & later & cur & ? & ? & ? & ?)]];
    (split; [done|]).
  - left. exists pages. repeat split; try done. lia.
  - right. exists rem, later, cur. repeat split; try done. lia.
Qed.

Lemma grid_inv_at_grid (k : nat) (g : rows_generator) (s : state) (items : list felem) :
  grid_inv root k g s items -> exists pages, at_grid root pages s.
Proof.
  intros [Hr [(pages & ? & ? & ? & ?)|(rem & later & cur & ? & ? & ? & ?)]].
  - by exists pages.
  - by exists (cur :: later).
Qed.

Lemma grid_inv_same (k : nat) (g : rows_generator) (s s1 : state) (items : list felem) :
  grid_inv root k g s items ->
  world s1 = world s -> table_registry root (locators s1) ->
  grid_inv root k g s1 items.
Proof. intros [_ Hg] Hw Hr. split; [done|]. by rewrite Hw. Qed.

(** The body of the generator on the fixture: it turns the empty pages and
    stops at the first row, or at the end of the table. *)
Lemma rows_generator_body_grid (pages : list (list felem)) :
  forall (k fuel : nat) (s : state),
    at_grid root pages s -> length pages <= k -> k < fuel ->
    match concat pages with
    | x :: xs =>
        exists g' s',
          rows_generator_body fuel s = Ret (Some x, g') s' /\ grid_inv root k g' s' xs
    | [] =>
        exists s', rows_generator_body fuel s = Ret (None, GenDone) s' /\
                   table_registry root (locators s')
    end.
Proof.
  induction pages as [|cur later IH]; intros k fuel s Hat Hk Hfuel.
  - destruct fuel as [|fuel]; [lia|]. cbn [concat].
    rewrite rows_generator_body_unfold, bind_run.
    destruct (fetch_rows_grid [] s Hat) as [evs ->]. cbn [hd].
    rewrite bind_run.
    destruct (next_page_grid [] (with_events s evs)) as (s1 & -> & Hat1);
      [by apply at_grid_events|].
    cbn [more_pages] in *. eexists. split; [reflexivity|]. apply Hat1.
  - destruct fuel as [|fuel]; [lia|].
    rewrite rows_generator_body_unfold, bind_run.
    destruct (fetch_rows_grid (cur :: later) s Hat) as [evs ->]. cbn [hd].
    destruct cur as [|x rem].
    + cbn [concat app]. rewrite bind_run.
      destruct (next_page_grid ([] :: later) (with_events s evs)) as (s1 & -> & Hat1);
        [by apply at_grid_events|].
      destruct later as [|nxt later'].
      * cbn [more_pages concat] in *. eexists. split; [reflexivity|]. apply Hat1.
      * cbn [more_pages tl] in Hat1. cbn [more_pages]. cbn [length] in Hk.
        specialize (IH (k - 1) fuel s1 Hat1 ltac:(cbn [length]; lia) ltac:(lia)).
        destruct (concat (nxt :: later')) as [|x xs].
        -- exact IH.
        -- destruct IH as (g' & s' & -> & Hinv). exists g', s'. split; [done|].
           apply (grid_inv_mono (k - 1)); [lia | done].
    + cbn [concat ret]. eexists _, _. split; [reflexivity|].
      destruct Hat as [Hw Hr]. split; [done|]. right.
      exists rem, later, (x :: rem). cbn [length] in *.
      split; [done|]. split; [exact Hw|]. split; [done | lia].
Qed.

(** One [next] on the fixture when a row is still to come. *)
Lemma rows_generator_next_grid (k fuel : nat) (g : rows_generator) (s : state)
    (x : felem) (xs : list felem) :
  grid_inv root k g s (x :: xs) -> k < fuel ->
  exists g' s',
    rows_generator_next fuel g s = Ret (Some x, g') s' /\ grid_inv root k g' s' xs.
Proof.
  intros [Hr [(pages & -> & Hw & Hitems & Hk)
             |(rem & later & cur & -> & Hw & Hitems & Hk)]] Hfuel.
  - cbn [rows_generator_next].
    pose proof (rows_generator_body_grid pages k fuel s (conj Hw Hr) Hk Hfuel) as Hbody.
    by rewrite <- Hitems in Hbody.
  - destruct rem as [|y rem].
    + cbn [rows_generator_next app] in *. rewrite bind_run.
      destruct (next_page_grid (cur :: later) s (conj Hw Hr)) as (s1 & -> & Hat1).
      destruct later as [|nxt later']; [discriminate|].
      cbn [more_pages tl] in *.
      pose proof (rows_generator_body_grid (nxt :: later') k fuel s1 Hat1 Hk Hfuel)
        as Hbody.
      by rewrite <- Hitems in Hbody.
    + cbn [rows_generator_next app ret] in *. injection Hitems as <- ->.
      eexists _, _. split; [reflexivity|]. split; [done|]. right.
      exists rem, later, cur. split; [done|]. split; [exact Hw|]. split; [done | lia].
Qed.


(** One turn of the loop of [get_row] on a row of the fixture. *)
Lemma get_row_loop_step_grid (k fuel : nat) (g : rows_generator) (s : state)
    (value_ column : string) (is_search : bool) (x : felem) (xs : list felem)
    (w : fworld) (t : string) :
  column_reads root column x w t ->
  grid_inv root k g s (x :: xs) -> k < fuel ->
  exists g' s',
    grid_inv root k g' s' xs /\
    get_row_loop (S fuel) (ftable_self root) g value_ column is_search s =
    if (if is_search then str_contains value_ t else String.eqb t value_)
    then Ret x s'
    else get_row_loop fuel (ftable_self root) g' value_ column is_search s'.
Proof.
  intros Hread Hinv Hfuel.
  destruct (rows_generator_next_grid k fuel g s x xs Hinv Hfuel)
    as (g' & s1 & Hnext & Hinv1).
  destruct (grid_inv_at_grid _ _ _ _ Hinv1) as (pages & Hat1).
  cbn [get_row_loop]. rewrite bind_run, Hnext. cbn [fst snd].
  destruct is_search.
  - rewrite bind_run, log_run, bind_run.
    destruct (_column_value_grid column pages
                (with_events s1 [EvLog INFO (Fmt "For Search" [])]) x w t)
      as (s2 & -> & Hw2 & Hr2); [by apply at_grid_events | done|].
    exists g', s2. split; [by apply (grid_inv_same k g' s1)|].
    by destruct (str_contains value_ t).
  - rewrite bind_run.
    destruct (_column_value_grid column pages s1 x w t Hat1 Hread)
      as (s2 & -> & Hw2 & Hr2).
    exists g', s2. split; [by apply (grid_inv_same k g' s1)|].
    by destruct (String.eqb t value_).
Qed.

(** The loop of [get_row] on the fixture returns the first row that passes
    its test, and leaves a page of the table on the screen. *)
Lemma get_row_loop_grid (value_ column : string) (is_search : bool) (w : fworld)
    (pre post : list felem) (texts : list string) (r : felem) (t : string) :
  Forall2 (fun row x => column_reads root column row w x) pre texts ->
  Forall (fun x => ~ row_matches is_search value_ x) texts ->
  column_reads root column r w t ->
  row_matches is_search value_ t ->
  forall (k fuel : nat) (g : rows_generator) (s : state),
    grid_inv root k g s (pre ++ r :: post) ->
    length pre + k + 1 < fuel ->
    exists s' pages',
      get_row_loop fuel (ftable_self root) g value_ column is_search s = Ret r s' /\
      at_grid root pages' s'.
Proof.
  intros Hpre. revert Hpre.
  induction 1 as [|x tx pre texts Hx _ IH]; intros Hno Hr Hm k fuel g s Hinv Hfuel;
    (destruct fuel as [|fuel]; [lia|]); cbn [app length] in *.
  - destruct (get_row_loop_step_grid k fuel g s value_ column is_search r post w t
                Hr Hinv ltac:(lia)) as (g' & s' & Hinv' & ->).
    apply row_matches_test in Hm. rewrite Hm.
    destruct (grid_inv_at_grid _ _ _ _ Hinv') as (pages' & Hat). by exists s', pages'.
  - inversion Hno as [|? ? Htx Hno']; subst.
    destruct (get_row_loop_step_grid k fuel g s value_ column is_search x
                (pre ++ r :: post) w tx Hx Hinv ltac:(lia)) as (g' & s' & Hinv' & ->).
    destruct (if is_search then str_contains value_ tx else String.eqb tx value_) eqn:Htest.
    + by apply row_matches_test in Htest.
    + apply (IH Hno' Hr Hm k fuel g' s' Hinv'). lia.
Qed.

(** [get_row] on the table as the constructor leaves it. *)
Lemma get_row_start_grid (fuel : nat) (value_ column : string) (is_search : bool)
    (pages : list (list felem)) :
  exists s1,
    grid_inv root (length pages) GenStart s1 (concat pages) /\
    get_row fuel (ftable_self root) value_ column is_search (fstate root (fgrid root pages))
    = get_row_loop fuel (ftable_self root) GenStart value_ column is_search s1.
Proof.
  assert (Hat : at_grid root pages (fstate root (fgrid root pages))).
  { split; [reflexivity | apply table_registry_init]. }
  destruct (wait_container_grid pages _ Hat) as [evs Hwait].
  eexists. split; [|unfold get_row; by rewrite bind_run, Hwait].
  split; [apply table_registry_init|]. left. by exists pages.
Qed.


End GridFixture.

(* ===================================================================== *)
(** ** Row lookup: [get_row] *)
(* ===================================================================== *)

(** C4: on every paginated table, whatever its rows hold, [get_row] returns
    the first row, in the order of the pages, whose text in the column asked
    for passes its test: in search mode the value occurs in that text as a
    substring, with the case of the letters as it is; otherwise that text is
    equal to the value. The text is read from the cell that the selector of
    the column finds in the row: neither the text of the row itself nor that
    of another column counts. The rows before the one returned are the [pre],
    whose texts in the column do not pass. *)
Theorem get_row_first_match (root column value_ : string) (is_search : bool)
    (pages : list (list felem)) (pre post : list felem) (texts : list string)
    (r : felem) (t : string) (fuel : nat) :
  concat pages = pre ++ r :: post ->
  Forall2 (fun row x => column_reads root column row (fgrid root pages) x) pre texts ->
  Forall (fun x => ~ row_matches is_search value_ x) texts ->
  column_reads root column r (fgrid root pages) t ->
  row_matches is_search value_ t ->
  length pre + length pages + 1 < fuel ->
  exists s',
    get_row fuel (ftable_self root) value_ column is_search (fstate root (fgrid root pages))
    = Ret r s'.
Proof.
  intros Hitems Hpre Hno Hr Hm Hfuel.
  destruct (get_row_start_grid root fuel value_ column is_search pages) as (s1 & Hinv & ->).
  rewrite Hitems in Hinv.
  destruct (get_row_loop_grid root value_ column is_search (fgrid root pages) pre post texts
              r t Hpre Hno Hr Hm (length pages) fuel GenStart s1 Hinv Hfuel)
    as (s' & _ & Hrun & _).
  by exists s'.
Qed.

Lemma get_row_first_match_witness :
  let r1 := fcells_row "div.t" 10 "Foo alerts" [("name", "a"); ("owner", "Foo")] "Foo" in
  let r2 := fcells_row "div.t" 20 "second" [("name", "FooBar"); ("owner", "b")] "Enabled" in
  let r3 := fcells_row "div.t" 30 "third" [("name", "Foo"); ("owner", "c")] "Enabled" in
  (exists s', get_row 9 (ftable_self "div.t") "Foo" "name" true
                      (fstate "div.t" (fgrid "div.t" [[r1]; []; [r2; r3]]))
              = Ret r2 s')
  /\
  (exists s', get_row 9 (ftable_self "div.t") "Foo" "name" false
                      (fstate "div.t" (fgrid "div.t" [[r1]; []; [r2; r3]]))
              = Ret r3 s').
Proof.
  intros r1 r2 r3.
  assert (Hreads : forall (id : nat) (txt name_ owner status : string) (w : fworld),
             column_reads "div.t" "name"
               (fcells_row "div.t" id txt [("name", name_); ("owner", owner)] status) w
               (strip (collapse_ws false name_))).
  { intros. exists (plain (S id) name_). split; reflexivity. }
  split.
  - apply (get_row_first_match "div.t" "name" "Foo" true [[r1]; []; [r2; r3]]
             [r1] [r3] ["a"] r2 "FooBar" 9).
    + reflexivity.
    + repeat constructor. apply (Hreads 10 "Foo alerts" "a" "Foo" "Foo").
    + repeat constructor. intros Hm. apply row_matches_test in Hm. discriminate Hm.
    + apply (Hreads 20 "second" "FooBar" "b" "Enabled").
    + by exists EmptyString, "Bar".
    + cbn [length]. lia.
  - apply (get_row_first_match "div.t" "name" "Foo" false [[r1]; []; [r2; r3]]
             [r1; r2] [] ["a"; "FooBar"] r3 "Foo" 9).
    + reflexivity.
    + repeat constructor.
      * apply (Hreads 10 "Foo alerts" "a" "Foo" "Foo").
      * apply (Hreads 20 "second" "FooBar" "b" "Enabled").
    + repeat constructor; intros Hm; apply row_matches_test in Hm; discriminate Hm.
    + apply (Hreads 30 "third" "Foo" "c" "Enabled").
    + reflexivity.
    + cbn [length]. lia.
Defined.

Section SortTableRun.
Context `{Driver World Elem}.

(** [sort_table] up to its loop, when the head is visible and the header
    cells can be listed. *)
Lemma sort_table_run (s : state World Elem) (column order by_ v by2 v2 : string)
    (c : Elem) (w1 : World) (ths : list Elem) :
  locators s !! "table_head" = Some [by_; v] ->
  locators s !! "table_headers" = Some [by2; v2] ->
  until_visible by_ v DEFAULT_WAIT (msg_not_visible "table_head" by_ v) (world s)
    = (Ok c, w1) ->
  find_elements by2 v2 w1 = Ok ths ->
  exists evs,
    clicks evs = [] /\
    sort_table column order s
    = sort_table_loop ths column order (State w1 (locators s) (trace s ++ evs)).
Proof.
  intros Hh Hths Hw Hf. unfold sort_table.
  rewrite bind_run, log_run, bind_run.
  rewrite (wait_for_element_run "table_head" by_ v None _ (Ok c) w1) by done.
  cbn beta iota zeta. rewrite bind_run.
  rewrite (get_locator_known "table_headers" by2 v2) by done.
  cbn [unpack2 ret]. rewrite bind_run. cbn [ret fst snd]. rewrite bind_run.
  unfold _find_elements, try_except, observe, with_events. cbn [world locators trace].
  rewrite Hf. rewrite <- !app_assoc. eexists. split; [|reflexivity]. reflexivity.
Qed.

End SortTableRun.

(** C5: lookup and sort fail fast. On every paginated table none of whose
    rows passes the test of [get_row], [get_row] goes through all the pages
    and raises [ValueError] with the value in its message; and with the head
    visible and no header cell of the column, [sort_table] raises [ValueError]
    with the column in its message, without a click. Neither returns a
    value. *)
Theorem lookup_and_sort_fail_fast :
  (forall (root column value_ : string) (is_search : bool) (pages : list (list string))
          (fuel : nat),
        Forall (fun x => ~ row_matches is_search value_
                           (column_text (normalize_column column) x))
            (concat pages) ->
     length (concat pages) + length pages + 1 < fuel ->
     exists s',
       get_row fuel (ftable_self root) value_ column is_search
               (fstate root (ftable root (normalize_column column) 0 pages))
       = Exc (ValueError (Fmt "{} row not found in table" [AStr value_])) s')
  /\
  (forall (World Elem : Type) (D : Driver World Elem) (s : state World Elem)
          (column order by_ v by2 v2 : string) (c : Elem) (w1 : World) (ths : list Elem),
     locators s !! "table_head" = Some [by_; v] ->
     locators s !! "table_headers" = Some [by2; v2] ->
     until_visible by_ v DEFAULT_WAIT (msg_not_visible "table_head" by_ v) (world s)
       = (Ok c, w1) ->
     find_elements by2 v2 w1 = Ok ths ->
     Forall (header_differs w1 column) ths ->
     exists evs,
       sort_table column order s
       = Exc (ValueError (Fmt "Failed to sort the {}" [AStr column]))
             (State w1 (locators s) (trace s ++ evs)) /\
       clicks evs = []).
Proof.
  split.
  - intros root column value_ is_search pages fuel Hitems Hfuel.
    destruct (get_row_start root (normalize_column column) fuel value_ column is_search pages)
      as (s1 & Hinv & ->).
    by apply (get_row_loop_fixture_none root (normalize_column column) value_ column
                is_search (concat pages) eq_refl Hitems (length pages) fuel 0 GenStart s1).
  - intros World Elem D s column order by_ v by2 v2 c w1 ths Hh Hths Hw Hf Hall.
    destruct (sort_table_run s column order by_ v by2 v2 c w1 ths Hh Hths Hw Hf)
      as (evs0 & Hc0 & ->).
    destruct (sort_table_loop_none ths column order
                (State w1 (locators s) (trace s ++ evs0)) Hall) as (evs1 & Hc1 & ->).
    exists (evs0 ++ evs1). unfold with_events. cbn [world locators trace].
    rewrite <- app_assoc. split; [done|]. by rewrite clicks_app, Hc0, Hc1.
Qed.

Lemma lookup_and_sort_fail_fast_witness :
  (exists s', get_row 10 (ftable_self "div.t") "Foo" "name" false
                      (fstate "div.t" (ftable "div.t" "name" 0
                                         [["a"; "b"]; ["c"]; ["d"; "FooBar"]]))
              = Exc (ValueError (Fmt "{} row not found in table" [AStr "Foo"])) s')
  /\
  (exists evs,
     sort_table "bogus" "asc"
                (fstate "div.t" [fhead_page "div.t"
                                   [fheader 1 EmptyString None; fheader 2 "Name" (Some "asc")]])
     = Exc (ValueError (Fmt "Failed to sort the {}" [AStr "bogus"]))
           (State [fhead_page "div.t"
                     [fheader 1 EmptyString None; fheader 2 "Name" (Some "asc")]]
                  (ftable_locators "div.t") ([] ++ evs)) /\
     clicks evs = []).
Proof.
  destruct lookup_and_sort_fail_fast as [Hrow Hsort]. split.
  - apply (Hrow "div.t" "name" "Foo" false [["a"; "b"]; ["c"]; ["d"; "FooBar"]] 10).
    + repeat constructor; intros Hm; apply row_matches_test in Hm; discriminate Hm.
    + cbn [length concat app]. lia.
  - apply (Hsort fworld felem fixture_driver
             (fstate "div.t" [fhead_page "div.t"
                                [fheader 1 EmptyString None; fheader 2 "Name" (Some "asc")]])
             "bogus" "asc" CSS_SELECTOR head_selector CSS_SELECTOR ("div.t" +:+ " th")
             (plain 0 EmptyString)
             [fhead_page "div.t" [fheader 1 EmptyString None; fheader 2 "Name" (Some "asc")]]
             [fheader 1 EmptyString None; fheader 2 "Name" (Some "asc")]).
    + reflexivity.
    + reflexivity.
    + reflexivity.
    + reflexivity.
    + repeat constructor.
      * exists EmptyString. split; [reflexivity | by left].
      * exists "Name". split; [reflexivity | right; discriminate].
Defined.

(* ===================================================================== *)
(** ** Row enumeration on the paginated fixture *)
(* ===================================================================== *)

(** On every paginated table both enumerations end, and give all the rows of
    all the pages, in order. *)
Lemma rows_fixture_total (root col : string) (pages : list (list string)) :
  exists n m s',
    get_list_of_rows n None (fstate root (ftable root col 0 pages))
    = Ret (frows root col 0 (concat pages)) s' /\
    get_total_rows_elements m (fstate root (ftable root col 0 pages))
    = Ret (frows root col 0 (concat pages)) s'.
Proof.
  destruct (traverse_fixture root col pages 0 (fstate root (ftable root col 0 pages)))
    as (s' & Ht & _); [split; [reflexivity | apply table_registry_init]|].
  destruct (traverse_eager _ _ _ Ht) as [n Hn].
  destruct (eager_to_lazy n [] _ _ _ (Hn [])) as (tail & Htail & Hm).
  destruct (Hm []) as [m Hcollect]. cbn [app] in Htail, Hcollect. subst tail.
  exists n, m, s'. split; [|exact Hcollect].
  destruct n as [|n]; [by specialize (Hn [])|]. exact (Hn []).
Qed.

(** The scenario of the three pages with 10, 10 and 4 rows: the list has 24
    rows, and one more [next_page], past the last page, returns [False]. *)
Lemma three_pages_24_rows :
  let pages := [repeat "r" 10; repeat "r" 10; repeat "r" 4] in
  match get_list_of_rows 3 None (fstate "div.t" (ftable "div.t" "name" 0 pages)) with
  | Ret rows s' =>
      length rows = 24 /\
      match next_page s' with
      | Ret more _ => more = false
      | _ => False
      end
  | _ => False
  end.
Proof. vm_compute. split; reflexivity. Qed.

(** The test of the search mode keeps the case of the letters: [Foo] occurs in
    [FooBar], [foo] does not; and [Foo] is not equal to [FooBar]. *)
Lemma search_is_case_sensitive :
  row_matches true "Foo" (column_text "name" "FooBar") /\
  ~ row_matches true "foo" (column_text "name" "FooBar") /\
  ~ row_matches false "Foo" (column_text "name" "FooBar").
Proof.
  split; [by exists EmptyString, "Bar"|].
  split; intros Hm; apply row_matches_test in Hm; discriminate Hm.
Qed.

(** The status column: the name is normalized from [Status], and the row
    whose status cell reads [on] is returned. *)
Lemma get_row_status_column :
  match get_row 5 (ftable_self "div.t") "on" "Status" false
                (fstate "div.t" (ftable "div.t" "status" 0 [["off"; " on "]])) with
  | Ret row _ => row = frow "div.t" "status" 20 " on "
  | _ => False
  end.
Proof. vm_compute. reflexivity. Qed.

(* ===================================================================== *)
(** ** The registry: [update_locaters] and the constructors *)
(* ===================================================================== *)

Lemma comprehension_fold (d : locator_dict) (m : gmap string (list string)) (k : string) :
  foldl (fun m kv => <[kv.1 := normalize_entry kv.2]> m) m d !! k =
  match assoc_last k d with
  | Some e => Some (normalize_entry e)
  | None => m !! k
  end.
Proof.
  revert m. induction d as [|[k' e] d IH]; intros m; [reflexivity|].
  cbn [foldl assoc_last fst snd]. rewrite IH.
  destruct (assoc_last k d) as [x|]; [reflexivity|].
  destruct (String.eqb_spec k' k) as [->|Hne].
  - by rewrite lookup_insert_eq.
  - by rewrite lookup_insert_ne.
Qed.

Lemma comprehension_lookup (d : locator_dict) (k : string) :
  comprehension d !! k = normalize_entry <$> assoc_last k d.
Proof.
  unfold comprehension. rewrite comprehension_fold.
  by destruct (assoc_last k d).
Qed.

Lemma dict_update_lookup (old : gmap string (list string)) (d : locator_dict) (k : string) :
  dict_update old (comprehension d) !! k =
  match assoc_last k d with
  | Some e => Some (normalize_entry e)
  | None => old !! k
  end.
Proof.
  unfold dict_update. rewrite lookup_union, comprehension_lookup.
  destruct (assoc_last k d) as [e|]; cbn.
  - by destruct (old !! k).
  - by destruct (old !! k).
Qed.

Lemma assoc_last_None {A} (k : string) (l : list (string * A)) :
  k ∉ map fst l -> assoc_last k l = None.
Proof.
  induction l as [|[k' v] l IH]; [done|]. cbn [map fst assoc_last].
  intros Hn. apply not_elem_of_cons in Hn as [Hne Hn]. rewrite IH by done.
  destruct (String.eqb_spec k' k); [congruence | done].
Qed.

Lemma assoc_last_app {A} (k : string) (a b : list (string * A)) :
  assoc_last k (a ++ b) =
  match assoc_last k b with
  | Some x => Some x
  | None => assoc_last k a
  end.
Proof.
  induction a as [|[k' v] a IH]; cbn [app assoc_last].
  - by destruct (assoc_last k b).
  - rewrite IH. by destruct (assoc_last k b), (assoc_last k a).
Qed.

Lemma assoc_last_elem {A} (k : string) (l : list (string * A)) :
  k ∈ map fst l -> is_Some (assoc_last k l).
Proof.
  induction l as [|[k' v] l IH]; cbn [map fst assoc_last]; [by intros ?%elem_of_nil|].
  intros [Heq|Hin]%elem_of_cons.
  - subst k'. destruct (assoc_last k l); [done|]. by rewrite String.eqb_refl.
  - destruct (IH Hin) as [x ->]. done.
Qed.

Section Registry.
Context `{Driver World Elem}.
Local Abbreviation state := (state World Elem).

Lemma update_locaters_run (d : locator_dict) (s : state) :
  update_locaters d s =
  Ret tt (State (world s) (dict_update (locators s) (comprehension d))
                (trace s ++ [EvLog INFO (Fmt "Updating element: {}" [ADict d])])).
Proof. reflexivity. Qed.

(** X1: [update_locaters] always returns and leaves the page alone. In the
    dict [get_all_locators] returns after it, a name of the new dict has the
    entry the new dict keeps for it, its last one, with [By.CSS_SELECTOR] in
    place of a strategy that is [None]; every other name has what it had
    before. And [get_locator] on a name of the new dict returns that two-item
    list. *)
Theorem update_locaters_last_write_wins (d : locator_dict) (s : state) :
  exists s' all s'',
    update_locaters d s = Ret tt s' /\
    get_all_locators s' = Ret all s'' /\
    world s'' = world s /\
    (forall k, all !! k =
               match assoc_last k d with
               | Some e => Some [default CSS_SELECTOR e.1; e.2]
               | None => locators s !! k
               end) /\
    (forall k e, assoc_last k d = Some e ->
       exists s3, get_locator k s' = Ret [default CSS_SELECTOR e.1; e.2] s3 /\
                  locators s3 = locators s' /\ world s3 = world s).
Proof.
  eexists _, _, _. split; [apply update_locaters_run|]. split; [reflexivity|].
  split; [done|]. cbn [with_events locators].
  assert (Hk : forall k, dict_update (locators s) (comprehension d) !! k =
               match assoc_last k d with
               | Some e => Some [default CSS_SELECTOR e.1; e.2]
               | None => locators s !! k
               end).
  { intros k. rewrite dict_update_lookup. destruct (assoc_last k d) as [[[b|] v]|]; reflexivity. }
  split; [exact Hk|].
  intros k e He. eexists.
  rewrite (get_locator_known k (default CSS_SELECTOR e.1) e.2).
  - split; [reflexivity|]. done.
  - cbn [locators]. by rewrite Hk, He.
Qed.

End Registry.

Lemma registry_ok_update (old : gmap string (list string)) (d : locator_dict) :
  registry_ok old -> registry_ok (dict_update old (comprehension d)).
Proof.
  intros Hold k l. rewrite dict_update_lookup.
  destruct (assoc_last k d) as [e|]; [|apply Hold].
  intros [= <-]. by eexists _, _.
Qed.

Lemma registry_ok_empty : registry_ok ∅.
Proof. intros k l Hl. by rewrite lookup_empty in Hl. Qed.

Lemma registry_ok_init (d : locator_dict) : registry_ok (Locator_init d).
Proof.
  intros k l. unfold Locator_init. rewrite comprehension_lookup.
  destruct (assoc_last k d) as [e|]; [|done]. intros [= <-]. by eexists _, _.
Qed.

Section Constructors.
Context `{Driver World Elem}.
Local Abbreviation state := (state World Elem).

(** X2: every entry of a registry that [Locator.__init__] built has two
    items, and [update_locaters] keeps it so. On such a registry
    [get_locator] either returns a two-item list after its one log line, for
    a name that is there, or raises [IndexError] with the state as it was, for
    a name that is not: the unpacking [by, value = ...] of its callers never
    fails. *)
Theorem registry_entries_have_two_items :
  (forall d, registry_ok (Locator_init d)) /\
  (forall d (s : state),
     registry_ok (locators s) ->
     exists s', update_locaters d s = Ret tt s' /\ registry_ok (locators s')) /\
  (forall n (s : state),
     registry_ok (locators s) ->
     (exists by_ v, locators s !! n = Some [by_; v] /\
                    get_locator n s = Ret [by_; v] (with_events s [ev_getting n by_ v])) \/
     (locators s !! n = None /\ get_locator n s = Exc IndexError s)).
Proof.
  split; [exact registry_ok_init|]. split.
  - intros d s Hok. eexists. split; [apply update_locaters_run|].
    by apply registry_ok_update.
  - intros n s Hok. destruct (locators s !! n) as [l|] eqn:Hl.
    + destruct (Hok n l Hl) as (by_ & v & ->). left. exists by_, v. split; [done|].
      by apply get_locator_known.
    + right. split; [done|]. unfold get_locator. by rewrite Hl.
Qed.

(** X8: [AlertTable(driver, container)] raises [IndexError] on an empty
    container. On any other it returns: the table's name is the first key of
    the container, its root selector is the value that key has there, and the
    page is not touched. In the registry it leaves, the names of the table and
    of its base class ([table_names]) resolve to the table's own selectors
    under that root, whatever the container said for them, and every other
    name resolves as the container has it. *)
Theorem AlertTable_init_registry (w : World) (container : locator_dict) :
  match container with
  | [] => AlertTable_init w container
          = (Exc IndexError (State w ∅ []) : outcome World Elem AlertTable)
  | (n, _) :: _ =>
      exists e self s,
        assoc_last n container = Some e /\
        AlertTable_init w container = (Ret self s : outcome World Elem AlertTable) /\
        name self = n /\ value self = e.2 /\
        world s = w /\
        table_registry (value self) (locators s) /\
        registry_ok (locators s) /\
        (forall k, k ∈ table_names ->
           locators s !! k
           = Locator_init (base_locators ++ new_locator (value self)) !! k) /\
        (forall k, k ∉ table_names -> locators s !! k = Locator_init container !! k)
  end.
Proof.
  destruct container as [|[n e0] rest]; [reflexivity|].
  assert (Hsome : exists e, assoc_last n ((n, e0) :: rest) = Some e).
  { cbn [assoc_last]. destruct (assoc_last n rest); [by eexists|].
    rewrite String.eqb_refl. by eexists. }
  destruct Hsome as [e He]. exists e.
  assert (Hl : comprehension ((n, e0) :: rest) !! n = Some [default CSS_SELECTOR e.1; e.2]).
  { rewrite comprehension_lookup, He. by destruct e as [[b|] v]. }
  unfold AlertTable_init. rewrite Hl.
  eexists _, _. split; [done|]. split; [reflexivity|].
  cbn [name value world locators]. split; [done|]. split; [done|]. split; [done|].
  split; [|split; [|split]].
  - unfold table_registry. rewrite !dict_update_lookup. repeat split; reflexivity.
  - do 2 apply registry_ok_update. apply registry_ok_init.
  - intros k Hk. unfold Locator_init at 2.
    rewrite !dict_update_lookup, !comprehension_lookup, assoc_last_app.
    destruct (assoc_last k (new_locator e.2)) as [x|] eqn:Hx; [done|].
    destruct (assoc_last k base_locators) as [y|] eqn:Hy; [done|].
    unfold table_names in Hk. apply elem_of_app in Hk as [Hk|Hk].
    + apply assoc_last_elem in Hk as [z Hz]. congruence.
    + apply (assoc_last_elem k (new_locator e.2)) in Hk as [z Hz]. congruence.
  - intros k Hk. unfold table_names in Hk. apply not_elem_of_app in Hk as [Hb Hn].
    rewrite !dict_update_lookup.
    rewrite (assoc_last_None k (new_locator e.2)) by exact Hn.
    by rewrite (assoc_last_None k base_locators) by exact Hb.
Qed.

End Constructors.

(* ===================================================================== *)
(** ** Strings again: lower case and normalized white space *)
(* ===================================================================== *)

Ltac ascii_cases c := destruct c as [[] [] [] [] [] [] [] []]; reflexivity.

Lemma lower_char_idemp (c : ascii) : lower_char (lower_char c) = lower_char c.
Proof. ascii_cases c. Qed.

Lemma lower_char_isspace (c : ascii) : py_isspace (lower_char c) = py_isspace c.
Proof. ascii_cases c. Qed.

Lemma lower_char_space (c : ascii) : Ascii.eqb (lower_char c) " " = Ascii.eqb c " ".
Proof. ascii_cases c. Qed.

Lemma lower_char_dq (c : ascii) : Ascii.eqb (lower_char c) dq_char = Ascii.eqb c dq_char.
Proof. ascii_cases c. Qed.

Lemma lower_idemp (s : string) : lower (lower s) = lower s.
Proof. induction s as [|c s IH]; cbn [lower]; [done|]. by rewrite lower_char_idemp, IH. Qed.

Lemma lower_lstrip (s : string) : lower (lstrip py_isspace s) = lstrip py_isspace (lower s).
Proof.
  induction s as [|c s IH]; cbn [lower lstrip]; [done|].
  rewrite lower_char_isspace. destruct (py_isspace c); [done|]. reflexivity.
Qed.

Lemma lower_rstrip (s : string) : lower (rstrip py_isspace s) = rstrip py_isspace (lower s).
Proof.
  induction s as [|c s IH]; cbn [lower rstrip]; [done|].
  rewrite <- IH, lower_char_isspace.
  destruct (rstrip py_isspace s) as [|d r]; cbn [lower].
  - by destruct (py_isspace c).
  - reflexivity.
Qed.

Lemma lower_strip (s : string) : lower (strip s) = strip (lower s).
Proof. unfold strip. by rewrite lower_rstrip, lower_lstrip. Qed.

Lemma lower_remove_space (s : string) : lower (remove_char " " s) = remove_char " " (lower s).
Proof.
  induction s as [|c s IH]; cbn [lower remove_char]; [done|].
  rewrite lower_char_space. destruct (Ascii.eqb c " "); [done|]. cbn [lower]. by rewrite IH.
Qed.

Lemma lower_remove_dq (s : string) : lower (remove_char dq_char s) = remove_char dq_char (lower s).
Proof.
  induction s as [|c s IH]; cbn [lower remove_char]; [done|].
  rewrite lower_char_dq. destruct (Ascii.eqb c dq_char); [done|]. cbn [lower]. by rewrite IH.
Qed.

Lemma has_char_remove (a : ascii) (s : string) : has_char a (remove_char a s) = false.
Proof.
  induction s as [|c s IH]; cbn [remove_char has_char]; [done|].
  destruct (Ascii.eqb c a) eqn:E; [done|]. cbn [has_char]. by rewrite E, IH.
Qed.

Lemma has_char_remove_other (a b : ascii) (s : string) :
  has_char a s = false -> has_char a (remove_char b s) = false.
Proof.
  induction s as [|c s IH]; cbn [remove_char has_char]; [done|].
  intros [Hc Hs]%orb_false_iff. destruct (Ascii.eqb c b); [by apply IH|].
  cbn [has_char]. by rewrite Hc, IH.
Qed.

Lemma has_char_lower_space (s : string) : has_char " " (lower s) = has_char " " s.
Proof.
  induction s as [|c s IH]; cbn [lower has_char]; [done|].
  by rewrite lower_char_space, IH.
Qed.

Lemma has_char_lower_dq (s : string) : has_char dq_char (lower s) = has_char dq_char s.
Proof.
  induction s as [|c s IH]; cbn [lower has_char]; [done|].
  by rewrite lower_char_dq, IH.
Qed.

(** X5: the result of [get_updated_message] holds no space and no double
    quote, it is in lower case, and it does not depend on the case of the
    letters of the text given. *)
Theorem get_updated_message_normal_form (t : string) :
  has_char " " (get_updated_message t) = false /\
  has_char dq_char (get_updated_message t) = false /\
  lower (get_updated_message t) = get_updated_message t /\
  get_updated_message (lower t) = get_updated_message t.
Proof.
  unfold get_updated_message. repeat split.
  - rewrite has_char_lower_space. apply has_char_remove_other, has_char_remove.
  - rewrite has_char_lower_dq. apply has_char_remove.
  - apply lower_idemp.
  - by rewrite <- lower_strip, <- lower_remove_space, <- lower_remove_dq, lower_idemp.
Qed.

Lemma collapsed_collapse_ws (b : bool) (s : string) : collapsed b (collapse_ws b s) = true.
Proof.
  revert b. induction s as [|c s IH]; intros b; cbn [collapse_ws]; [done|].
  destruct (py_isspace c) eqn:E.
  - destruct b; [apply IH|]. cbn [collapsed]. by rewrite IH.
  - cbn [collapsed]. by rewrite E, IH.
Qed.

Lemma collapse_ws_collapsed (b : bool) (s : string) :
  collapsed b s = true -> collapse_ws b s = s.
Proof.
  revert b. induction s as [|c s IH]; intros b; cbn [collapse_ws collapsed]; [done|].
  destruct (py_isspace c) eqn:E.
  - intros [[Hc Hb]%andb_true_iff Hs]%andb_true_iff.
    apply Ascii.eqb_eq in Hc as ->. destruct b; [done|]. by rewrite IH.
  - intros Hs. by rewrite IH.
Qed.

Lemma collapsed_lstrip (b b' : bool) (s : string) :
  collapsed b s = true -> collapsed b' (lstrip py_isspace s) = true.
Proof.
  revert b. induction s as [|c s IH]; intros b; cbn [lstrip collapsed]; [done|].
  destruct (py_isspace c) eqn:E.
  - intros [_ Hs]%andb_true_iff. by apply (IH true).
  - intros Hs. cbn [collapsed]. by rewrite E.
Qed.

Lemma collapsed_rstrip (b : bool) (s : string) :
  collapsed b s = true -> collapsed b (rstrip py_isspace s) = true.
Proof.
  revert b. induction s as [|c s IH]; intros b; cbn [rstrip collapsed]; [done|].
  intros Hs. destruct (rstrip py_isspace s) as [|d r] eqn:Hr.
  - destruct (py_isspace c) eqn:E; [done|]. cbn [collapsed]. by rewrite E.
  - cbn [collapsed]. fold (collapsed true (String d r)). fold (collapsed false (String d r)).
    destruct (py_isspace c) eqn:E.
    + apply andb_true_iff in Hs as [Hcb Hs]. rewrite Hcb. by apply (IH true).
    + by apply (IH false).
Qed.

Lemma lstrip_head_ok (s : string) : head_ok (lstrip py_isspace s).
Proof.
  induction s as [|c s IH]; cbn [lstrip]; [done|].
  destruct (py_isspace c) eqn:E; [done|]. exact E.
Qed.

Lemma lstrip_of_head_ok (s : string) : head_ok s -> lstrip py_isspace s = s.
Proof. destruct s as [|c s]; [done|]. cbn. by intros ->. Qed.

Lemma rstrip_head_ok (s : string) : head_ok s -> head_ok (rstrip py_isspace s).
Proof.
  destruct s as [|c s]; [done|]. cbn [head_ok rstrip]. intros E.
  destruct (rstrip py_isspace s); [by rewrite E|done].
Qed.

Lemma rstrip_idemp (s : string) :
  rstrip py_isspace (rstrip py_isspace s) = rstrip py_isspace s.
Proof.
  induction s as [|c s IH]; [done|]. cbn [rstrip].
  destruct (rstrip py_isspace s) as [|d r] eqn:Hr.
  - destruct (py_isspace c) eqn:E; [done|]. cbn. by rewrite E.
  - cbn [rstrip]. cbn [rstrip] in IH. by rewrite IH.
Qed.

Lemma strip_idemp (s : string) : strip (strip s) = strip s.
Proof.
  unfold strip.
  rewrite (lstrip_of_head_ok (rstrip py_isspace (lstrip py_isspace s))).
  - apply rstrip_idemp.
  - apply rstrip_head_ok, lstrip_head_ok.
Qed.

Lemma normalize_idemp (s : string) :
  strip (collapse_ws false (strip (collapse_ws false s))) = strip (collapse_ws false s).
Proof.
  rewrite (collapse_ws_collapsed false (strip (collapse_ws false s))).
  - apply strip_idemp.
  - unfold strip. apply collapsed_rstrip, (collapsed_lstrip false), collapsed_collapse_ws.
Qed.

(* ===================================================================== *)
(** ** Pagination: [prev_page] and [switch_to] *)
(* ===================================================================== *)

Section PagerLoop.
Context `{Driver World Elem}.
Local Abbreviation state := (state World Elem).

Lemma page_loop_skip (target : string) (pre rest : list Elem) (last : Elem) (s : state) :
  Forall (not_labelled (world s) target) pre ->
  page_loop target (pre ++ rest) last s = page_loop target rest (List.last pre last) s.
Proof.
  revert last. induction pre as [|p pre IH]; intros last Hpre; [reflexivity|].
  inversion Hpre as [|? ? [label [Hl Hn]] Hpre']; subst.
  cbn [app page_loop]. rewrite bind_run, get_element_text_run, Hl.
  assert (String.eqb (lower label) target = false) as -> by by apply String.eqb_neq.
  rewrite IH by done. destruct pre as [|e pre]; [reflexivity|].
  f_equal. change (List.last (p :: e :: pre) last) with (List.last (e :: pre) last).
  apply last_cons_default.
Qed.

Lemma page_loop_at_target (target : string) (page : Elem) (post : list Elem) (last : Elem)
    (s : state) :
  labelled (world s) target page ->
  (forall w', clickable (world s) page -> click page (world s) = (Ok tt, w') ->
     exists evs, page_loop target (page :: post) last s
                 = Ret true (State w' (locators s) (trace s ++ evs)) /\
                 clicks evs = [page]) /\
  (forall x w', clickable (world s) page -> click page (world s) = (Err x, w') ->
     exists evs, page_loop target (page :: post) last s
                 = Ret false (State w' (locators s) (trace s ++ evs)) /\
                 clicks evs = [page]) /\
  (~ clickable (world s) page ->
     exists evs, page_loop target (page :: post) last s = Ret false (with_events s evs) /\
                 clicks evs = []).
Proof.
  intros [label [Hl Hn]].
  cbn [page_loop]. rewrite bind_run, get_element_text_run, Hl, Hn, String.eqb_refl.
  unfold try_except. rewrite bind_run.
  destruct (_is_element_clickable_run page s) as (evs & b & -> & Hevs & Hb).
  repeat split.
  - intros w' Hc Hk. apply Hb in Hc as ->. rewrite bind_run.
    unfold perform. cbn [with_events world locators trace]. rewrite Hk. cbn [ret].
    eexists. rewrite <- app_assoc. split; [reflexivity|].
    by rewrite clicks_app, Hevs.
  - intros x w' Hc Hk. apply Hb in Hc as ->. rewrite bind_run.
    unfold perform. cbn [with_events world locators trace]. rewrite Hk.
    rewrite bind_run, log_run. cbn [ret]. unfold with_events.
    cbn [world locators trace].
    eexists. rewrite <- !app_assoc. split; [reflexivity|].
    by rewrite clicks_app, Hevs.
  - intros Hc. destruct b; [destruct Hc; by apply Hb|].
    cbn [ret]. eexists. split; [reflexivity | done].
Qed.

(** What the loop does, case by case, from the state [s1] in which the
    controls were listed. *)
Lemma turn_to_cases (target : string) (elements : list Elem) (s1 : state) :
  (elements = [] -> turn_to target elements s1 = Ret false s1) /\
  (forall pre page post,
     elements = pre ++ page :: post ->
     Forall (not_labelled (world s1) target) pre -> labelled (world s1) target page ->
     (forall w', clickable (world s1) page -> click page (world s1) = (Ok tt, w') ->
        exists evs, turn_to target elements s1
                    = Ret true (State w' (locators s1) (trace s1 ++ evs)) /\
                    clicks evs = [page]) /\
     (forall x w', clickable (world s1) page -> click page (world s1) = (Err x, w') ->
        exists evs, turn_to target elements s1
                    = Ret false (State w' (locators s1) (trace s1 ++ evs)) /\
                    clicks evs = [page]) /\
     (~ clickable (world s1) page ->
        exists evs, turn_to target elements s1 = Ret false (with_events s1 evs) /\
                    clicks evs = [])) /\
  (forall first rest,
     elements = first :: rest -> Forall (not_labelled (world s1) target) elements ->
     turn_to target elements s1
     = Exc (ValueError (Fmt "page: {} is not found." [AElem (List.last elements first)])) s1).
Proof.
  assert (Hloop : forall pre page post,
             elements = pre ++ page :: post ->
             Forall (not_labelled (world s1) target) pre ->
             turn_to target elements s1
             = page_loop target (page :: post) (List.last pre page) s1).
  { intros pre page post -> Hpre. unfold turn_to.
    destruct pre as [|p pre]; [reflexivity|]. cbn [app].
    change (p :: pre ++ page :: post) with ((p :: pre) ++ page :: post).
    rewrite page_loop_skip by done.
    by rewrite (last_cons_default p pre p page). }
  split; [by intros ->|]. split.
  - intros pre page post Hel Hpre Hpage. rewrite (Hloop pre page post Hel Hpre).
    by apply page_loop_at_target.
  - intros first rest Hel Hall. rewrite Hel. cbn [turn_to]. rewrite <- Hel.
    rewrite <- (app_nil_r elements) at 1. by rewrite page_loop_skip.
Qed.

(** [_find_elements] never raises: what the driver lists, or the empty list
    after an error line. *)
Lemma _find_elements_run (by_ v : string) (s : state) :
  _find_elements by_ v s =
  match find_elements by_ v (world s) with
  | Ok l => Ret l s
  | Err _ => Ret [] (with_events s [ev_not_found by_ v])
  end.
Proof.
  unfold _find_elements, try_except, observe.
  destruct (find_elements by_ v (world s)); reflexivity.
Qed.

Lemma switch_to_run (value_ by_ v by2 v2 : string) (s : state) (c : Elem) (w1 : World) :
  locators s !! "table_container" = Some [by_; v] ->
  locators s !! "switch_to_page" = Some [by2; v2] ->
  until_visible by_ v DEFAULT_WAIT (msg_not_visible "table_container" by_ v) (world s)
    = (Ok c, w1) ->
  exists evs,
    clicks evs = [] /\
    switch_to value_ s =
    let w := sleep 5000 w1 in
    match find_elements by2 v2 w with
    | Ok elements =>
        turn_to (lower value_) elements (State w (locators s) (trace s ++ evs))
    | Err _ =>
        Ret false (State w (locators s) (trace s ++ evs ++ [ev_not_found by2 v2]))
    end.
Proof.
  intros Hc Hp Hw. unfold switch_to.
  rewrite bind_run, (wait_for_element_run "table_container" by_ v None s (Ok c) w1) by done.
  cbn beta iota zeta. rewrite bind_run. unfold time_sleep, perform at 1.
  cbn [world locators trace]. rewrite bind_run.
  rewrite (get_locator_known "switch_to_page" by2 v2) by done.
  cbn [unpack2 ret]. rewrite bind_run. cbn [ret fst snd]. rewrite bind_run.
  rewrite _find_elements_run. unfold with_events. cbn [world locators trace].
  rewrite <- !app_assoc. eexists. split; cycle 1.
  { destruct (find_elements by2 v2 (sleep 5000 w1)) as [[|? ?]|]; reflexivity. }
  reflexivity.
Qed.

Lemma prev_page_run (by_ v by2 v2 : string) (s : state) (c : Elem) (w1 : World) :
  locators s !! "table_container" = Some [by_; v] ->
  locators s !! "switch_to_page" = Some [by2; v2] ->
  until_visible by_ v DEFAULT_WAIT (msg_not_visible "table_container" by_ v) (world s)
    = (Ok c, w1) ->
  exists evs,
    clicks evs = [] /\
    prev_page s =
    match find_elements by2 v2 w1 with
    | Ok elements => turn_to "prev" elements (State w1 (locators s) (trace s ++ evs))
    | Err _ => Ret false (State w1 (locators s) (trace s ++ evs ++ [ev_not_found by2 v2]))
    end.
Proof.
  intros Hc Hp Hw. unfold prev_page.
  rewrite bind_run, (wait_for_element_run "table_container" by_ v None s (Ok c) w1) by done.
  cbn beta iota zeta. rewrite bind_run.
  rewrite (get_locator_known "switch_to_page" by2 v2) by done.
  cbn [unpack2 ret]. rewrite bind_run. cbn [ret fst snd]. rewrite bind_run.
  rewrite _find_elements_run. unfold with_events. cbn [world locators trace].
  rewrite <- !app_assoc. eexists. split; cycle 1.
  { destruct (find_elements by2 v2 w1) as [[|? ?]|]; reflexivity. }
  reflexivity.
Qed.

End PagerLoop.

Section PagerOutcomes.
Context `{Driver World Elem}.
Local Abbreviation state := (state World Elem).

(** X14: [switch_to(value)], with the table visible. It returns [False]
    without a click when the pagination controls cannot be listed or there is
    none. Otherwise it looks for the first control whose label is [value],
    whatever the case of the letters on either side: it returns [True] exactly
    when that control is displayed and enabled and its click goes through,
    [False] when it is not clickable or its click raises; and when no control
    has the label it raises [ValueError] with the last control in its
    message. It clicks at most that one control. *)
Theorem switch_to_outcome (value_ by_ v by2 v2 : string) (s : state) (c : Elem) (w1 : World) :
  locators s !! "table_container" = Some [by_; v] ->
  locators s !! "switch_to_page" = Some [by2; v2] ->
  until_visible by_ v DEFAULT_WAIT (msg_not_visible "table_container" by_ v) (world s)
    = (Ok c, w1) ->
  let w := sleep 5000 w1 in
  let target := lower value_ in
  (* the controls cannot be listed, or there is none *)
  ((find_elements by2 v2 w = Ok [] \/ exists x, find_elements by2 v2 w = Err x) ->
   exists evs, switch_to value_ s = Ret false (State w (locators s) (trace s ++ evs)) /\
               clicks evs = []) /\
  (forall elements,
     find_elements by2 v2 w = Ok elements ->
     (* the first control with the label *)
     (forall pre page post,
        elements = pre ++ page :: post ->
        Forall (not_labelled w target) pre -> labelled w target page ->
        (forall w', clickable w page -> click page w = (Ok tt, w') ->
           exists evs, switch_to value_ s
                       = Ret true (State w' (locators s) (trace s ++ evs)) /\
                       clicks evs = [page]) /\
        (forall x w', clickable w page -> click page w = (Err x, w') ->
           exists evs, switch_to value_ s
                       = Ret false (State w' (locators s) (trace s ++ evs)) /\
                       clicks evs = [page]) /\
        (~ clickable w page ->
           exists evs, switch_to value_ s
                       = Ret false (State w (locators s) (trace s ++ evs)) /\
                       clicks evs = [])) /\
     (* controls, none of them with the label *)
     (forall first rest,
        elements = first :: rest -> Forall (not_labelled w target) elements ->
        exists evs, switch_to value_ s
                    = Exc (ValueError (Fmt "page: {} is not found."
                                           [AElem (List.last elements first)]))
                          (State w (locators s) (trace s ++ evs)) /\
                    clicks evs = [])).
Proof.
  intros Hc Hp Hw w target.
  destruct (switch_to_run value_ by_ v by2 v2 s c w1 Hc Hp Hw) as (evs0 & Hevs0 & Hrun).
  cbn zeta in Hrun. fold w target in Hrun. split.
  - intros [Hf|[x Hf]]; rewrite Hf in Hrun; rewrite Hrun.
    + exists evs0. done.
    + exists (evs0 ++ [ev_not_found by2 v2]). split; [done|].
      by rewrite clicks_app, Hevs0.
  - intros elements Hf. rewrite Hf in Hrun.
    set (s1 := State w (locators s) (trace s ++ evs0)) in *.
    destruct (turn_to_cases target elements s1) as (_ & Hat & Hnone). split.
    + intros pre page post Hel Hpre Hpage.
      destruct (Hat pre page post Hel Hpre Hpage) as (Ht & Hx & Hn).
      rewrite Hrun. repeat split.
      * intros w' Hck Hk. destruct (Ht w' Hck Hk) as (evs & -> & Hevs).
        exists (evs0 ++ evs). cbn [s1 world locators trace]. rewrite <- app_assoc.
        split; [done|]. by rewrite clicks_app, Hevs0, Hevs.
      * intros x w' Hck Hk. destruct (Hx x w' Hck Hk) as (evs & -> & Hevs).
        exists (evs0 ++ evs). cbn [s1 world locators trace]. rewrite <- app_assoc.
        split; [done|]. by rewrite clicks_app, Hevs0, Hevs.
      * intros Hnc. destruct (Hn Hnc) as (evs & -> & Hevs).
        exists (evs0 ++ evs). unfold with_events. cbn [s1 world locators trace].
        rewrite <- app_assoc. split; [done|]. by rewrite clicks_app, Hevs0, Hevs.
    + intros first rest Hel Hall. rewrite Hrun, (Hnone first rest Hel Hall).
      exists evs0. done.
Qed.

(** X15: [prev_page], with the table visible, does the same with the label
    [prev], and without a pause: [False] when the controls cannot be listed or
    there is none, [True] exactly after a click that went through on the first
    control labelled [prev], [False] when that control is not clickable or its
    click raises, [ValueError] when no control is labelled [prev]. *)
Theorem prev_page_outcome (by_ v by2 v2 : string) (s : state) (c : Elem) (w : World) :
  locators s !! "table_container" = Some [by_; v] ->
  locators s !! "switch_to_page" = Some [by2; v2] ->
  until_visible by_ v DEFAULT_WAIT (msg_not_visible "table_container" by_ v) (world s)
    = (Ok c, w) ->
  (* the controls cannot be listed, or there is none *)
  ((find_elements by2 v2 w = Ok [] \/ exists x, find_elements by2 v2 w = Err x) ->
   exists evs, prev_page s = Ret false (State w (locators s) (trace s ++ evs)) /\
               clicks evs = []) /\
  (forall elements,
     find_elements by2 v2 w = Ok elements ->
     (* the first control labelled prev *)
     (forall pre page post,
        elements = pre ++ page :: post ->
        Forall (not_labelled w "prev") pre -> labelled w "prev" page ->
        (forall w', clickable w page -> click page w = (Ok tt, w') ->
           exists evs, prev_page s = Ret true (State w' (locators s) (trace s ++ evs)) /\
                       clicks evs = [page]) /\
        (forall x w', clickable w page -> click page w = (Err x, w') ->
           exists evs, prev_page s = Ret false (State w' (locators s) (trace s ++ evs)) /\
                       clicks evs = [page]) /\
        (~ clickable w page ->
           exists evs, prev_page s = Ret false (State w (locators s) (trace s ++ evs)) /\
                       clicks evs = [])) /\
     (* controls, none of them labelled prev *)
     (forall first rest,
        elements = first :: rest -> Forall (not_labelled w "prev") elements ->
        exists evs, prev_page s
                    = Exc (ValueError (Fmt "page: {} is not found."
                                           [AElem (List.last elements first)]))
                          (State w (locators s) (trace s ++ evs)) /\
                    clicks evs = [])).
Proof.
  intros Hc Hp Hw.
  destruct (prev_page_run by_ v by2 v2 s c w Hc Hp Hw) as (evs0 & Hevs0 & Hrun). split.
  - intros [Hf|[x Hf]]; rewrite Hf in Hrun; rewrite Hrun.
    + exists evs0. done.
    + exists (evs0 ++ [ev_not_found by2 v2]). split; [done|].
      by rewrite clicks_app, Hevs0.
  - intros elements Hf. rewrite Hf in Hrun.
    set (s1 := State w (locators s) (trace s ++ evs0)) in *.
    destruct (turn_to_cases "prev" elements s1) as (_ & Hat & Hnone). split.
    + intros pre page post Hel Hpre Hpage.
      destruct (Hat pre page post Hel Hpre Hpage) as (Ht & Hx & Hn).
      rewrite Hrun. repeat split.
      * intros w' Hck Hk. destruct (Ht w' Hck Hk) as (evs & -> & Hevs).
        exists (evs0 ++ evs). cbn [s1 world locators trace]. rewrite <- app_assoc.
        split; [done|]. by rewrite clicks_app, Hevs0, Hevs.
      * intros x w' Hck Hk. destruct (Hx x w' Hck Hk) as (evs & -> & Hevs).
        exists (evs0 ++ evs). cbn [s1 world locators trace]. rewrite <- app_assoc.
        split; [done|]. by rewrite clicks_app, Hevs0, Hevs.
      * intros Hnc. destruct (Hn Hnc) as (evs & -> & Hevs).
        exists (evs0 ++ evs). unfold with_events. cbn [s1 world locators trace].
        rewrite <- app_assoc. split; [done|]. by rewrite clicks_app, Hevs0, Hevs.
    + intros first rest Hel Hall. rewrite Hrun, (Hnone first rest Hel Hall).
      exists evs0. done.
Qed.

End PagerOutcomes.

Lemma prev_page_outcome_witness :
  let pager := [fcontrol 1 "Prev" ClickNothing; plain 2 "1"] in
  (exists evs,
     prev_page (fstate "div.t" [fpager_page "div.t" pager])
     = Ret true (State [fpager_page "div.t" pager] (ftable_locators "div.t") ([] ++ evs))
     /\ clicks evs = [fcontrol 1 "Prev" ClickNothing])
  /\
  (exists evs,
     prev_page (fstate "div.t" [fpager_page "div.t" [plain 1 "1"; plain 2 "2"]])
     = Exc (ValueError (Fmt "page: {} is not found." [AElem (plain 2 "2")]))
           (State [fpager_page "div.t" [plain 1 "1"; plain 2 "2"]]
                  (ftable_locators "div.t") ([] ++ evs))
     /\ clicks evs = []).
Proof.
  intros pager. split.
  - edestruct (prev_page_outcome
                 CSS_SELECTOR (container_selector "div.t")
                 CSS_SELECTOR ("div.t" +:+ SWITCH_PAGE)
                 (fstate "div.t" [fpager_page "div.t" pager])
                 (plain 0 EmptyString)
                 [fpager_page "div.t" pager]) as (_ & T); [reflexivity..|].
    edestruct (T pager) as (T0 & _); [reflexivity|].
    edestruct (T0 [] (fcontrol 1 "Prev" ClickNothing) [plain 2 "1"]) as (T1 & _).
    + reflexivity.
    + constructor.
    + exists "Prev". split; reflexivity.
    + apply (T1 [fpager_page "div.t" pager]); [split; reflexivity | reflexivity].
  - edestruct (prev_page_outcome
                 CSS_SELECTOR (container_selector "div.t")
                 CSS_SELECTOR ("div.t" +:+ SWITCH_PAGE)
                 (fstate "div.t" [fpager_page "div.t" [plain 1 "1"; plain 2 "2"]])
                 (plain 0 EmptyString)
                 [fpager_page "div.t" [plain 1 "1"; plain 2 "2"]]) as (_ & T);
      [reflexivity..|].
    edestruct (T [plain 1 "1"; plain 2 "2"]) as (_ & T0); [reflexivity|].
    apply (T0 (plain 1 "1") [plain 2 "2"]); [reflexivity|].
    constructor; [|constructor; [|constructor]].
    + exists "1". split; [reflexivity | discriminate].
    + exists "2". split; [reflexivity | discriminate].
Defined.

Lemma switch_to_outcome_witness :
  let next := FElem 2 "Next" (Some "Next") None true true ClickNextPage [] (TextNode "Next") in
  exists evs,
    switch_to "NEXT" (fstate "div.t" (ftable "div.t" "name" 0 [["a"]; ["b"]]))
    = Ret true (State (ftable "div.t" "name" 1 [["b"]]) (ftable_locators "div.t") ([] ++ evs))
    /\ clicks evs = [next].
Proof.
  intros next.
  edestruct (switch_to_outcome "NEXT"
               CSS_SELECTOR (container_selector "div.t")
               CSS_SELECTOR ("div.t" +:+ SWITCH_PAGE)
               (fstate "div.t" (ftable "div.t" "name" 0 [["a"]; ["b"]]))
               (plain 0 EmptyString)
               (ftable "div.t" "name" 0 [["a"]; ["b"]])) as (_ & T); [reflexivity..|].
  edestruct (T (fpager true)) as (T0 & _); [reflexivity|].
  edestruct (T0 [plain 1 "1"] next []) as (T1 & _).
  - reflexivity.
  - constructor; [|constructor]. exists "1". split; [reflexivity | discriminate].
  - exists "Next". split; reflexivity.
  - apply (T1 (ftable "div.t" "name" 1 [["b"]])); [split; reflexivity | reflexivity].
Defined.

Section PagerFailure.
Context `{Driver World Elem}.
Local Abbreviation state := (state World Elem).

(** X16: when the pagination controls cannot be listed, the three sibling
    methods differ. [next_page] asks the driver itself and raises what the
    driver raised; [prev_page] and [switch_to] go through [_find_elements],
    which logs the error, and return [False]. None of them clicks. *)
Theorem pager_lookup_failure (value_ by_ v by2 v2 : string) (s : state) (c : Elem)
    (w1 : World) (x : exn Elem) :
  locators s !! "table_container" = Some [by_; v] ->
  locators s !! "switch_to_page" = Some [by2; v2] ->
  until_visible by_ v DEFAULT_WAIT (msg_not_visible "table_container" by_ v) (world s)
    = (Ok c, w1) ->
  (find_elements by2 v2 (sleep 10000 w1) = Err x ->
   exists evs, next_page s = Exc x (State (sleep 10000 w1) (locators s) (trace s ++ evs)) /\
               clicks evs = []) /\
  (find_elements by2 v2 w1 = Err x ->
   exists evs, prev_page s = Ret false (State w1 (locators s) (trace s ++ evs)) /\
               clicks evs = [] /\ ev_not_found by2 v2 ∈ evs) /\
  (find_elements by2 v2 (sleep 5000 w1) = Err x ->
   exists evs, switch_to value_ s
               = Ret false (State (sleep 5000 w1) (locators s) (trace s ++ evs)) /\
               clicks evs = [] /\ ev_not_found by2 v2 ∈ evs).
Proof.
  intros Hc Hp Hw. split; [|split].
  - intros Hf. unfold next_page.
    rewrite bind_run, (wait_for_element_run "table_container" by_ v None s (Ok c) w1) by done.
    cbn beta iota zeta. rewrite bind_run. unfold time_sleep, perform at 1.
    cbn [world locators trace]. rewrite bind_run.
    rewrite (get_locator_known "switch_to_page" by2 v2) by done.
    cbn [unpack2 ret]. rewrite bind_run. cbn [ret fst snd]. rewrite bind_run.
    unfold observe, with_events. cbn [world locators trace]. rewrite Hf.
    rewrite <- !app_assoc. eexists. split; [reflexivity|]. reflexivity.
  - intros Hf.
    destruct (prev_page_run by_ v by2 v2 s c w1 Hc Hp Hw) as (evs0 & Hevs0 & ->).
    rewrite Hf. exists (evs0 ++ [ev_not_found by2 v2]). split; [done|].
    split; [by rewrite clicks_app, Hevs0 | set_solver].
  - intros Hf.
    destruct (switch_to_run value_ by_ v by2 v2 s c w1 Hc Hp Hw) as (evs0 & Hevs0 & ->).
    cbn zeta. rewrite Hf. exists (evs0 ++ [ev_not_found by2 v2]). split; [done|].
    split; [by rewrite clicks_app, Hevs0 | set_solver].
Qed.

End PagerFailure.

Lemma pager_lookup_failure_witness :
  let x := WebDriverException "InvalidSelectorException" in
  (exists evs, next_page (unlisted_state "div.t")
               = Exc x (State tt (ftable_locators "div.t") ([] ++ evs)) /\ clicks evs = []) /\
  (exists evs, prev_page (unlisted_state "div.t")
               = Ret false (State tt (ftable_locators "div.t") ([] ++ evs)) /\
               clicks evs = [] /\
               ev_not_found CSS_SELECTOR ("div.t" +:+ SWITCH_PAGE) ∈ evs) /\
  (exists evs, switch_to "2" (unlisted_state "div.t")
               = Ret false (State tt (ftable_locators "div.t") ([] ++ evs)) /\
               clicks evs = [] /\
               ev_not_found CSS_SELECTOR ("div.t" +:+ SWITCH_PAGE) ∈ evs).
Proof.
  intros x.
  edestruct (pager_lookup_failure "2" CSS_SELECTOR (container_selector "div.t")
               CSS_SELECTOR ("div.t" +:+ SWITCH_PAGE) (unlisted_state "div.t") tt tt x)
    as (Hn & Hp & Hs); [reflexivity..|].
  split; [apply Hn; reflexivity|]. split; [apply Hp; reflexivity | apply Hs; reflexivity].
Defined.

Section DeleteRowAll.
Context `{Driver World Elem}.
Local Abbreviation state := (state World Elem).

(** X22: whatever the row, the action and the page, [delete_row] does not
    raise and does not return [True]: when it returns, it returns [False], and
    the last line of its log is the error line of its handler. *)
Theorem delete_row_never_succeeds (fuel : nat) (self : AlertTable) (input_name : string)
    (action : option string) (s : state) :
  match delete_row fuel self input_name action s with
  | Ret b s' =>
      b = false /\
      exists cause, List.last (trace s') (EvSleep 0) = ev_unable action cause
  | Exc _ _ => False
  | OutOfFuel => True
  end.
Proof.
  destruct (delete_row_always_false fuel self input_name action s) as [->|(s1 & cause & ->)];
    [done|].
  split; [done|]. exists cause. cbn [with_events trace]. apply last_last.
Qed.

End DeleteRowAll.

(* ===================================================================== *)
(** ** The registry is written at [temp_col] only *)
(* ===================================================================== *)

Section Frame.
Context `{Driver World Elem}.
Local Abbreviation M := (M World Elem).
Local Abbreviation state := (state World Elem).

Lemma registry_frame_refl (s : state) : registry_frame s s.
Proof. by intros k Hk. Qed.

Lemma registry_frame_trans (s1 s2 s3 : state) :
  registry_frame s1 s2 -> registry_frame s2 s3 -> registry_frame s1 s3.
Proof. intros H12 H23 k Hk. by rewrite H23, H12. Qed.

Lemma registry_frame_same (s s' : state) : locators s' = locators s -> registry_frame s s'.
Proof. intros Heq k Hk. by rewrite Heq. Qed.

Lemma keeps_ret {A} (a : A) : keeps_registry (ret a : M A).
Proof. intros s. apply registry_frame_refl. Qed.

Lemma keeps_raise {A} (e : exn Elem) : keeps_registry (raise e : M A).
Proof. intros s. apply registry_frame_refl. Qed.

Lemma keeps_out_of_fuel {A} : keeps_registry (out_of_fuel : M A).
Proof. by intros s. Qed.

Lemma keeps_bind {A B} (m : M A) (k : A -> M B) :
  keeps_registry m -> (forall a, keeps_registry (k a)) -> keeps_registry (x <- m;; k x).
Proof.
  intros Hm Hk s. rewrite bind_run. specialize (Hm s).
  destruct (m s) as [a s1|e s1|]; [|done..].
  specialize (Hk a s1). destruct (k a s1) as [b s2|e s2|]; [| |done];
    by apply (registry_frame_trans s s1 s2).
Qed.

Lemma keeps_try_except {A} (m : M A) (h : exn Elem -> M A) :
  keeps_registry m -> (forall e, keeps_registry (h e)) -> keeps_registry (try_except m h).
Proof.
  intros Hm Hh s. unfold try_except. specialize (Hm s).
  destruct (m s) as [a s1|e s1|]; [done| |done].
  specialize (Hh e s1). destruct (h e s1) as [b s2|e' s2|]; [| |done];
    by apply (registry_frame_trans s s1 s2).
Qed.

Lemma keeps_log (lvl : level) (tpl : string) (args : list (fmtarg Elem)) :
  keeps_registry (log lvl tpl args : M unit).
Proof. intros s. by apply registry_frame_same. Qed.

Lemma keeps_observe {A} (f : World -> res Elem A) : keeps_registry (observe f : M _).
Proof. intros s. unfold observe. destruct (f (world s)); apply registry_frame_refl. Qed.

Lemma keeps_perform {A} (ev : event Elem) (f : World -> res Elem A * World) :
  keeps_registry (perform ev f : M _).
Proof.
  intros s. unfold perform. destruct (f (world s)) as [[a|e] w]; by apply registry_frame_same.
Qed.

Lemma keeps_index (l : list string) (i : nat) : keeps_registry (index l i : M string).
Proof. unfold index. destruct (l !! i); [apply keeps_ret | apply keeps_raise]. Qed.

Lemma keeps_unpack2 (l : list string) : keeps_registry (unpack2 l : M (string * string)).
Proof.
  unfold unpack2. destruct l as [|a [|b [|c l]]];
    first [apply keeps_ret | apply keeps_raise].
Qed.

Lemma keeps_get_locator (n : string) : keeps_registry (get_locator n : M _).
Proof.
  intros s. unfold get_locator.
  match goal with |- match ?m s with _ => _ end => assert (Hm : keeps_registry m); [|apply Hm] end.
  apply keeps_bind; [apply keeps_index|intros ?].
  apply keeps_bind; [apply keeps_index|intros ?].
  apply keeps_bind; [apply keeps_log|intros ?]. apply keeps_ret.
Qed.

Lemma keeps_update_temp_col (e : option string * string) :
  keeps_registry (update_locaters [("temp_col", e)] : M _).
Proof.
  intros s. rewrite update_locaters_run. intros k Hk. cbn [locators].
  rewrite dict_update_lookup. cbn [assoc_last].
  destruct (String.eqb_spec "temp_col" k); [congruence | done].
Qed.

End Frame.

(** One step of a frame proof. *)
Ltac keeps_step :=
  lazymatch goal with
  | |- keeps_registry (bind _ _) => apply keeps_bind; [|intros ?]
  | |- keeps_registry (try_except _ _) => apply keeps_try_except; [|intros ?]
  | |- keeps_registry (ret _) => apply keeps_ret
  | |- keeps_registry (raise _) => apply keeps_raise
  | |- keeps_registry out_of_fuel => apply keeps_out_of_fuel
  | |- keeps_registry (log _ _ _) => apply keeps_log
  | |- keeps_registry (observe _) => apply keeps_observe
  | |- keeps_registry (perform _ _) => apply keeps_perform
  | |- keeps_registry (unpack2 _) => apply keeps_unpack2
  | |- keeps_registry (get_locator _) => apply keeps_get_locator
  | |- keeps_registry (update_locaters [("temp_col", _)]) => apply keeps_update_temp_col
  | |- keeps_registry (if ?b then _ else _) => destruct b
  | |- keeps_registry (match ?x with _ => _ end) => destruct x
  | |- keeps_registry (let '(_, _) := ?x in _) => destruct x
  end.

Create HintDb frame.

Ltac keeps := cbv zeta; repeat first [keeps_step | solve [auto with frame]].

Section FrameMethods.
Context `{Driver World Elem}.
Local Abbreviation M := (M World Elem).
Local Abbreviation state := (state World Elem).

Lemma keeps_wait_for_element (n : string) (t : option nat) :
  keeps_registry (wait_for_element n t : M _).
Proof. unfold wait_for_element. keeps. Qed.
#[local] Hint Resolve keeps_wait_for_element : frame.

Lemma keeps_wait_for_element_invisible (n : string) (t : option nat) :
  keeps_registry (wait_for_element_invisible n t : M _).
Proof. unfold wait_for_element_invisible. keeps. Qed.
#[local] Hint Resolve keeps_wait_for_element_invisible : frame.

Lemma keeps_get_element (by_ v : string) : keeps_registry (get_element by_ v : M _).
Proof. unfold get_element. keeps. Qed.
#[local] Hint Resolve keeps_get_element : frame.

Lemma keeps__find_element (e : Elem) (n : string) : keeps_registry (_find_element e n : M _).
Proof. unfold _find_element. keeps. Qed.
#[local] Hint Resolve keeps__find_element : frame.

Lemma keeps__find_elements (by_ v : string) : keeps_registry (_find_elements by_ v : M _).
Proof. unfold _find_elements. keeps. Qed.
#[local] Hint Resolve keeps__find_elements : frame.

Lemma keeps_get_element_text (e : Elem) : keeps_registry (get_element_text e : M _).
Proof. unfold get_element_text. keeps. Qed.
#[local] Hint Resolve keeps_get_element_text : frame.

Lemma keeps_time_sleep (ms : N) : keeps_registry (time_sleep ms : M _).
Proof. unfold time_sleep. keeps. Qed.
#[local] Hint Resolve keeps_time_sleep : frame.

Lemma keeps__is_element_clickable (e : Elem) : keeps_registry (_is_element_clickable e : M _).
Proof. unfold _is_element_clickable. keeps. Qed.
#[local] Hint Resolve keeps__is_element_clickable : frame.

Lemma keeps_call_member (attr : string) : keeps_registry (call_member attr : M _).
Proof. unfold call_member. keeps. Qed.
#[local] Hint Resolve keeps_call_member : frame.

Lemma keeps_enter_text (n t : string) : keeps_registry (enter_text n t : M _).
Proof.
  intros s. unfold enter_text.
  pose proof (keeps_bind (get_locator n) (fun loc => unpack2 loc) (keeps_get_locator n)
                (fun l => keeps_unpack2 l) s) as Hhead.
  destruct ((loc <- get_locator n;; unpack2 loc) s) as [[by_ v] s1|e s1|]; [|done..].
  match goal with |- match ?m s1 with _ => _ end => assert (Hm : keeps_registry m) end.
  { keeps. }
  specialize (Hm s1).
  match goal with |- match ?x with _ => _ end => destruct x as [a s2|e s2|] end; [| |done];
    by apply (registry_frame_trans s s1 s2).
Qed.
#[local] Hint Resolve keeps_enter_text : frame.

Lemma keeps_get_text (n : string) : keeps_registry (get_text n : M _).
Proof. unfold get_text, strip_script. keeps. Qed.
#[local] Hint Resolve keeps_get_text : frame.

Lemma keeps_next_page_loop (elements : list Elem) (last : Elem) :
  keeps_registry (next_page_loop elements last : M _).
Proof.
  revert last. induction elements as [|e l IH]; intros last; cbn [next_page_loop]; keeps.
Qed.
#[local] Hint Resolve keeps_next_page_loop : frame.

Lemma keeps_page_loop (target : string) (elements : list Elem) (last : Elem) :
  keeps_registry (page_loop target elements last : M _).
Proof.
  revert last. induction elements as [|e l IH]; intros last; cbn [page_loop]; keeps.
Qed.
#[local] Hint Resolve keeps_page_loop : frame.

Lemma keeps_next_page : keeps_registry (next_page : M bool).
Proof. unfold next_page. keeps. Qed.
#[local] Hint Resolve keeps_next_page : frame.

Lemma keeps_prev_page : keeps_registry (prev_page : M bool).
Proof. unfold prev_page. keeps. Qed.
#[local] Hint Resolve keeps_prev_page : frame.

Lemma keeps_switch_to (v : string) : keeps_registry (switch_to v : M bool).
Proof. unfold switch_to. keeps. Qed.
#[local] Hint Resolve keeps_switch_to : frame.

Lemma keeps_get_list_of_rows (fuel : nat) (rows : option (list Elem)) :
  keeps_registry (get_list_of_rows fuel rows : M _).
Proof.
  revert rows. induction fuel as [|fuel IH]; intros rows; cbn [get_list_of_rows]; keeps.
Qed.
#[local] Hint Resolve keeps_get_list_of_rows : frame.

Lemma keeps_rows_generator_body (fuel : nat) :
  keeps_registry (rows_generator_body fuel : M _).
Proof.
  induction fuel as [|fuel IH]; cbn [rows_generator_body]; keeps.
Qed.
#[local] Hint Resolve keeps_rows_generator_body : frame.

Lemma keeps_rows_generator_next (fuel : nat) (g : rows_generator) :
  keeps_registry (rows_generator_next fuel g : M _).
Proof.
  destruct g as [|[|row rest]|]; cbn [rows_generator_next]; keeps.
Qed.
#[local] Hint Resolve keeps_rows_generator_next : frame.

Lemma keeps_collect (fuel : nat) (g : rows_generator) (acc : list Elem) :
  keeps_registry (collect fuel g acc : M _).
Proof.
  revert g acc. induction fuel as [|fuel IH]; intros g acc; cbn [collect]; keeps.
Qed.
#[local] Hint Resolve keeps_collect : frame.

Lemma keeps__column_value (self : AlertTable) (row : Elem) (column : string) :
  keeps_registry (_column_value self row column : M _).
Proof. unfold _column_value. keeps. Qed.
#[local] Hint Resolve keeps__column_value : frame.

Lemma keeps_get_total_rows_elements (fuel : nat) :
  keeps_registry (get_total_rows_elements fuel : M _).
Proof. unfold get_total_rows_elements. keeps. Qed.
#[local] Hint Resolve keeps_get_total_rows_elements : frame.

Lemma keeps_get_row_loop (fuel : nat) (self : AlertTable) (g : rows_generator)
    (value_ column : string) (is_search : bool) :
  keeps_registry (get_row_loop fuel self g value_ column is_search : M _).
Proof.
  revert g. induction fuel as [|fuel IH]; intros g; cbn [get_row_loop]; keeps.
Qed.
#[local] Hint Resolve keeps_get_row_loop : frame.

Lemma keeps_get_row (fuel : nat) (self : AlertTable) (value_ column : string)
    (is_search : bool) :
  keeps_registry (get_row fuel self value_ column is_search : M _).
Proof. unfold get_row. keeps. Qed.
#[local] Hint Resolve keeps_get_row : frame.

Lemma keeps_sort_table_loop (ths : list Elem) (column order : string) :
  keeps_registry (sort_table_loop ths column order : M _).
Proof.
  induction ths as [|th ths IH]; cbn [sort_table_loop]; keeps.
Qed.
#[local] Hint Resolve keeps_sort_table_loop : frame.

Lemma keeps_sort_table (column order : string) :
  keeps_registry (sort_table column order : M _).
Proof. unfold sort_table. keeps. Qed.
#[local] Hint Resolve keeps_sort_table : frame.

Lemma keeps_delete_row (fuel : nat) (self : AlertTable) (input_name : string)
    (action : option string) :
  keeps_registry (delete_row fuel self input_name action : M _).
Proof. unfold delete_row. keeps. Qed.
#[local] Hint Resolve keeps_delete_row : frame.

Lemma keeps_texts_of (elements : list Elem) (values : list string) :
  keeps_registry (texts_of elements values : M _).
Proof.
  revert values. induction elements as [|e l IH]; intros values; cbn [texts_of]; keeps.
Qed.
#[local] Hint Resolve keeps_texts_of : frame.

Lemma keeps_stripped_texts_of (elements : list Elem) :
  keeps_registry (stripped_texts_of elements : M _).
Proof.
  induction elements as [|e l IH]; cbn [stripped_texts_of]; keeps.
Qed.
#[local] Hint Resolve keeps_stripped_texts_of : frame.

Lemma keeps_get_headers_loop (ths : list Elem) (headers : list string) :
  keeps_registry (get_headers_loop ths headers : M _).
Proof.
  revert headers. induction ths as [|th ths IH]; intros headers; cbn [get_headers_loop];
    keeps.
Qed.
#[local] Hint Resolve keeps_get_headers_loop : frame.

Lemma keeps_get_headers : keeps_registry (get_headers : M _).
Proof. unfold get_headers. keeps. Qed.
#[local] Hint Resolve keeps_get_headers : frame.

Lemma keeps_get_alert_help_text_list : keeps_registry (get_alert_help_text_list : M _).
Proof. unfold get_alert_help_text_list. keeps. Qed.
#[local] Hint Resolve keeps_get_alert_help_text_list : frame.

Lemma keeps_get_alert_labels_list : keeps_registry (get_alert_labels_list : M _).
Proof. unfold get_alert_labels_list. keeps. Qed.
#[local] Hint Resolve keeps_get_alert_labels_list : frame.

Lemma keeps_get_rows_count (fuel : nat) : keeps_registry (get_rows_count fuel : M _).
Proof. unfold get_rows_count. keeps. Qed.
#[local] Hint Resolve keeps_get_rows_count : frame.

Lemma keeps_get_column_list_loop (fuel : nat) (self : AlertTable) (g : rows_generator)
    (column : string) (cols : list string) :
  keeps_registry (get_column_list_loop fuel self g column cols : M _).
Proof.
  revert g cols. induction fuel as [|fuel IH]; intros g cols; cbn [get_column_list_loop];
    keeps.
Qed.
#[local] Hint Resolve keeps_get_column_list_loop : frame.

Lemma keeps_get_column_value (fuel : nat) (self : AlertTable) (row column : string) :
  keeps_registry (get_column_value fuel self row column : M _).
Proof. unfold get_column_value. keeps. Qed.
#[local] Hint Resolve keeps_get_column_value : frame.

Lemma keeps_update_status (fuel : nat) (self : AlertTable) (input_name : string)
    (enable : bool) :
  keeps_registry (update_status fuel self input_name enable : M _).
Proof. unfold update_status. keeps. Qed.
#[local] Hint Resolve keeps_update_status : frame.

Lemma keeps_get_input_count : keeps_registry (get_input_count : M _).
Proof. unfold get_input_count. keeps. Qed.
#[local] Hint Resolve keeps_get_input_count : frame.

Lemma keeps_edit_row (fuel : nat) (self : AlertTable) (input_name : string) :
  keeps_registry (edit_row fuel self input_name : M _).
Proof. unfold edit_row. keeps. Qed.
#[local] Hint Resolve keeps_edit_row : frame.

Lemma keeps_clone_row (fuel : nat) (self : AlertTable) (input_name : string) :
  keeps_registry (clone_row fuel self input_name : M _).
Proof. unfold clone_row. keeps. Qed.
#[local] Hint Resolve keeps_clone_row : frame.

Lemma keeps_get_expanded_row_value (fuel : nat) (self : AlertTable) (input_name : string) :
  keeps_registry (get_expanded_row_value fuel self input_name : M _).
Proof. unfold get_expanded_row_value. keeps. Qed.
#[local] Hint Resolve keeps_get_expanded_row_value : frame.

End FrameMethods.

#[global] Hint Resolve keeps_wait_for_element keeps_wait_for_element_invisible
  keeps_get_element keeps__find_element keeps__find_elements keeps_get_element_text
  keeps_time_sleep keeps__is_element_clickable keeps_call_member keeps_enter_text
  keeps_get_text keeps_next_page_loop keeps_page_loop keeps_next_page keeps_prev_page
  keeps_switch_to keeps_get_list_of_rows keeps_rows_generator_body
  keeps_rows_generator_next keeps_collect keeps__column_value
  keeps_get_total_rows_elements keeps_get_row_loop keeps_get_row keeps_sort_table_loop
  keeps_sort_table keeps_delete_row keeps_texts_of keeps_stripped_texts_of
  keeps_get_headers_loop keeps_get_headers keeps_get_alert_help_text_list
  keeps_get_alert_labels_list keeps_get_rows_count keeps_get_column_list_loop
  keeps_get_column_value keeps_update_status keeps_get_input_count keeps_edit_row
  keeps_clone_row keeps_get_expanded_row_value : frame.

(* ===================================================================== *)
(** ** Locators that are not registered, values that are not normalized *)
(* ===================================================================== *)

Section Unregistered.
Context `{Driver World Elem}.
Local Abbreviation M := (M World Elem).
Local Abbreviation state := (state World Elem).

Lemma needs_bind {A B} (k : string) (m : M A) (f : A -> M B) :
  k <> "temp_col" -> keeps_registry m -> (forall a, needs_locator k (f a)) ->
  needs_locator k (x <- m;; f x).
Proof.
  intros Hk Hm Hf s Hs b s'. rewrite bind_run. specialize (Hm s).
  destruct (m s) as [a s1|e s1|]; [|done..].
  apply Hf. by rewrite Hm.
Qed.

Lemma needs_wait_for_element {B} (k : string) (t : option nat) (f : Elem -> M B) :
  needs_locator k (x <- wait_for_element k t;; f x).
Proof.
  intros s Hs b s'. by rewrite bind_run, wait_for_element_unknown.
Qed.

Lemma edit_row_needs (fuel : nat) (self : AlertTable) (input_name : string) :
  needs_locator "open_modal" (edit_row fuel self input_name).
Proof.
  unfold edit_row.
  do 7 (apply needs_bind; [discriminate | solve [keeps] | intros ?]).
  apply needs_wait_for_element.
Qed.

Lemma clone_row_needs (fuel : nat) (self : AlertTable) (input_name : string) :
  needs_locator "open_modal" (clone_row fuel self input_name).
Proof.
  unfold clone_row.
  do 7 (apply needs_bind; [discriminate | solve [keeps] | intros ?]).
  apply needs_wait_for_element.
Qed.

Lemma get_expanded_row_value_needs (fuel : nat) (self : AlertTable) (input_name : string) :
  needs_locator "expanded_row" (get_expanded_row_value fuel self input_name).
Proof.
  unfold get_expanded_row_value.
  do 6 (apply needs_bind; [discriminate | solve [keeps] | intros ?]).
  apply needs_wait_for_element.
Qed.

(** The constructor adds the names of [table_names] and no other. *)
Lemma AlertTable_init_other_keys (w : World) (container : locator_dict)
    (self : AlertTable) (s : state) (k : string) :
  AlertTable_init w container = Ret self s ->
  k ∉ table_names -> locators s !! k = Locator_init container !! k.
Proof.
  destruct container as [|[n e0] rest]; [discriminate|]. unfold AlertTable_init.
  destruct (comprehension ((n, e0) :: rest) !! n) as [[|a [|b [|c l]]]|]; try discriminate.
  intros [= <- <-] Hk. cbn [locators].
  unfold table_names in Hk. apply not_elem_of_app in Hk as [Hb Hn].
  rewrite !dict_update_lookup.
  rewrite (assoc_last_None k (new_locator b)) by exact Hn.
  by rewrite (assoc_last_None k base_locators) by exact Hb.
Qed.

(** X21: [edit_row] and [clone_row] end with a wait for [open_modal], and
    [get_expanded_row_value] waits for [expanded_row]. From a state whose
    registry has no such entry none of them returns a value, whatever the
    page shows. And the constructor of the table registers neither name: they
    are in the registry only if the container brought them. *)
Theorem edit_clone_expand_need_unregistered_locators :
  (forall fuel self input_name,
     needs_locator "open_modal" (edit_row fuel self input_name) /\
     needs_locator "open_modal" (clone_row fuel self input_name) /\
     needs_locator "expanded_row" (get_expanded_row_value fuel self input_name)) /\
  (forall (w : World) container self (s : state) k,
     AlertTable_init w container = Ret self s ->
     k = "open_modal" \/ k = "expanded_row" ->
     k ∉ map fst container ->
     locators s !! k = None).
Proof.
  split.
  - intros fuel self input_name.
    split; [apply edit_row_needs|]. split; [apply clone_row_needs|].
    apply get_expanded_row_value_needs.
  - intros w container self s k Hinit Hk Hnot.
    rewrite (AlertTable_init_other_keys w container self s k Hinit).
    + unfold Locator_init. rewrite comprehension_lookup.
      by rewrite (assoc_last_None k container).
    + destruct Hk as [->| ->]; vm_compute; intros Hin;
        repeat (apply elem_of_cons in Hin as [Hin|Hin]; [discriminate|]);
        by apply elem_of_nil in Hin.
Qed.

Lemma returns_only_bind {A B} (m : M A) (k : A -> M B) (Q : B -> Prop) :
  (forall a, returns_only (k a) Q) -> returns_only (x <- m;; k x) Q.
Proof.
  intros Hk s b s'. rewrite bind_run. destruct (m s) as [a s1|e s1|]; [|done..].
  apply Hk.
Qed.

Lemma returns_only_ret {A} (a : A) (Q : A -> Prop) : Q a -> returns_only (ret a : M A) Q.
Proof. by intros Ha s b s' [= <- _]. Qed.

Lemma column_text_idemp (col t : string) :
  column_text col (column_text col t) = column_text col t.
Proof.
  unfold column_text. destruct (String.eqb col "status").
  - apply strip_idemp.
  - apply normalize_idemp.
Qed.

Lemma _column_value_returns (self : AlertTable) (row : Elem) (column : string) :
  returns_only (_column_value self row column)
    (fun t => exists inner, t = column_text (normalize_column column) inner).
Proof.
  unfold _column_value, column_text. fold (normalize_column column).
  do 2 (apply returns_only_bind; intros ?).
  destruct (String.eqb (normalize_column column) "status").
  - do 2 (apply returns_only_bind; intros ?). apply returns_only_ret. by eexists.
  - do 2 (apply returns_only_bind; intros ?).
    unfold get_element_text. apply returns_only_bind; intros [inner|].
    + apply returns_only_ret. by eexists.
    + by intros s t s'.
Qed.

Lemma get_row_loop_never (fuel : nat) (self : AlertTable) (g : rows_generator)
    (value_ column : string) :
  column_text (normalize_column column) value_ <> value_ ->
  never_returns (get_row_loop fuel self g value_ column false).
Proof.
  intros Hv. revert g. induction fuel as [|fuel IH]; intros g; [by intros s a s'|].
  cbn [get_row_loop]. apply never_returns_bind_r; intros r.
  destruct r.1 as [row|]; [|apply never_returns_raise].
  intros s a s'. rewrite bind_run.
  destruct (_column_value self row column s) as [t s1|e s1|] eqn:Hcv; [|done..].
  destruct (_column_value_returns self row column s t s1 Hcv) as [inner ->].
  destruct (String.eqb_spec (column_text (normalize_column column) inner) value_) as [Heq|Hne].
  - destruct Hv. by rewrite <- Heq, column_text_idemp.
  - apply IH.
Qed.

(** X9: in exact mode [get_row] compares the value with a text that
    [_column_value] has already normalized. So a value that is not in that
    normal form itself (for the status column: white space at either end; for
    any other column also a tab, a line feed or two spaces in a row) matches
    no row: whatever the page shows, [get_row] does not return. *)
Theorem get_row_exact_needs_normalized_value (fuel : nat) (self : AlertTable)
    (value_ column : string) :
  column_text (normalize_column column) value_ <> value_ ->
  never_returns (get_row fuel self value_ column false).
Proof.
  intros Hv. unfold get_row. apply never_returns_bind_r; intros _.
  by apply get_row_loop_never.
Qed.

End Unregistered.

Lemma edit_clone_expand_need_unregistered_locators_witness :
  let s := fstate "div.t" [fcontrol_page "div.t" [fcontrol_row "div.t" 10 "x" "Enabled"]] in
  (forall a s', edit_row 5 (ftable_self "div.t") "x" s <> Ret a s') /\
  match edit_row 5 (ftable_self "div.t") "x" s with
  | Exc e s' =>
      e = IndexError /\
      clicks (trace s') = [fcontrol 14 "Edit" (ClickReveal "div.modal")] /\
      fvisible "div.modal" (world s') = true
  | _ => False
  end.
Proof.
  intros s. split.
  - destruct (edit_clone_expand_need_unregistered_locators (World := fworld) (Elem := felem))
      as [Hneeds _].
    destruct (Hneeds 5 (ftable_self "div.t") "x") as (Hedit & _ & _).
    apply Hedit. reflexivity.
  - vm_compute. repeat split; reflexivity.
Defined.

Lemma get_row_exact_needs_normalized_value_witness :
  never_returns (get_row 5 (ftable_self "div.t") "a  b" "name" false
                 : M fworld felem felem) /\
  match get_row 5 (ftable_self "div.t") "a  b" "name" false
                (fstate "div.t" (ftable "div.t" "name" 0 [["a  b"]])) with
  | Exc e _ => e = ValueError (Fmt "{} row not found in table" [AStr "a  b"])
  | _ => False
  end.
Proof.
  split.
  - apply get_row_exact_needs_normalized_value. discriminate.
  - vm_compute. reflexivity.
Defined.

(* ===================================================================== *)
(** ** The element façade: [click_element] and the unknown locator *)
(* ===================================================================== *)

Section FacadeClick.
Context `{Driver World Elem} `{WaitDriver World Elem}.
Local Abbreviation M := (M World Elem).
Local Abbreviation state := (state World Elem).

Lemma wait_for_element_clickable_run (n by_ v : string) (s : state)
    (r : res Elem Elem) (w' : World) :
  locators s !! n = Some [by_; v] ->
  until_clickable by_ v DEFAULT_WAIT (msg_not_clickable n by_ v) (world s) = (r, w') ->
  wait_for_element_clickable n s =
  let s' := State w' (locators s)
                  (trace s ++ [ev_getting n by_ v; ev_waiting_clickable n by_ v]) in
  match r with
  | Ok e => Ret e s'
  | Err e => Exc e s'
  end.
Proof.
  intros Hl Hw. unfold wait_for_element_clickable.
  rewrite bind_run, (get_locator_known n by_ v) by done.
  cbn [unpack2 ret]. rewrite bind_run. cbn [ret]. cbn beta iota zeta.
  rewrite bind_run, log_run. unfold await. cbn [with_events world locators trace].
  unfold msg_not_clickable in Hw. rewrite Hw. rewrite <- !app_assoc. by destruct r.
Qed.

(** X4: with its locator in the registry, [click_element] clicks the element
    its wait returned, once, and does nothing else to the page. It never
    swallows an error: when the wait raises, or the click, it logs one error
    line and raises the same exception again. *)
Theorem click_element_outcome (locator by_ v : string) (s : state)
    (r : res Elem Elem) (w1 : World) :
  locators s !! locator = Some [by_; v] ->
  until_clickable by_ v DEFAULT_WAIT (msg_not_clickable locator by_ v) (world s) = (r, w1) ->
  let waited := [ev_getting locator by_ v; ev_waiting_clickable locator by_ v] in
  match r with
  | Err x =>
      click_element locator s
      = Exc x (State w1 (locators s)
                     (trace s ++ waited ++ [ev_click_error locator (exn_name x)]))
  | Ok element =>
      forall r2 w2,
        click element w1 = (r2, w2) ->
        click_element locator s =
        match r2 with
        | Ok _ => Ret tt (State w2 (locators s) (trace s ++ waited ++ [EvClick element]))
        | Err x =>
            Exc x (State w2 (locators s)
                         (trace s ++ waited ++ [EvClick element;
                                                ev_click_error locator (exn_name x)]))
        end
  end.
Proof.
  intros Hl Hw waited. unfold click_element, try_except. rewrite bind_run.
  rewrite (wait_for_element_clickable_run locator by_ v s r w1) by done.
  cbn zeta. destruct r as [element|x].
  - intros r2 w2 Hk. unfold perform. cbn [world locators trace]. rewrite Hk.
    destruct r2 as [[]|x].
    + by rewrite <- !app_assoc.
    + rewrite bind_run, log_run. unfold raise, with_events. cbn [world locators trace].
      by rewrite <- !app_assoc.
  - rewrite bind_run, log_run. unfold raise, with_events. cbn [world locators trace].
    by rewrite <- !app_assoc.
Qed.

(** X3: a locator name that is not in the registry. The waits,
    [_find_element], [get_text] and [click_element] raise [IndexError] before
    anything is asked of the page, [click_element] after the error line of its
    handler. [enter_text] does not: the log line of its handler reads [by],
    which was never bound, and what the caller sees is [UnboundLocalError]. *)
Theorem unknown_locator_raises (n : string) (s : state) :
  locators s !! n = None ->
  (forall t, wait_for_element n t s = Exc IndexError (with_events s [ev_waiting n])) /\
  (forall t, wait_for_element_invisible n t s = Exc IndexError s) /\
  wait_for_element_clickable n s = Exc IndexError s /\
  (forall e, _find_element e n s = Exc IndexError s) /\
  get_text n s = Exc IndexError s /\
  click_element n s = Exc IndexError (with_events s [ev_click_error n "IndexError"]) /\
  (forall t, enter_text n t s = Exc (UnboundLocalError "by") s).
Proof.
  intros Hl.
  assert (Hg : get_locator n s = Exc IndexError s).
  { unfold get_locator. by rewrite Hl. }
  split; [intros t; by apply wait_for_element_unknown|].
  split; [intros t; unfold wait_for_element_invisible; by rewrite bind_run, Hg|].
  assert (Hc : wait_for_element_clickable n s = Exc IndexError s).
  { unfold wait_for_element_clickable. by rewrite bind_run, Hg. }
  split; [exact Hc|].
  split; [intros e; unfold _find_element; by rewrite bind_run, Hg|].
  split; [unfold get_text; by rewrite bind_run, Hg|].
  split.
  - unfold click_element, try_except. by rewrite bind_run, Hc.
  - intros t. unfold enter_text. by rewrite bind_run, Hg.
Qed.

End FacadeClick.

Lemma unknown_locator_raises_witness :
  let s := fstate "div.t" [fcontrol_page "div.t" []] in
  click_element "close" s = Exc IndexError (with_events s [ev_click_error "close" "IndexError"])
  /\ enter_text "close" "x" s = Exc (UnboundLocalError "by") s.
Proof.
  intros s.
  destruct (unknown_locator_raises "close" s eq_refl) as (_ & _ & _ & _ & _ & Hc & He).
  split; [exact Hc | exact (He "x")].
Defined.

Lemma click_element_outcome_witness :
  let s := fstate "div.t" [fcontrol_page "div.t" []] in
  click_element "clear_filter" s
  = Ret tt (State [fcontrol_page "div.t" []] (ftable_locators "div.t")
                  ([] ++ [ev_getting "clear_filter" CSS_SELECTOR CLEAR_SELECTOR;
                          ev_waiting_clickable "clear_filter" CSS_SELECTOR CLEAR_SELECTOR]
                      ++ [EvClick (fcontrol 5 "Clear" ClickNothing)])).
Proof.
  intros s.
  refine (click_element_outcome "clear_filter" CSS_SELECTOR CLEAR_SELECTOR s
            (Ok (fcontrol 5 "Clear" ClickNothing)) [fcontrol_page "div.t" []]
            _ _ (Ok tt) [fcontrol_page "div.t" []] _); reflexivity.
Defined.

(* ===================================================================== *)
(** ** Sorting a column that is sorted *)
(* ===================================================================== *)

Section SortSorted.
Context `{Driver World Elem}.
Local Abbreviation state := (state World Elem).

(** The loop passes over the headers of other columns. *)
Lemma sort_table_loop_skip_all (pre rest : list Elem) (column order : string) (s : state) :
  Forall (header_differs (world s) column) pre ->
  exists evs,
    clicks evs = [] /\
    sort_table_loop (pre ++ rest) column order s
    = sort_table_loop rest column order (with_events s evs).
Proof.
  revert s. induction pre as [|th pre IH]; intros s Hall.
  - exists []. by rewrite with_events_nil.
  - inversion Hall as [|? ? Hth Hpre]; subst. cbn [app].
    destruct (sort_table_loop_skip th (pre ++ rest) column order s Hth) as (evs1 & Hc1 & ->).
    destruct (IH (with_events s evs1) Hpre) as (evs2 & Hc2 & ->).
    exists (evs1 ++ evs2). rewrite with_events_app. split; [|done].
    by rewrite clicks_app, Hc1, Hc2.
Qed.

(** At a header of the column that is sorted one way or the other. *)
Lemma sort_table_loop_sorted (th : Elem) (rest : list Elem) (column order cur : string)
    (s : state) :
  header_matches (world s) column th ->
  get_attribute th "data-test-sort-dir" (world s) = Ok (Some cur) ->
  order = "asc" \/ order = "desc" -> cur = "asc" \/ cur = "desc" ->
  (cur = order ->
   exists evs, clicks evs = [] /\
               sort_table_loop (th :: rest) column order s = Ret true (with_events s evs)) /\
  (cur <> order ->
   forall r w2, click th (world s) = (r, w2) ->
   exists evs, clicks evs = [th] /\
               sort_table_loop (th :: rest) column order s =
               match r with
               | Ok _ => Ret true (State (sleep 100 w2) (locators s) (trace s ++ evs))
               | Err x => Exc x (State w2 (locators s)
                                       (trace s ++ removelast evs))
               end).
Proof.
  intros (t & Ht & Hne & Hlow) Hcur Horder Hdir.
  assert (Hhead : sort_table_loop (th :: rest) column order s =
    (let is_ v := bool_decide (Some cur = Some v) in
     if (String.eqb order "asc" && is_ "asc") || (String.eqb order "desc" && is_ "desc")
     then log INFO "Already sorted." [];; ret true
     else perform (EvClick th) (click th);; time_sleep 100;; ret true)
      (with_events s [EvLog INFO (Fmt "Th in sort: {}" [AStr (lower t)]);
                      EvLog INFO (Fmt "Sorting" [])])).
  { cbn [sort_table_loop].
    rewrite bind_run. unfold observe at 1. rewrite Ht.
    rewrite bind_run, log_run, bind_run. unfold observe at 1.
    cbn [with_events world]. rewrite Ht. rewrite bind_run.
    apply String.eqb_neq in Hne. rewrite Hne. cbn [negb].
    rewrite bind_run. unfold observe at 1. cbn [with_events world]. rewrite Ht.
    cbn [ret]. rewrite Hlow, String.eqb_refl.
    rewrite bind_run, log_run, bind_run. unfold observe at 1.
    cbn [with_events world]. rewrite Hcur. unfold with_events. cbn [world locators trace].
    rewrite <- !app_assoc. cbn [app]. cbn zeta.
    destruct Horder as [-> | ->], Hdir as [-> | ->]; reflexivity. }
  rewrite Hhead. clear Hhead. cbn zeta. split.
  - intros ->.
    assert (Hb : (String.eqb order "asc" && bool_decide (Some order = Some "asc"))
                 || (String.eqb order "desc" && bool_decide (Some order = Some "desc")) = true).
    { destruct Horder as [-> | ->]; reflexivity. }
    rewrite Hb, bind_run, log_run. cbn [ret]. rewrite with_events_app.
    eexists. split; [|reflexivity]. reflexivity.
  - intros Hno r w2 Hk.
    assert (Hb : (String.eqb order "asc" && bool_decide (Some cur = Some "asc"))
                 || (String.eqb order "desc" && bool_decide (Some cur = Some "desc")) = false).
    { destruct Horder as [-> | ->], Hdir as [-> | ->]; try reflexivity; by destruct Hno. }
    rewrite Hb. rewrite bind_run. unfold perform at 1.
    cbn [with_events world locators trace]. rewrite Hk.
    exists [EvLog INFO (Fmt "Th in sort: {}" [AStr (lower t)]);
            EvLog INFO (Fmt "Sorting" []); EvClick th; EvSleep 100].
    split; [reflexivity|]. destruct r as [[]|x].
    + rewrite bind_run. unfold time_sleep, perform. cbn [world locators trace ret].
      by rewrite <- !app_assoc.
    + cbn [removelast]. by rewrite <- !app_assoc.
Qed.

(** X17: [sort_table] on a column whose header says how it is sorted, for
    the orders [asc] and [desc]. If the column is already in the order asked
    for, it returns [True] and clicks nothing; if it is in the other order, it
    clicks the header once, pauses for a tenth of a second and returns
    [True]. The headers before it, of other columns or without text, are
    passed over. *)
Theorem sort_table_sorted_column (column order cur by_ v by2 v2 : string) (s : state)
    (c : Elem) (w1 : World) (pre post : list Elem) (th : Elem) :
  locators s !! "table_head" = Some [by_; v] ->
  locators s !! "table_headers" = Some [by2; v2] ->
  until_visible by_ v DEFAULT_WAIT (msg_not_visible "table_head" by_ v) (world s)
    = (Ok c, w1) ->
  find_elements by2 v2 w1 = Ok (pre ++ th :: post) ->
  Forall (header_differs w1 column) pre ->
  header_matches w1 column th ->
  get_attribute th "data-test-sort-dir" w1 = Ok (Some cur) ->
  order = "asc" \/ order = "desc" -> cur = "asc" \/ cur = "desc" ->
  (* already in the order asked for: nothing is clicked *)
  (cur = order ->
   exists evs, sort_table column order s
               = Ret true (State w1 (locators s) (trace s ++ evs)) /\
               clicks evs = []) /\
  (* in the other order: one click on the header *)
  (cur <> order ->
   forall w2, click th w1 = (Ok tt, w2) ->
   exists evs, sort_table column order s
               = Ret true (State (sleep 100 w2) (locators s) (trace s ++ evs)) /\
               clicks evs = [th]).
Proof.
  intros Hh Hths Hw Hf Hpre Hth Hcur Horder Hdir.
  destruct (sort_table_run s column order by_ v by2 v2 c w1 _ Hh Hths Hw Hf)
    as (evs0 & Hc0 & ->).
  set (s1 := State w1 (locators s) (trace s ++ evs0)).
  destruct (sort_table_loop_skip_all pre (th :: post) column order s1 Hpre)
    as (evs1 & Hc1 & ->).
  destruct (sort_table_loop_sorted th post column order cur (with_events s1 evs1)
              Hth Hcur Horder Hdir) as (Hsame & Hother).
  split.
  - intros Heq. destruct (Hsame Heq) as (evs2 & Hc2 & ->).
    exists (evs0 ++ evs1 ++ evs2). unfold with_events. cbn [s1 world locators trace].
    rewrite <- !app_assoc. split; [done|]. by rewrite !clicks_app, Hc0, Hc1, Hc2.
  - intros Hne w2 Hk. destruct (Hother Hne (Ok tt) w2 Hk) as (evs2 & Hc2 & ->).
    exists (evs0 ++ evs1 ++ evs2). unfold with_events. cbn [s1 world locators trace].
    rewrite <- !app_assoc. split; [done|]. by rewrite !clicks_app, Hc0, Hc1, Hc2.
Qed.

End SortSorted.

Lemma sort_table_sorted_column_witness :
  let ths := [fheader 1 EmptyString None; fheader 2 "Name" (Some "asc")] in
  let s := fstate "div.t" [fhead_page "div.t" ths] in
  (exists evs, sort_table "name" "asc" s
               = Ret true (State [fhead_page "div.t" ths] (ftable_locators "div.t")
                                 ([] ++ evs)) /\
               clicks evs = []) /\
  (exists evs, sort_table "name" "desc" s
               = Ret true (State [fhead_page "div.t" ths] (ftable_locators "div.t")
                                 ([] ++ evs)) /\
               clicks evs = [fheader 2 "Name" (Some "asc")]).
Proof.
  intros ths s.
  assert (Hpre : Forall (header_differs [fhead_page "div.t" ths] "name")
                        [fheader 1 EmptyString None]).
  { constructor; [|constructor]. exists EmptyString. split; [reflexivity | by left]. }
  assert (Hth : header_matches [fhead_page "div.t" ths] "name" (fheader 2 "Name" (Some "asc"))).
  { exists "Name". split; [reflexivity|]. split; [discriminate | reflexivity]. }
  split.
  - refine (proj1 (sort_table_sorted_column "name" "asc" "asc"
                     CSS_SELECTOR head_selector CSS_SELECTOR ("div.t" +:+ " th") s
                     (plain 0 EmptyString) [fhead_page "div.t" ths]
                     [fheader 1 EmptyString None] [] (fheader 2 "Name" (Some "asc"))
                     _ _ _ _ Hpre Hth _ _ _) _);
      first [reflexivity | by left].
  - refine (proj2 (sort_table_sorted_column "name" "desc" "asc"
                     CSS_SELECTOR head_selector CSS_SELECTOR ("div.t" +:+ " th") s
                     (plain 0 EmptyString) [fhead_page "div.t" ths]
                     [fheader 1 EmptyString None] [] (fheader 2 "Name" (Some "asc"))
                     _ _ _ _ Hpre Hth _ _ _) _ [fhead_page "div.t" ths] _);
      first [reflexivity | discriminate | by left | by right].
Defined.

(* ===================================================================== *)
(** ** Headers, help texts and labels *)
(* ===================================================================== *)

Section TextLists.
Context `{Driver World Elem}.
Local Abbreviation state := (state World Elem).

Lemma texts_of_run (elements : list Elem) (texts values : list string) (s : state) :
  Forall2 (fun e t => text e (world s) = Ok t) elements texts ->
  texts_of elements values s = Ret (values ++ texts) s.
Proof.
  intros Hall. revert values.
  induction Hall as [|e t elements texts He _ IH]; intros values; cbn [texts_of].
  - by rewrite app_nil_r.
  - rewrite bind_run. unfold observe. rewrite He, IH. by rewrite <- app_assoc.
Qed.

Lemma get_headers_loop_run (ths : list Elem) (texts headers : list string) (s : state) :
  Forall2 (fun th t => text th (world s) = Ok t) ths texts ->
  exists evs,
    clicks evs = [] /\
    get_headers_loop ths headers s
    = Ret (headers ++ map strip (filter (fun t => t <> EmptyString) texts))
          (with_events s evs).
Proof.
  intros Hall. revert headers s Hall.
  assert (Hgen : forall s0 : state,
             Forall2 (fun th t => text th (world s0) = Ok t) ths texts ->
             forall headers (s : state), world s = world s0 ->
             exists evs,
               clicks evs = [] /\
               get_headers_loop ths headers s
               = Ret (headers ++ map strip (filter (fun t => t <> EmptyString) texts))
                     (with_events s evs)).
  { intros s0 Hall.
    induction Hall as [|th t ths texts Hth _ IH]; intros headers s Hw; cbn [get_headers_loop].
    - exists []. by rewrite with_events_nil, app_nil_r.
    - rewrite <- Hw in Hth.
      rewrite bind_run. unfold observe at 1. rewrite Hth.
      rewrite bind_run, log_run, bind_run. unfold observe at 1.
      cbn [with_events world]. rewrite Hth.
      rewrite filter_cons. destruct (String.eqb_spec t EmptyString) as [Ht|Ht].
      + cbn [negb]. rewrite decide_False by (intros Hn; by apply Hn).
        destruct (IH headers (with_events s [EvLog INFO (Fmt "get headers: {}" [AStr t])]))
          as (evs & Hc & ->); [done|].
        eexists. rewrite with_events_app. split; [|reflexivity].
        by rewrite clicks_app, Hc.
      + cbn [negb]. rewrite decide_True by done.
        rewrite bind_run. unfold observe at 1. cbn [with_events world]. rewrite Hth.
        destruct (IH (headers ++ [strip t])
                     (with_events s [EvLog INFO (Fmt "get headers: {}" [AStr t])]))
          as (evs & Hc & ->); [done|].
        eexists. rewrite with_events_app. cbn [map]. rewrite <- app_assoc.
        split; [|reflexivity]. by rewrite clicks_app, Hc. }
  intros headers s Hall. by apply (Hgen s Hall).
Qed.

(** X18: with the head visible, [get_headers] returns the stripped text of
    every header cell whose text is not empty, in order, and clicks nothing. A
    cell whose text is white space only is not skipped: it gives the empty
    string. *)
Theorem get_headers_outcome (by_ v by2 v2 : string) (s : state) (c : Elem) (w1 : World)
    (ths : list Elem) (texts : list string) :
  locators s !! "table_head" = Some [by_; v] ->
  locators s !! "table_headers" = Some [by2; v2] ->
  until_visible by_ v DEFAULT_WAIT (msg_not_visible "table_head" by_ v) (world s)
    = (Ok c, w1) ->
  find_elements by2 v2 w1 = Ok ths ->
  Forall2 (fun th t => text th w1 = Ok t) ths texts ->
  exists evs,
    get_headers s
    = Ret (map strip (filter (fun t => t <> EmptyString) texts))
          (State w1 (locators s) (trace s ++ evs)) /\
    clicks evs = [].
Proof.
  intros Hh Hths Hw Hf Hall. unfold get_headers.
  rewrite bind_run, (wait_for_element_run "table_head" by_ v None s (Ok c) w1) by done.
  cbn beta iota zeta. rewrite bind_run.
  rewrite (get_locator_known "table_headers" by2 v2) by done.
  cbn [unpack2 ret]. rewrite bind_run. cbn [ret fst snd]. rewrite bind_run.
  rewrite _find_elements_run. unfold with_events at 1 2. cbn [world locators trace]. rewrite Hf.
  rewrite bind_run.
  match goal with |- context [get_headers_loop ths [] ?s1] =>
    destruct (get_headers_loop_run ths texts [] s1 Hall) as (evs & Hc & ->) end.
  cbn [app]. rewrite bind_run, log_run. cbn [ret]. unfold with_events.
  cbn [world locators trace]. rewrite <- !app_assoc.
  eexists. split; [reflexivity|].
  rewrite !clicks_app, Hc. reflexivity.
Qed.

(** X7: [get_alert_help_text_list] does not wait, and it does not raise when
    the help blocks cannot be listed: it logs the error and returns the empty
    list; otherwise it returns the text of each block, in order.
    [get_alert_labels_list] first waits for a label to be visible: it raises
    what that wait raises, and otherwise returns the text of each label, in
    order. *)
Theorem alert_text_lists_outcome (s : state) :
  (* the help texts: no wait, and a failing lookup gives the empty list *)
  (forall by_ v,
     locators s !! "help" = Some [by_; v] ->
     (forall x, find_elements by_ v (world s) = Err x ->
        exists evs, get_alert_help_text_list s = Ret [] (with_events s evs) /\
                    ev_not_found by_ v ∈ evs) /\
     (forall elements texts,
        find_elements by_ v (world s) = Ok elements ->
        Forall2 (fun e t => text e (world s) = Ok t) elements texts ->
        exists evs, get_alert_help_text_list s = Ret texts (with_events s evs))) /\
  (* the labels: the first label has to be visible *)
  (forall by_ v r w1,
     locators s !! "label_component" = Some [by_; v] ->
     until_visible by_ v DEFAULT_WAIT (msg_not_visible "label_component" by_ v) (world s)
       = (r, w1) ->
     match r with
     | Err x => exists evs, get_alert_labels_list s
                            = Exc x (State w1 (locators s) (trace s ++ evs))
     | Ok _ =>
         forall elements texts,
           find_elements by_ v w1 = Ok elements ->
           Forall2 (fun e t => text e w1 = Ok t) elements texts ->
           exists evs, get_alert_labels_list s
                       = Ret texts (State w1 (locators s) (trace s ++ evs))
     end).
Proof.
  split.
  - intros by_ v Hl.
    assert (Hrun : get_alert_help_text_list s =
                   (elements <- _find_elements by_ v;;
                    values <- texts_of elements [];;
                    log INFO "Help texts: {}" (map AStr values);;
                    ret values)
                     (with_events s [EvLog INFO (Fmt "Getting help text." []);
                                     ev_getting "help" by_ v])).
    { unfold get_alert_help_text_list. rewrite bind_run, log_run, bind_run.
      rewrite (get_locator_known "help" by_ v) by done.
      cbn [unpack2 ret]. rewrite bind_run. cbn [ret fst snd].
      by rewrite with_events_app. }
    rewrite Hrun. split.
    + intros x Hf. rewrite bind_run, _find_elements_run. cbn [with_events world]. rewrite Hf.
      cbn [texts_of]. rewrite bind_run. cbn [ret]. rewrite bind_run, log_run. cbn [ret map].
      rewrite !with_events_app. eexists. split; [reflexivity|]. set_solver.
    + intros elements texts Hf Hall.
      rewrite bind_run, _find_elements_run. cbn [with_events world]. rewrite Hf.
      rewrite bind_run, (texts_of_run elements texts) by done.
      cbn [app]. rewrite bind_run, log_run. cbn [ret]. rewrite with_events_app.
      by eexists.
  - intros by_ v r w1 Hl Hw. unfold get_alert_labels_list.
    rewrite bind_run, log_run, bind_run.
    rewrite (wait_for_element_run "label_component" by_ v None _ r w1) by done.
    cbn beta iota zeta. cbn [with_events world locators trace].
    destruct r as [e|x].
    + intros elements texts Hf Hall. rewrite bind_run.
      rewrite (get_locator_known "label_component" by_ v) by done.
      cbn [unpack2 ret]. rewrite bind_run. cbn [ret fst snd].
      rewrite bind_run, _find_elements_run. cbn [with_events world]. rewrite Hf.
      rewrite bind_run, (texts_of_run elements texts) by done.
      cbn [app]. rewrite bind_run, log_run. cbn [ret]. unfold with_events.
      cbn [world locators trace]. rewrite <- !app_assoc. by eexists.
    + rewrite <- !app_assoc. by eexists.
Qed.

End TextLists.

Lemma get_headers_outcome_witness :
  let ths := [fheader 1 EmptyString None; fheader 2 " Name " (Some "asc");
              fheader 3 "  " None; fheader 4 "Status" None] in
  exists evs,
    get_headers (fstate "div.t" [fhead_page "div.t" ths])
    = Ret ["Name"; EmptyString; "Status"]
          (State [fhead_page "div.t" ths] (ftable_locators "div.t") ([] ++ evs)) /\
    clicks evs = [].
Proof.
  intros ths.
  apply (get_headers_outcome CSS_SELECTOR head_selector CSS_SELECTOR ("div.t" +:+ " th")
           (fstate "div.t" [fhead_page "div.t" ths]) (plain 0 EmptyString)
           [fhead_page "div.t" ths] ths [EmptyString; " Name "; "  "; "Status"]);
    try reflexivity.
  repeat constructor.
Defined.

(* ===================================================================== *)
(** ** [update_status] and [search] *)
(* ===================================================================== *)

Section UpdateStatus.
Context `{Driver World Elem}.
Local Abbreviation state := (state World Elem).

(** X19: [update_status(input_name, enable)], once [get_row] has found the
    row. The row counts as enabled when the text of its status cell, stripped
    and in lower case, is [enabled]. If that is what [enable] asks for,
    nothing is clicked and the call returns; if not, the switch of the row is
    clicked once, and an error of that click is raised. *)
Theorem update_status_clicks_when_needed (fuel : nat) (self : AlertTable)
    (input_name : string) (enable : bool) (s s1 : state) (row cell : Elem)
    (by_ v t : string) :
  get_row fuel self input_name "name" false s = Ret row s1 ->
  locators s1 !! "status_column" = Some [by_; v] ->
  find_element row by_ v (world s1) = Ok cell ->
  text cell (world s1) = Ok t ->
  let on := String.eqb (lower (strip t)) "enabled" in
  let read := [ev_getting "status_column" by_ v;
               EvLog INFO (Fmt "Status label: {}" [AStr (lower (strip t))])] in
  (* the row is in the state asked for: nothing is clicked *)
  (on = enable ->
   update_status fuel self input_name enable s = Ret tt (with_events s1 read)) /\
  (* it is not: one click on the switch of the row *)
  (on <> enable ->
   forall by2 v2 button r w2,
     locators s1 !! "status_button" = Some [by2; v2] ->
     find_element row by2 v2 (world s1) = Ok button ->
     click button (world s1) = (r, w2) ->
     let s2 := State w2 (locators s1)
                     (trace s1 ++ read ++ [ev_getting "status_button" by2 v2;
                                           EvClick button]) in
     update_status fuel self input_name enable s =
     match r with
     | Ok _ => Ret tt s2
     | Err x => Exc x s2
     end).
Proof.
  intros Hrow Hl Hcell Ht on read.
  assert (Hrun : update_status fuel self input_name enable s =
                 (if (negb on && enable) || (on && negb enable)
                  then status_button <- _find_element row "status_button";;
                       perform (EvClick status_button) (click status_button);;
                       ret tt
                  else ret tt) (with_events s1 read)).
  { unfold update_status. rewrite bind_run, Hrow, bind_run.
    unfold _find_element at 1. rewrite bind_run.
    rewrite (get_locator_known "status_column" by_ v) by done.
    cbn [unpack2 ret]. rewrite bind_run. cbn [ret fst snd].
    unfold observe at 1. cbn [with_events world]. rewrite Hcell.
    rewrite bind_run. unfold observe at 1. cbn [with_events world]. rewrite Ht.
    cbn zeta. rewrite bind_run, log_run, with_events_app. reflexivity. }
  rewrite Hrun. split.
  - intros <-. by destruct on.
  - intros Hne by2 v2 button r w2 Hl2 Hb Hk s2.
    assert ((negb on && enable) || (on && negb enable) = true) as ->.
    { destruct on, enable; try reflexivity; by destruct Hne. }
    rewrite bind_run. unfold _find_element. rewrite bind_run.
    rewrite (get_locator_known "status_button" by2 v2) by done.
    cbn [unpack2 ret]. rewrite bind_run. cbn [ret fst snd].
    unfold observe. cbn [with_events world]. rewrite Hb.
    rewrite bind_run. unfold perform. cbn [with_events world locators trace]. rewrite Hk.
    unfold s2. rewrite <- !app_assoc. by destruct r as [[]|x].
Qed.

End UpdateStatus.

Lemma update_status_clicks_when_needed_witness :
  let rows := [fcontrol_row "div.t" 10 "x" "Enabled"; fcontrol_row "div.t" 20 "y" " disabled "] in
  let s := fstate "div.t" [fcontrol_page "div.t" rows] in
  (exists s', update_status 5 (ftable_self "div.t") "x" true s = Ret tt s' /\
              clicks (trace s') = []) /\
  (exists s', update_status 5 (ftable_self "div.t") "y" true s = Ret tt s' /\
              clicks (trace s') = [fcontrol 23 EmptyString ClickNothing]).
Proof.
  intros rows s. split.
  - destruct (get_row 5 (ftable_self "div.t") "x" "name" false s) as [row s1|e s1|] eqn:Hrow;
      [|vm_compute in Hrow; discriminate Hrow..].
    assert (Hv := Hrow). vm_compute in Hv. injection Hv as <- <-.
    eexists. split.
    + refine (proj1 (update_status_clicks_when_needed 5 (ftable_self "div.t") "x" true s _
                       _ (plain 12 "Enabled") CSS_SELECTOR STATUS_SELECTOR "Enabled"
                       Hrow _ _ _) _); reflexivity.
    + reflexivity.
  - destruct (get_row 5 (ftable_self "div.t") "y" "name" false s) as [row s1|e s1|] eqn:Hrow;
      [|vm_compute in Hrow; discriminate Hrow..].
    assert (Hv := Hrow). vm_compute in Hv. injection Hv as <- <-.
    eexists. split.
    + refine (proj2 (update_status_clicks_when_needed 5 (ftable_self "div.t") "y" true s _
                       _ (plain 22 " disabled ") CSS_SELECTOR STATUS_SELECTOR " disabled "
                       Hrow _ _ _) _ CSS_SELECTOR STATUS_BUTTON_SELECTOR
                       (fcontrol 23 EmptyString ClickNothing) (Ok tt)
                       [fcontrol_page "div.t" rows] _ _ _);
        first [reflexivity | discriminate].
    + reflexivity.
Defined.

Section SearchBox.
Context `{Driver World Elem} `{WaitDriver World Elem}.
Local Abbreviation state := (state World Elem).

(** [enter_text] on a locator that resolves to an element that is found and
    is not the password field: it is cleared, then typed into. *)
Lemma enter_text_run (locator text_ by_ v : string) (s : state) (element : Elem)
    (w1 w2 w3 : World) :
  locators s !! locator = Some [by_; v] ->
  until_present by_ v DEFAULT_WAIT (msg_not_found by_ v) (world s) = (Ok element, w1) ->
  v <> "password" ->
  clear element w1 = (Ok tt, w2) ->
  send_keys element text_ w2 = (Ok tt, w3) ->
  enter_text locator text_ s =
  Ret tt (State w3 (locators s)
                (trace s ++ [ev_getting locator by_ v;
                             EvLog INFO (Fmt "Entering value with locator: {}, by={} and value={}"
                                             [AStr locator; AStr by_; AStr v]);
                             EvWaitPresent by_ v DEFAULT_WAIT;
                             EvClear element; EvSendKeys element text_])).
Proof.
  intros Hl Hw Hne Hc Hk. unfold enter_text.
  rewrite bind_run, (get_locator_known locator by_ v) by done.
  cbn [unpack2 ret]. unfold try_except.
  rewrite bind_run, log_run, bind_run.
  rewrite (get_element_run by_ v _ (Ok element) w1) by done.
  cbn zeta.
  assert (String.eqb v "password" = false) as -> by by apply String.eqb_neq.
  cbn [negb]. rewrite bind_run. unfold perform at 1. cbn [world locators trace].
  rewrite Hc. unfold perform. cbn [world locators trace]. rewrite Hk.
  cbn [with_events world locators trace].
  by rewrite <- !app_assoc.
Qed.

(** X20: [search] on a table that shows no row (or whose rows cannot be
    listed). The text is typed into the search box, and then the first row,
    which the method wants to see go stale, does not exist: [search] raises
    [IndexError], with the text left in the box. *)
Theorem search_without_rows_raises (fuel : nat) (text_ by_ v by2 v2 by3 v3 : string)
    (s : state) (c box : Elem) (w1 w2 w3 w4 : World) :
  locators s !! "table_container" = Some [by_; v] ->
  locators s !! "search_box" = Some [by2; v2] ->
  locators s !! "rows" = Some [by3; v3] ->
  until_visible by_ v DEFAULT_WAIT (msg_not_visible "table_container" by_ v) (world s)
    = (Ok c, w1) ->
  until_present by2 v2 DEFAULT_WAIT (msg_not_found by2 v2) w1 = (Ok box, w2) ->
  v2 <> "password" ->
  clear box w2 = (Ok tt, w3) ->
  send_keys box text_ w3 = (Ok tt, w4) ->
  find_elements by3 v3 w4 = Ok [] \/ (exists x, find_elements by3 v3 w4 = Err x) ->
  exists evs,
    search fuel text_ s = Exc IndexError (State w4 (locators s) (trace s ++ evs)) /\
    EvSendKeys box text_ ∈ evs.
Proof.
  intros Hc Hb Hr Hw Hp Hne Hcl Hk Hf. unfold search.
  rewrite bind_run, (wait_for_element_run "table_container" by_ v None s (Ok c) w1) by done.
  cbn beta iota zeta. rewrite bind_run, log_run, bind_run.
  rewrite (enter_text_run "search_box" text_ by2 v2 _ box w2 w3 w4) by done.
  cbn [with_events world locators trace]. rewrite bind_run.
  rewrite (get_locator_known "rows" by3 v3) by done.
  cbn [unpack2 ret]. rewrite bind_run. cbn [ret fst snd].
  rewrite bind_run, _find_elements_run. cbn [with_events world locators trace].
  destruct Hf as [Hf|[x Hf]]; rewrite Hf.
  - rewrite bind_run. unfold raise, with_events. cbn [world locators trace].
    rewrite <- !app_assoc. eexists. split; [reflexivity|]. set_solver.
  - rewrite bind_run. unfold raise, with_events. cbn [world locators trace].
    rewrite <- !app_assoc. eexists. split; [reflexivity|]. set_solver.
Qed.

End SearchBox.

Lemma search_without_rows_raises_witness :
  exists evs,
    search 5 "foo" (fstate "div.t" [fcontrol_page "div.t" []])
    = Exc IndexError (State [fcontrol_page "div.t" []] (ftable_locators "div.t") ([] ++ evs))
    /\ EvSendKeys (plain 4 EmptyString) "foo" ∈ evs.
Proof.
  apply (search_without_rows_raises 5 "foo"
           CSS_SELECTOR (container_selector "div.t") CSS_SELECTOR SEARCH_BOX_SELECTOR
           CSS_SELECTOR ("div.t" +:+ ROWS)
           (fstate "div.t" [fcontrol_page "div.t" []])
           (plain 0 EmptyString) (plain 4 EmptyString)
           [fcontrol_page "div.t" []] [fcontrol_page "div.t" []]
           [fcontrol_page "div.t" []] [fcontrol_page "div.t" []]);
    first [reflexivity | discriminate | by left].
Defined.

(* ===================================================================== *)
(** ** Counts and columns on the paginated fixture *)
(* ===================================================================== *)

Section FixtureCounts.
Local Abbreviation state := (state fworld felem).
Variables root col : string.


End FixtureCounts.





(** X13: on every paginated table, whatever its rows hold,
    [get_column_value(value_, column)] looks for the first row that reads
    [value_] in the column [name], and returns what that row reads in the
    column asked for. Both texts are read from the cells of the row: a row
    whose own text, or whose other columns, hold [value_] is passed over. *)
Theorem get_column_value_of_key (root column value_ : string) (pages : list (list felem))
    (pre post : list felem) (names : list string) (r : felem) (t : string) (fuel : nat) :
  concat pages = pre ++ r :: post ->
  Forall2 (fun row x => column_reads root "name" row (fgrid root pages) x) pre names ->
  Forall (fun x => x <> value_) names ->
  column_reads root "name" r (fgrid root pages) value_ ->
  column_reads root column r (fgrid root pages) t ->
  length pre + length pages + 1 < fuel ->
  exists s',
    get_column_value fuel (ftable_self root) value_ column (fstate root (fgrid root pages))
    = Ret t s'.
Proof.
  intros Hitems Hpre Hno Hname Hcol Hfuel.
  unfold get_column_value. rewrite bind_run.
  destruct (get_row_start_grid root fuel value_ "name" false pages) as (s1 & Hinv & ->).
  rewrite Hitems in Hinv.
  destruct (get_row_loop_grid root value_ "name" false (fgrid root pages) pre post names
              r value_ Hpre Hno Hname eq_refl (length pages) fuel GenStart s1 Hinv Hfuel)
    as (s2 & pages' & -> & Hat).
  destruct (_column_value_grid root column pages' s2 r (fgrid root pages) t Hat Hcol)
    as (s3 & -> & _).
  by exists s3.
Qed.

Lemma get_column_value_of_key_witness :
  let r1 := fcells_row "div.t" 10 "b c" [("name", "a"); ("owner", "b c")] "b c" in
  let r2 := fcells_row "div.t" 20 "second" [("name", " b   c"); ("owner", " ann ")] "Enabled" in
  let r3 := fcells_row "div.t" 30 "third" [("name", "b c"); ("owner", "bob")] "Disabled" in
  (exists s',
     get_column_value 7 (ftable_self "div.t") "b c" "Owner"
                      (fstate "div.t" (fgrid "div.t" [[r1]; [r2; r3]]))
     = Ret "ann" s')
  /\
  (exists s',
     get_column_value 7 (ftable_self "div.t") "b c" "Name"
                      (fstate "div.t" (fgrid "div.t" [[r1]; [r2; r3]]))
     = Ret "b c" s').
Proof.
  intros r1 r2 r3. split.
  - apply (get_column_value_of_key "div.t" "Owner" "b c" [[r1]; [r2; r3]]
             [r1] [r3] ["a"] r2 "ann" 7).
    + reflexivity.
    + repeat constructor. exists (plain 11 "a"). split; reflexivity.
    + repeat constructor. discriminate.
    + exists (plain 21 " b   c"). split; reflexivity.
    + exists (plain 21 " ann "). split; reflexivity.
    + cbn [length]. lia.
  - apply (get_column_value_of_key "div.t" "Name" "b c" [[r1]; [r2; r3]]
             [r1] [r3] ["a"] r2 "b c" 7).
    + reflexivity.
    + repeat constructor. exists (plain 11 "a"). split; reflexivity.
    + repeat constructor. discriminate.
    + exists (plain 21 " b   c"). split; reflexivity.
    + exists (plain 21 " b   c"). split; reflexivity.
    + cbn [length]. lia.
Defined.

(* ===================================================================== *)
(** ** Row enumeration: one call after the other *)
(* ===================================================================== *)





(* ===================================================================== *)
(** ** The frame of every method, and what is left of the rest *)
(* ===================================================================== *)

Section FrameAll.
Context `{Driver World Elem} `{WaitDriver World Elem}.
Local Abbreviation M := (M World Elem).
Local Abbreviation state := (state World Elem).

Lemma keeps_await {A} (f : World -> res Elem A * World) : keeps_registry (await f : M _).
Proof.
  intros s. unfold await. destruct (f (world s)) as [[a|e] w]; by apply registry_frame_same.
Qed.
#[local] Hint Resolve keeps_await : frame.

Lemma keeps_wait_for_element_clickable (n : string) :
  keeps_registry (wait_for_element_clickable n : M _).
Proof. unfold wait_for_element_clickable. keeps. Qed.
#[local] Hint Resolve keeps_wait_for_element_clickable : frame.

Lemma keeps_click_element (n : string) : keeps_registry (click_element n : M _).
Proof. unfold click_element. keeps. Qed.
#[local] Hint Resolve keeps_click_element : frame.

Lemma keeps__wait_to_be_stale (e : Elem) : keeps_registry (_wait_to_be_stale e : M _).
Proof.
  intros s. unfold _wait_to_be_stale. pose proof (keeps_await (until_stale e DEFAULT_WAIT) s) as Hs.
  destruct (await (until_stale e DEFAULT_WAIT) s) as [a s1|x s1|]; [done| |done].
  by destruct x.
Qed.
#[local] Hint Resolve keeps__wait_to_be_stale : frame.

Lemma keeps_search (fuel : nat) (t : string) : keeps_registry (search fuel t : M _).
Proof. unfold search. keeps. Qed.

Lemma keeps_clear_search : keeps_registry (clear_search : M _).
Proof. unfold clear_search. keeps. Qed.

(** After a read of a column other than [status], [temp_col] names the cell
    of that column. *)
Lemma _column_value_temp_col (self : AlertTable) (row : Elem) (column t : string)
    (s s' : state) :
  normalize_column column <> "status" ->
  _column_value self row column s = Ret t s' ->
  locators s' !! "temp_col"
  = Some [CSS_SELECTOR; value self +:+ COLS_format (normalize_column column)].
Proof.
  intros Hcol. unfold _column_value. fold (normalize_column column).
  apply String.eqb_neq in Hcol. rewrite Hcol.
  rewrite bind_run, log_run, bind_run.
  destruct (wait_for_element "table_container" None _) as [c s1|e s1|]; [|done..].
  rewrite bind_run, update_locaters_run. unfold _find_element.
  rewrite !bind_assoc, bind_run.
  rewrite (get_locator_known "temp_col" CSS_SELECTOR
             (value self +:+ COLS_format (normalize_column column))).
  2:{ cbn [locators]. by rewrite dict_update_lookup. }
  cbn [unpack2]. unfold bind, ret, observe, with_events.
  cbn [fst snd world locators trace].
  match goal with
  | |- context [find_element ?r ?x ?y ?w] => destruct (find_element r x y w) as [cell|e]
  end; [|done].
  rewrite get_element_text_run. cbn [world].
  match goal with
  | |- context [label_of ?x ?w] => destruct (label_of x w) as [t'|e]
  end; [|done].
  intros [= _ <-]. cbn [locators]. by rewrite dict_update_lookup.
Qed.

(** X23: the registry is shared by all the methods, and the methods of the
    table write one entry of it only. However a call ends, with a value or
    with an exception, every entry but [temp_col] is as it was before. And
    after [_column_value] has read a column other than [status], [temp_col]
    is the selector of the cell of that column. *)
Theorem table_methods_write_only_temp_col (fuel : nat) (self : AlertTable)
    (a b : string) (flag : bool) (rows : option (list Elem)) (row : Elem)
    (action : option string) :
  (keeps_registry (get_list_of_rows fuel rows : M _) /\
   keeps_registry (get_total_rows_elements fuel : M _) /\
   keeps_registry (get_rows_count fuel : M _) /\
   keeps_registry (get_row fuel self a b flag : M _) /\
   keeps_registry (get_column_list fuel self a : M _) /\
   keeps_registry (get_column_value fuel self a b : M _) /\
   keeps_registry (_column_value self row a : M _) /\
   keeps_registry (next_page : M _) /\
   keeps_registry (prev_page : M _) /\
   keeps_registry (switch_to a : M _) /\
   keeps_registry (sort_table a b : M _) /\
   keeps_registry (get_headers : M _) /\
   keeps_registry (get_input_count : M _) /\
   keeps_registry (search fuel a : M _) /\
   keeps_registry (clear_search : M _) /\
   keeps_registry (delete_row fuel self a action : M _) /\
   keeps_registry (edit_row fuel self a : M _) /\
   keeps_registry (clone_row fuel self a : M _) /\
   keeps_registry (update_status fuel self a flag : M _) /\
   keeps_registry (get_expanded_row_value fuel self a : M _)) /\
  (forall (s s' : state) t,
     normalize_column a <> "status" ->
     _column_value self row a s = Ret t s' ->
     locators s' !! "temp_col"
     = Some [CSS_SELECTOR; value self +:+ COLS_format (normalize_column a)]).
Proof.
  split.
  - repeat split; auto with frame.
    + apply keeps_get_column_list_loop.
    + apply keeps_search.
    + apply keeps_clear_search.
  - intros s s' t. apply _column_value_temp_col.
Qed.

(** X10: [get_list_of_rows(rows)] goes through the pages as
    [get_list_of_rows()] does, with the same effects and the same exceptions,
    and returns the rows it was given followed by the rows it found. *)
Theorem get_list_of_rows_keeps_given_rows (fuel : nat) (acc : list Elem) (s : state) :
  get_list_of_rows fuel (Some acc) s =
  match get_list_of_rows fuel None s with
  | Ret rows s' => Ret (acc ++ rows) s'
  | Exc e s' => Exc e s'
  | OutOfFuel => OutOfFuel
  end.
Proof.
  assert (Hgen : forall fuel acc0 acc1 (s : state),
             get_list_of_rows fuel (Some (acc0 ++ acc1)) s =
             match get_list_of_rows fuel (Some acc1) s with
             | Ret rows s' => Ret (acc0 ++ rows) s'
             | Exc e s' => Exc e s'
             | OutOfFuel => OutOfFuel
             end).
  { clear. intros fuel. induction fuel as [|fuel IH]; intros acc0 acc1 s; [reflexivity|].
    rewrite !get_list_of_rows_unfold, !bind_run.
    destruct (fetch_rows s) as [cur s1|e s1|]; [|reflexivity..].
    rewrite !bind_run. destruct (next_page s1) as [[|] s2|e s2|]; try reflexivity.
    - cbn [default from_option id]. rewrite <- app_assoc. apply IH.
    - cbn [default from_option id ret]. by rewrite <- app_assoc. }
  assert (Hnone : get_list_of_rows fuel None s = get_list_of_rows fuel (Some []) s).
  { by destruct fuel. }
  rewrite Hnone, <- Hgen. by rewrite app_nil_r.
Qed.

(** X6: [get_element_text] only reads the page, and the text it returns is
    in normal form: stripping it again, or collapsing its white space again,
    changes nothing. *)
Theorem get_element_text_normal_form (e : Elem) (s s' : state) (t : string) :
  get_element_text e s = Ret t s' ->
  s' = s /\ strip t = t /\ collapse_ws false t = t.
Proof.
  rewrite get_element_text_run. unfold label_of.
  destruct (get_attribute e "innerText" (world s)) as [[inner|]|x]; try done.
  intros [= <- <-]. split; [done|]. split.
  - apply strip_idemp.
  - apply collapse_ws_collapsed. unfold strip.
    apply collapsed_rstrip, (collapsed_lstrip false), collapsed_collapse_ws.
Qed.

End FrameAll.

Lemma get_element_text_normal_form_witness :
  let e := FElem 1 EmptyString (Some ("  Page" +:+ nl +:+ "  2 ")) None true true
                 ClickNothing [] (TextNode EmptyString) in
  get_element_text e (fstate "div.t" []) = Ret "Page 2" (fstate "div.t" []) /\
  strip "Page 2" = "Page 2" /\ collapse_ws false "Page 2" = "Page 2".
Proof.
  intros e. split; [reflexivity|].
  refine (proj2 (get_element_text_normal_form e (fstate "div.t" []) (fstate "div.t" [])
                   "Page 2" _)).
  reflexivity.
Defined.

Section TextSentinel.
Context `{Driver World Elem}.
Local Abbreviation state := (state World Elem).

(** X24: [get_text] never returns the empty string: the text of an element
    that has none is replaced by the sentinel, which is not empty. *)
Theorem get_text_never_empty (locator : string) (s s' : state) (t : string) :
  get_text locator s = Ret t s' -> t <> EmptyString.
Proof.
  revert s t s'. change (returns_only (get_text locator) (fun t => t <> EmptyString)).
  unfold get_text. do 4 (apply returns_only_bind; intros ?).
  apply returns_only_ret.
  destruct (String.eqb_spec (lower a2) EmptyString) as [He|He]; cbn [negb].
  - unfold String.append. discriminate.
  - intros ->. by apply He.
Qed.

End TextSentinel.

Lemma get_text_never_empty_witness :
  match get_text "label_component" (flabel_state label_without_text) with
  | Ret t _ => t <> EmptyString
  | _ => False
  end.
Proof.
  destruct (get_text "label_component" (flabel_state label_without_text))
    as [t s'|e s'|] eqn:Hrun; [|vm_compute in Hrun; discriminate Hrun..].
  exact (get_text_never_empty _ _ _ _ Hrun).
Defined.



(* ===================================================================== *)
(** ** The components: search box, select, checkbox and dropdown *)
(* ===================================================================== *)

Section ClickRuns.
Context `{Driver World Elem} `{WaitDriver World Elem}.
Local Abbreviation state := (state World Elem).

(** [click_element] when its wait and its click go through. *)
Lemma click_element_ok (n by_ v : string) (s : state) (element : Elem) (w1 w2 : World) :
  locators s !! n = Some [by_; v] ->
  until_clickable by_ v DEFAULT_WAIT (msg_not_clickable n by_ v) (world s) = (Ok element, w1) ->
  click element w1 = (Ok tt, w2) ->
  click_element n s =
  Ret tt (State w2 (locators s)
                (trace s ++ [ev_getting n by_ v; ev_waiting_clickable n by_ v;
                             EvClick element])).
Proof.
  intros Hl Hw Hk. unfold click_element, try_except. rewrite bind_run.
  rewrite (wait_for_element_clickable_run n by_ v s (Ok element) w1) by done.
  cbn beta iota zeta. unfold perform. cbn [world locators trace]. rewrite Hk.
  by rewrite <- !app_assoc.
Qed.

(** [click_element] when its wait raises. *)
Lemma click_element_wait_fails (n by_ v : string) (s : state) (x : exn Elem) (w1 : World) :
  locators s !! n = Some [by_; v] ->
  until_clickable by_ v DEFAULT_WAIT (msg_not_clickable n by_ v) (world s) = (Err x, w1) ->
  click_element n s =
  Exc x (State w1 (locators s)
               (trace s ++ [ev_getting n by_ v; ev_waiting_clickable n by_ v;
                            ev_click_error n (exn_name x)])).
Proof.
  intros Hl Hw. unfold click_element, try_except. rewrite bind_run.
  rewrite (wait_for_element_clickable_run n by_ v s (Err x) w1) by done.
  cbn beta iota zeta. rewrite bind_run, log_run. unfold raise, with_events.
  cbn [world locators trace]. by rewrite <- !app_assoc.
Qed.

End ClickRuns.

Section SearchQueryBoxFacts.
Context `{Driver World Elem}.
Local Abbreviation state := (state World Elem).

(** X26: [SearchQueryBox.get_value] passes the two items of its registry
    entry, starred, to [get_element_text], which takes one element. So it
    never returns a value, from any state and on any page. And on the box its
    constructor has made, once the content of the editor is visible, what it
    raises is [TypeError]. *)
Theorem search_query_box_get_value_never_returns (name : string) :
  never_returns (SearchQueryBox_get_value name : M World Elem string) /\
  (forall (w : World) (value_ : string) (by_ : option string),
   exists s0 : state,
     SearchQueryBox_init w name value_ by_ = Ret name s0 /\
     world s0 = w /\
     forall c w1,
       until_visible (default CSS_SELECTOR by_) (value_ +:+ " .ace_content") DEFAULT_WAIT
                     (msg_not_visible name (default CSS_SELECTOR by_)
                                      (value_ +:+ " .ace_content")) w
       = (Ok c, w1) ->
       exists evs,
         SearchQueryBox_get_value name s0
         = Exc TypeError (State w1 (locators s0) (trace s0 ++ evs))).
Proof.
  split.
  - unfold SearchQueryBox_get_value.
    do 2 (apply never_returns_bind_r; intros ?).
    unfold get_element_text_starred.
    destruct a0 as [|x [|y l]]; apply never_returns_raise.
  - intros w value_ by_. eexists. split; [reflexivity|]. split; [reflexivity|].
    intros c w1 Hw.
    assert (Hl : forall tr : list (event Elem),
               locators (State w (dict_update
                                    (dict_update (Locator_init [(name, (by_, value_))])
                                                 (comprehension base_locators))
                                    (comprehension
                                       [("text_container", (by_, value_ +:+ " .ace_editor"));
                                        (name, (by_, value_ +:+ " .ace_content"))])) tr)
               !! name
               = Some [default CSS_SELECTOR by_; value_ +:+ " .ace_content"]).
    { intros tr. cbn [locators]. rewrite dict_update_lookup. cbn [assoc_last].
      rewrite String.eqb_refl. by destruct by_. }
    unfold SearchQueryBox_get_value. rewrite bind_run.
    erewrite wait_for_element_run; [|apply Hl|exact Hw].
    cbn beta iota zeta. rewrite bind_run.
    erewrite get_locator_known; [|apply Hl].
    cbn [get_element_text_starred]. unfold raise, with_events. cbn [world locators trace].
    rewrite <- !app_assoc. by eexists.
Qed.

End SearchQueryBoxFacts.

Section AlertSelectFacts.
Context `{Driver World Elem} `{WaitDriver World Elem}.
Local Abbreviation state := (state World Elem).

(** The loop of [select] when no option has the text it looks for. *)
Lemma select_loop_none (options : list Elem) (texts : list string) (value_ : string)
    (s : state) :
  Forall2 (fun o t => text o (world s) = Ok t) options texts ->
  Forall (fun t => lower (strip t) <> lower value_) texts ->
  exists evs,
    clicks evs = [] /\
    select_loop options value_ s
    = Exc (ValueError (Fmt "Given value={} is not found." [AStr value_])) (with_events s evs).
Proof.
  intros Hall. revert s Hall.
  assert (Hgen : forall s0 : state,
             Forall2 (fun o t => text o (world s0) = Ok t) options texts ->
             Forall (fun t => lower (strip t) <> lower value_) texts ->
             forall s : state, world s = world s0 ->
             exists evs,
               clicks evs = [] /\
               select_loop options value_ s
               = Exc (ValueError (Fmt "Given value={} is not found." [AStr value_]))
                     (with_events s evs)).
  { intros s0 Hall.
    induction Hall as [|o t options texts Ho _ IH]; intros Hno s Hw; cbn [select_loop].
    - exists []. by rewrite with_events_nil.
    - inversion Hno as [|? ? Ht Hno']; subst. rewrite <- Hw in Ho.
      rewrite bind_run. unfold observe at 1. rewrite Ho.
      rewrite bind_run, log_run, bind_run. unfold observe at 1.
      cbn [with_events world]. rewrite Ho.
      apply String.eqb_neq in Ht. rewrite Ht.
      destruct (IH Hno' (with_events s [EvLog INFO (Fmt "option text: {}" [AStr t])]))
        as (evs & Hc & ->); [done|].
      eexists. rewrite with_events_app. split; [|reflexivity]. by rewrite clicks_app, Hc. }
  intros s Hall Hno. by apply (Hgen s).
Qed.

(** The loop of [select] at the first option with the text it looks for. *)
Lemma select_loop_first (pre post : list Elem) (o : Elem) (texts : list string)
    (t value_ : string) (s : state) (w' : World) :
  Forall2 (fun o t => text o (world s) = Ok t) pre texts ->
  Forall (fun t => lower (strip t) <> lower value_) texts ->
  text o (world s) = Ok t -> lower (strip t) = lower value_ ->
  click o (world s) = (Ok tt, w') ->
  exists evs,
    clicks evs = [o] /\
    select_loop (pre ++ o :: post) value_ s
    = Ret true (State w' (locators s) (trace s ++ evs)).
Proof.
  intros Hall. revert s Hall.
  assert (Hgen : forall s0 : state,
             Forall2 (fun o t => text o (world s0) = Ok t) pre texts ->
             Forall (fun t => lower (strip t) <> lower value_) texts ->
             text o (world s0) = Ok t -> lower (strip t) = lower value_ ->
             click o (world s0) = (Ok tt, w') ->
             forall s : state, world s = world s0 ->
             exists evs,
               clicks evs = [o] /\
               select_loop (pre ++ o :: post) value_ s
               = Ret true (State w' (locators s) (trace s ++ evs))).
  { intros s0 Hall.
    induction Hall as [|p tp pre texts Hp _ IH]; intros Hno Ho Ht Hk s Hw;
      cbn [app select_loop].
    - rewrite <- Hw in Ho, Hk.
      rewrite bind_run. unfold observe at 1. rewrite Ho.
      rewrite bind_run, log_run, bind_run. unfold observe at 1.
      cbn [with_events world]. rewrite Ho, Ht, String.eqb_refl.
      rewrite bind_run. unfold perform. cbn [with_events world locators trace]. rewrite Hk.
      cbn [ret]. rewrite <- !app_assoc. eexists. split; [|reflexivity]. reflexivity.
    - inversion Hno as [|? ? Htp Hno']; subst. rewrite <- Hw in Hp.
      rewrite bind_run. unfold observe at 1. rewrite Hp.
      rewrite bind_run, log_run, bind_run. unfold observe at 1.
      cbn [with_events world]. rewrite Hp.
      apply String.eqb_neq in Htp. rewrite Htp.
      destruct (IH Hno' Ho Ht Hk (with_events s [EvLog INFO (Fmt "option text: {}" [AStr tp])]))
        as (evs & Hc & ->); [done|].
      eexists. unfold with_events. cbn [world locators trace]. rewrite <- app_assoc.
      split; [|reflexivity]. by rewrite clicks_app, Hc. }
  intros s Hall Hno Ho Ht Hk. by apply (Hgen s).
Qed.

(** X27: the handler of [AlertSelect.select] binds [value] again, to the
    selector with [[label="Select..."]] that it clicks. When the control
    itself cannot be clicked and that one can, the loop looks for an option
    whose text is that selector: unless an option reads so, no option is
    clicked, whatever value was asked for, and the [ValueError] names the
    selector. *)
Theorem alert_select_fallback_forgets_value (name value_ by_ v by2 v2 by3 v3 : string)
    (s : state) (c c2 element : Elem) (x : exn Elem) (w1 w2 w3 w4 w5 : World)
    (options : list Elem) (texts : list string) :
  locators s !! name = Some [by_; v] ->
  locators s !! "menu" = Some [by2; v2] ->
  locators s !! "values" = Some [by3; v3] ->
  until_visible by_ v DEFAULT_WAIT (msg_not_visible name by_ v) (world s) = (Ok c, w1) ->
  (* the control cannot be clicked, the one with the label can *)
  until_clickable by_ v DEFAULT_WAIT (msg_not_clickable name by_ v) w1 = (Err x, w2) ->
  until_clickable by_ (v +:+ SELECT_LABEL) DEFAULT_WAIT (Fmt EmptyString []) w2
    = (Ok element, w3) ->
  click element w3 = (Ok tt, w4) ->
  until_visible by2 v2 DEFAULT_WAIT (msg_not_visible "menu" by2 v2) w4 = (Ok c2, w5) ->
  find_elements by3 v3 w5 = Ok options ->
  Forall2 (fun o t => text o w5 = Ok t) options texts ->
  (* no option reads as the selector does *)
  Forall (fun t => lower (strip t) <> lower (v +:+ SELECT_LABEL)) texts ->
  exists evs,
    AlertSelect_select name value_ s
    = Exc (ValueError (Fmt "Given value={} is not found." [AStr (v +:+ SELECT_LABEL)]))
          (State w5 (locators s) (trace s ++ evs)) /\
    clicks evs = [element].
Proof.
  intros Hn Hm Hv Hw Hc1 Hc2 Hk Hw2 Hf Hall Hno. unfold AlertSelect_select.
  rewrite bind_run, log_run, bind_run.
  rewrite (wait_for_element_run name by_ v None _ (Ok c) w1) by done.
  cbn beta iota zeta. cbn [with_events world locators trace].
  rewrite bind_run. unfold try_except at 1. rewrite bind_run.
  rewrite (click_element_wait_fails name by_ v _ x w2) by done.
  rewrite bind_run, (get_locator_known name by_ v) by done.
  cbn [unpack2 ret]. rewrite bind_run. cbn [ret fst snd]. cbn zeta.
  rewrite bind_run. unfold await at 1. cbn [with_events world locators trace].
  rewrite Hc2. rewrite bind_run. unfold perform at 1. cbn [world locators trace].
  rewrite Hk. cbn [ret]. rewrite bind_run.
  rewrite (wait_for_element_run "menu" by2 v2 None _ (Ok c2) w5) by done.
  cbn beta iota zeta. cbn [world locators trace]. rewrite bind_run.
  rewrite (get_locator_known "values" by3 v3) by done.
  cbn [unpack2 ret]. rewrite bind_run. cbn [ret fst snd].
  rewrite bind_run, _find_elements_run. cbn [with_events world locators trace].
  rewrite Hf.
  match goal with |- context [select_loop options _ ?s1] =>
    destruct (select_loop_none options texts (v +:+ SELECT_LABEL) s1 Hall Hno)
      as (evs & Hevs & ->) end.
  unfold with_events. cbn [world locators trace]. rewrite <- !app_assoc.
  eexists. split; [reflexivity|]. rewrite !clicks_app, Hevs. reflexivity.
Qed.

(** X28: when the control of an [AlertSelect] can be clicked and the menu
    opens, [select] clicks the control, then the first option whose text,
    stripped and in lower case, is the value in lower case, and returns
    [True]: two clicks, and no option before or after that one. *)
Theorem alert_select_clicks_first_match (name value_ by_ v by2 v2 by3 v3 t : string)
    (s : state) (c c2 element o : Elem) (w1 w2 w3 w4 w5 : World)
    (pre post : list Elem) (texts : list string) :
  locators s !! name = Some [by_; v] ->
  locators s !! "menu" = Some [by2; v2] ->
  locators s !! "values" = Some [by3; v3] ->
  until_visible by_ v DEFAULT_WAIT (msg_not_visible name by_ v) (world s) = (Ok c, w1) ->
  until_clickable by_ v DEFAULT_WAIT (msg_not_clickable name by_ v) w1 = (Ok element, w2) ->
  click element w2 = (Ok tt, w3) ->
  until_visible by2 v2 DEFAULT_WAIT (msg_not_visible "menu" by2 v2) w3 = (Ok c2, w4) ->
  find_elements by3 v3 w4 = Ok (pre ++ o :: post) ->
  Forall2 (fun o t => text o w4 = Ok t) pre texts ->
  Forall (fun t => lower (strip t) <> lower value_) texts ->
  text o w4 = Ok t ->
  lower (strip t) = lower value_ ->
  click o w4 = (Ok tt, w5) ->
  exists evs,
    AlertSelect_select name value_ s
    = Ret true (State w5 (locators s) (trace s ++ evs)) /\
    clicks evs = [element; o].
Proof.
  intros Hn Hm Hv Hw Hc1 Hk Hw2 Hf Hall Hno Ho Ht Hko. unfold AlertSelect_select.
  rewrite bind_run, log_run, bind_run.
  rewrite (wait_for_element_run name by_ v None _ (Ok c) w1) by done.
  cbn beta iota zeta. cbn [with_events world locators trace].
  rewrite bind_run. unfold try_except at 1. rewrite bind_run.
  rewrite (click_element_ok name by_ v _ element w2 w3) by done.
  cbn [ret]. rewrite bind_run.
  rewrite (wait_for_element_run "menu" by2 v2 None _ (Ok c2) w4) by done.
  cbn beta iota zeta. cbn [world locators trace]. rewrite bind_run.
  rewrite (get_locator_known "values" by3 v3) by done.
  cbn [unpack2 ret]. rewrite bind_run. cbn [ret fst snd].
  rewrite bind_run, _find_elements_run. cbn [with_events world locators trace].
  rewrite Hf.
  match goal with |- context [select_loop _ _ ?s1] =>
    destruct (select_loop_first pre post o texts t value_ s1 w5 Hall Hno Ho Ht Hko)
      as (evs & Hevs & ->) end.
  unfold with_events. cbn [world locators trace]. rewrite <- ?app_assoc.
  eexists. split; [reflexivity|]. rewrite !clicks_app, Hevs. reflexivity.
Qed.

End AlertSelectFacts.

Lemma alert_select_clicks_first_match_witness :
  let sel := "div.s [data-test=" +:+ dq +:+ "select" +:+ dq +:+ "]" in
  let page := fselect_open_page sel [plain 10 "Critical"; plain 11 " High "; plain 12 "high"] in
  exists s0 evs,
    AlertSelect_init [page] "severity" "div.s" None = Ret "severity" s0 /\
    AlertSelect_select "severity" "HIGH" s0
    = Ret true (State [page] (locators s0) (trace s0 ++ evs)) /\
    clicks evs = [fcontrol 1 "Select..." ClickNothing; plain 11 " High "].
Proof.
  intros sel page.
  pose (s0 := match AlertSelect_init [page] "severity" "div.s" None
                     return state fworld felem with
              | Ret _ s => s
              | _ => State [] ∅ []
              end).
  destruct (@alert_select_clicks_first_match fworld felem fixture_driver
              fixture_wait_driver "severity" "HIGH"
              CSS_SELECTOR sel CSS_SELECTOR ("[data-test=" +:+ dq +:+ "menu" +:+ dq +:+ "]")
              CSS_SELECTOR ("[data-test=" +:+ dq +:+ "option" +:+ dq +:+ "]") " High " s0
              (fcontrol 1 "Select..." ClickNothing) (plain 3 EmptyString)
              (fcontrol 1 "Select..." ClickNothing) (plain 11 " High ")
              [page] [page] [page] [page] [page]
              [plain 10 "Critical"] [plain 12 "high"] ["Critical"])
    as (evs & Heq & Hevs).
  - reflexivity.
  - reflexivity.
  - reflexivity.
  - reflexivity.
  - reflexivity.
  - reflexivity.
  - reflexivity.
  - reflexivity.
  - repeat constructor.
  - repeat constructor; discriminate.
  - reflexivity.
  - reflexivity.
  - reflexivity.
  - exists s0, evs. split; [reflexivity|]. split; [exact Heq | exact Hevs].
Defined.

Lemma alert_select_fallback_forgets_value_witness :
  let sel := "div.s [data-test=" +:+ dq +:+ "select" +:+ dq +:+ "]" in
  let page := fselect_page sel [plain 10 "Critical"; plain 11 "High"] in
  exists s0 evs,
    AlertSelect_init [page] "severity" "div.s" None = Ret "severity" s0 /\
    AlertSelect_select "severity" "High" s0
    = Exc (ValueError (Fmt "Given value={} is not found." [AStr (sel +:+ SELECT_LABEL)]))
          (State [page] (locators s0) (trace s0 ++ evs)) /\
    clicks evs = [fcontrol 2 "Select..." ClickNothing].
Proof.
  intros sel page. eexists.
  edestruct (@alert_select_fallback_forgets_value fworld felem fixture_driver
               fixture_wait_driver "severity" "High"
               CSS_SELECTOR sel CSS_SELECTOR ("[data-test=" +:+ dq +:+ "menu" +:+ dq +:+ "]")
               CSS_SELECTOR ("[data-test=" +:+ dq +:+ "option" +:+ dq +:+ "]"))
    as (evs & Heq & Hevs); cycle 11.
  - exists evs. split; [reflexivity|]. split; [exact Heq | exact Hevs].
  - reflexivity.
  - reflexivity.
  - reflexivity.
  - reflexivity.
  - reflexivity.
  - reflexivity.
  - reflexivity.
  - reflexivity.
  - reflexivity.
  - repeat constructor.
  - repeat constructor; discriminate.
Defined.

Section AlertCheckboxFacts.
Context `{Driver World Elem} `{WaitDriver World Elem}.
Local Abbreviation state := (state World Elem).

(** [is_checked] when its element is found and its attribute read. *)
Lemma is_checked_run (name by_ v : string) (s : state) (element : Elem) (w1 : World)
    (a : option string) :
  locators s !! name = Some [by_; v] ->
  until_present by_ v DEFAULT_WAIT (msg_not_found by_ v) (world s) = (Ok element, w1) ->
  get_attribute element "aria-checked" w1 = Ok a ->
  is_checked name s =
  Ret (bool_decide (a = Some "true"))
      (State w1 (locators s)
             (trace s ++ [EvLog INFO (Fmt "Checking if checkbox is checked." []);
                          ev_getting name by_ v; EvWaitPresent by_ v DEFAULT_WAIT])).
Proof.
  intros Hl Hp Ha. unfold is_checked.
  rewrite bind_run, log_run, bind_run, (get_locator_known name by_ v) by done.
  cbn [unpack2 ret]. rewrite bind_run. cbn [ret fst snd]. rewrite bind_run.
  rewrite (get_element_run by_ v _ (Ok element) w1) by done.
  cbn beta iota zeta. rewrite bind_run. unfold observe. cbn [world locators trace].
  rewrite Ha. unfold ret, with_events. cbn [world locators trace].
  by rewrite <- ?app_assoc.
Qed.

(** X29: [check] and [uncheck] read [aria-checked] of the checkbox and click
    its button only when the box is not as asked: [check] returns [False]
    without a click on a box that reads [true] and clicks once and returns
    [True] on any other; [uncheck] the other way round. [check] waits for the
    button to be visible first; [uncheck] does not. *)
Theorem checkbox_clicks_only_when_needed (name by_ v byb vb : string) (s : state) :
  locators s !! name = Some [by_; v] ->
  locators s !! "checkbox_btn" = Some [byb; vb] ->
  (forall (c element : Elem) (w1 w2 : World) (a : option string),
     until_visible byb vb DEFAULT_WAIT (msg_not_visible "checkbox_btn" byb vb) (world s)
     = (Ok c, w1) ->
     until_present by_ v DEFAULT_WAIT (msg_not_found by_ v) w1 = (Ok element, w2) ->
     get_attribute element "aria-checked" w2 = Ok a ->
     if bool_decide (a = Some "true") then
       exists evs,
         check name s = Ret false (State w2 (locators s) (trace s ++ evs)) /\ clicks evs = []
     else
       forall (btn : Elem) (w3 w4 : World),
         until_clickable byb vb DEFAULT_WAIT (msg_not_clickable "checkbox_btn" byb vb) w2
         = (Ok btn, w3) ->
         click btn w3 = (Ok tt, w4) ->
         exists evs,
           check name s = Ret true (State w4 (locators s) (trace s ++ evs)) /\
           clicks evs = [btn]) /\
  (forall (element : Elem) (w2 : World) (a : option string),
     until_present by_ v DEFAULT_WAIT (msg_not_found by_ v) (world s) = (Ok element, w2) ->
     get_attribute element "aria-checked" w2 = Ok a ->
     if bool_decide (a = Some "true") then
       forall (btn : Elem) (w3 w4 : World),
         until_clickable byb vb DEFAULT_WAIT (msg_not_clickable "checkbox_btn" byb vb) w2
         = (Ok btn, w3) ->
         click btn w3 = (Ok tt, w4) ->
         exists evs,
           uncheck name s = Ret true (State w4 (locators s) (trace s ++ evs)) /\
           clicks evs = [btn]
     else
       exists evs,
         uncheck name s = Ret false (State w2 (locators s) (trace s ++ evs)) /\
         clicks evs = []).
Proof.
  intros Hn Hb. split.
  - intros c element w1 w2 a Hv Hp Ha.
    assert (Hpre : forall k : bool -> M World Elem bool,
               (wait_for_element "checkbox_btn" None;; checked <- is_checked name;; k checked) s
               = k (bool_decide (a = Some "true"))
                   (State w2 (locators s)
                          (trace s ++ [ev_waiting "checkbox_btn";
                                       ev_getting "checkbox_btn" byb vb;
                                       EvWaitVisible byb vb DEFAULT_WAIT;
                                       EvLog INFO (Fmt "Checking if checkbox is checked." []);
                                       ev_getting name by_ v;
                                       EvWaitPresent by_ v DEFAULT_WAIT]))).
    { intros k. rewrite bind_run.
      rewrite (wait_for_element_run "checkbox_btn" byb vb None s (Ok c) w1) by done.
      cbn beta iota zeta. rewrite bind_run.
      rewrite (is_checked_run name by_ v _ element w2 a) by done.
      cbn [world locators trace]. by rewrite <- ?app_assoc. }
    unfold check, try_except. rewrite Hpre.
    destruct (bool_decide (a = Some "true")); cbn [negb].
    + rewrite bind_run, log_run. unfold ret, with_events. cbn [world locators trace].
      rewrite <- ?app_assoc. eexists. split; [reflexivity|]. reflexivity.
    + intros btn w3 w4 Hc Hk.
      rewrite bind_run, log_run, bind_run.
      rewrite (click_element_ok "checkbox_btn" byb vb _ btn w3 w4) by done.
      unfold ret, with_events. cbn [world locators trace].
      rewrite <- ?app_assoc. eexists. split; [reflexivity|]. reflexivity.
  - intros element w2 a Hp Ha. unfold uncheck.
    assert (Hpre : forall (k : bool -> M World Elem bool) (h : exn Elem -> M World Elem bool),
               (log INFO "Unchecking the checkbox." [];;
                try_except (checked <- is_checked name;; k checked) h) s
               = try_except
                   (k (bool_decide (a = Some "true"))) h
                   (State w2 (locators s)
                          (trace s ++ [EvLog INFO (Fmt "Unchecking the checkbox." []);
                                       EvLog INFO (Fmt "Checking if checkbox is checked." []);
                                       ev_getting name by_ v;
                                       EvWaitPresent by_ v DEFAULT_WAIT]))).
    { intros k h. rewrite bind_run, log_run. unfold try_except. rewrite bind_run.
      rewrite (is_checked_run name by_ v _ element w2 a) by done.
      cbn [with_events world locators trace]. by rewrite <- ?app_assoc. }
    rewrite Hpre. unfold try_except.
    destruct (bool_decide (a = Some "true")).
    + intros btn w3 w4 Hc Hk.
      rewrite bind_run, log_run, bind_run.
      rewrite (click_element_ok "checkbox_btn" byb vb _ btn w3 w4) by done.
      unfold ret, with_events. cbn [world locators trace].
      rewrite <- ?app_assoc. eexists. split; [reflexivity|]. reflexivity.
    + rewrite bind_run, log_run. unfold ret, with_events. cbn [world locators trace].
      rewrite <- ?app_assoc. eexists. split; [reflexivity|]. reflexivity.
Qed.

End AlertCheckboxFacts.

Lemma checkbox_clicks_only_when_needed_witness :
  exists s0 evs evs',
    AlertCheckbox_init false "terms" "div.terms" None = Ret "terms" s0 /\
    (check "terms" s0 = Ret true (State true (locators s0) (trace s0 ++ evs)) /\
     clicks evs = [tt]) /\
    (uncheck "terms" s0 = Ret false (State false (locators s0) (trace s0 ++ evs')) /\
     clicks evs' = []).
Proof.
  pose (s0 := match AlertCheckbox_init false "terms" "div.terms" None
                     return state bool unit with
              | Ret _ s => s
              | _ => State false ∅ []
              end).
  destruct (@checkbox_clicks_only_when_needed bool unit checkbox_driver checkbox_wait_driver
              "terms" CSS_SELECTOR "div.terms" CSS_SELECTOR "div.terms .checkbox a.btn" s0)
    as [Hcheck Huncheck]; [reflexivity | reflexivity |].
  destruct (Hcheck tt tt false false (Some "false") eq_refl eq_refl eq_refl
                   tt false true eq_refl eq_refl) as (evs & Hrun).
  destruct (Huncheck tt false (Some "false") eq_refl eq_refl) as (evs' & Hrun').
  exists s0, evs, evs'. split; [reflexivity|]. split; [exact Hrun | exact Hrun'].
Defined.

Section AlertDropDownFacts.
Context `{Driver World Elem} `{WaitDriver World Elem}.
Local Abbreviation state := (state World Elem).

(** What [get_element_text] returns is in its normal form. *)
Lemma get_element_text_returns (e : Elem) (s s' : state) (t : string) :
  get_element_text e s = Ret t s' -> strip (collapse_ws false t) = t.
Proof.
  rewrite get_element_text_run. unfold label_of.
  destruct (get_attribute e "innerText" (world s)) as [[inner|]|x]; [|done..].
  intros [= <- _]. apply normalize_idemp.
Qed.

Lemma dropdown_select_loop_never (actions : list Elem) (action_name : string) :
  strip (collapse_ws false action_name) <> action_name ->
  never_returns (dropdown_select_loop actions action_name).
Proof.
  intros Hv. induction actions as [|action rest IH]; cbn [dropdown_select_loop].
  - apply never_returns_raise.
  - intros s b s'. rewrite bind_run.
    destruct (get_element_text action s) as [t s1|e s1|] eqn:Ht; [|done..].
    apply get_element_text_returns in Ht.
    destruct (String.eqb_spec action_name t) as [->|Hne]; [done|]. apply IH.
Qed.

Lemma labels_of_returns (actions : list Elem) (val vals : list string) (s s' : state) :
  Forall (fun t => strip (collapse_ws false t) = t) val ->
  labels_of actions val s = Ret vals s' ->
  Forall (fun t => strip (collapse_ws false t) = t) vals.
Proof.
  revert val s. induction actions as [|action rest IH]; intros val s Hval; cbn [labels_of].
  - by intros [= <- _].
  - rewrite bind_run.
    destruct (get_element_text action s) as [t s1|e s1|] eqn:Ht; [|done..].
    apply get_element_text_returns in Ht. apply IH.
    apply Forall_app. split; [done|]. by constructor.
Qed.

(** X30: [AlertDropDown.select] compares the name, as it is given, with
    texts that [get_element_text] has normalized. A name with white space at
    either end, a tab, a line feed or two spaces in a row is then the text of
    no action: [select] does not return, whatever the page shows, and neither
    [get_dropdown_values] nor [get_add_actions_list] ever lists such a
    name. *)
Theorem dropdown_select_needs_normalized_name (action_name : string) :
  strip (collapse_ws false action_name) <> action_name ->
  never_returns (AlertDropDown_select action_name : M World Elem bool) /\
  (forall (s s' : state) (vals : list string),
     get_dropdown_values s = Ret vals s' \/ get_add_actions_list s = Ret vals s' ->
     action_name ∉ vals).
Proof.
  intros Hv. split.
  - unfold AlertDropDown_select.
    do 5 (apply never_returns_bind_r; intros ?).
    by apply dropdown_select_loop_never.
  - intros s s' vals Hrun Hin.
    assert (Hall : Forall (fun t => strip (collapse_ws false t) = t) vals).
    { destruct Hrun as [Hrun|Hrun].
      - unfold get_dropdown_values in Hrun.
        repeat (rewrite bind_run in Hrun;
                match type of Hrun with
                | match ?m with _ => _ end = _ => destruct m as [? ?|? ?|]; [|done..]
                end).
        by apply (labels_of_returns _ [] _ _ _ (Forall_nil_2 _) Hrun).
      - unfold get_add_actions_list in Hrun.
        repeat (rewrite bind_run in Hrun;
                match type of Hrun with
                | match ?m with _ => _ end = _ => destruct m as [? ?|? ?|]; [|done..]
                end).
        by apply (labels_of_returns _ [] _ _ _ (Forall_nil_2 _) Hrun). }
    rewrite Forall_forall in Hall. by apply Hv, Hall.
Qed.

End AlertDropDownFacts.

Lemma dropdown_select_needs_normalized_name_witness :
  let page := fdropdown_page "div.d" [plain 10 "Send  email"; plain 11 "Log Event"] in
  never_returns (AlertDropDown_select "Send  email" : M fworld felem bool) /\
  match AlertDropDown_init [page] "actions" "div.d" None with
  | Ret _ s0 =>
      match get_dropdown_values s0 with
      | Ret vals _ => vals = ["Send email"; "Log Event"]
      | _ => False
      end /\
      match AlertDropDown_select "Send  email" s0 with
      | Exc e _ =>
          e = ValueError (Fmt "Given Alert Action '{}' is not found." [AStr "Send  email"])
      | _ => False
      end
  | _ => False
  end.
Proof.
  intros page. split.
  - apply (dropdown_select_needs_normalized_name (World := fworld) (Elem := felem)).
    discriminate.
  - vm_compute. split; reflexivity.
Defined.

